(** * STL point-cloud pipeline: decoder, boundary analysis and point sampler

    Shallow embedding of the geometry pipeline of [STLPointCloudHero]
    ([parseSTL], [parseASCIISTL], [parseBinarySTL], [defineShapeBoundary],
    [generatePointsInShape], [createSparsePointCloud]) and of the random
    surface sampler of [hero_render.tsx] ([samplePointsOnSurface]).

    - An [ArrayBuffer] is a list of bytes; a [DataView] read outside the
      buffer throws [RangeError], which is the only exception the decoder
      can raise.
    - JavaScript numbers are kept behind an interface ([JSNumber]); the code
      is written once over it and read on two instances: IEEE binary64
      ([IEEE.number], executable, with rounding, NaN and the infinities) and
      the real numbers ([Exact.number], arithmetic without rounding), on
      which the geometric properties are stated.
    - [Math.random] is an oracle handed to the shuffle. *)

From Stdlib Require Import ZArith List Bool Lia String Ascii.
From Stdlib Require Import Strings.Byte.
From Stdlib Require Import SpecFloat.
From Stdlib Require Import Reals Lra Permutation.
Import ListNotations.

Set Implicit Arguments.

(** ** Exceptions and results *)

(** A thrown JavaScript error, identified by its [name] property. *)
Record exn := { exn_name : string }.

Definition RangeError : exn := {| exn_name := "RangeError" |}.

Inductive result (A : Type) : Type :=
| Ok (a : A)
| Throw (e : exn).

Arguments Ok {A} a.
Arguments Throw {A} e.

Definition bind {A B} (r : result A) (k : A -> result B) : result B :=
  match r with
  | Ok a => k a
  | Throw e => Throw e
  end.

Notation "x <- r ;; k" := (bind r (fun x => k))
  (at level 61, r at next level, right associativity).
Notation "' p <- r ;; k" := (bind r (fun p => k))
  (at level 61, p pattern, r at next level, right associativity).

(** ** Array buffers and [DataView] *)

Definition byte_val (b : byte) : Z := Z.of_N (Byte.to_N b).

(** Little-endian unsigned value of a byte sequence. *)
Fixpoint le_uint (bs : list byte) : Z :=
  match bs with
  | [] => 0
  | b :: bs' => byte_val b + 256 * le_uint bs'
  end.

(** The [n] bytes at offset [off]; a read that leaves the buffer throws. *)
Definition view_bytes (view : list byte) (off n : nat) : result (list byte) :=
  if (off + n <=? List.length view)%nat
  then Ok (firstn n (skipn off view))
  else Throw RangeError.

(** [view.getUint32(off, true)] *)
Definition getUint32 (view : list byte) (off : nat) : result Z :=
  bs <- view_bytes view off 4 ;; Ok (le_uint bs).

(** ** Text *)

(** White space of [String.prototype.trim] and of the regular expression
    class [\s], restricted to the ASCII range. *)
Definition is_ws (c : ascii) : bool :=
  let n := nat_of_ascii c in
  ((9 <=? n) && (n <=? 13))%nat || (n =? 32)%nat.

Definition newline : ascii := ascii_of_nat 10.

(** [data.split('\n')] *)
Fixpoint split_lines (s : string) : list string :=
  match s with
  | EmptyString => [EmptyString]
  | String c s' =>
      if Ascii.eqb c newline then EmptyString :: split_lines s'
      else match split_lines s' with
           | l :: ls => String c l :: ls
           | [] => [String c EmptyString]
           end
  end.

Fixpoint trim_start (s : string) : string :=
  match s with
  | EmptyString => EmptyString
  | String c s' => if is_ws c then trim_start s' else s
  end.

Fixpoint trim_end (s : string) : string :=
  match s with
  | EmptyString => EmptyString
  | String c s' =>
      match trim_end s' with
      | EmptyString => if is_ws c then EmptyString else String c EmptyString
      | t => String c t
      end
  end.

(** [line.trim()] *)
Definition trim (s : string) : string := trim_end (trim_start s).

(** [line.startsWith(p)] *)
Definition startsWith (p s : string) : bool := String.prefix p s.

(** [line.split(/\s+/)]: the pieces between maximal runs of white space.
    [in_sep] records that the previous character belonged to a separator. *)
Fixpoint split_ws_from (in_sep : bool) (s : string) : list string :=
  match s with
  | EmptyString => [EmptyString]
  | String c s' =>
      if is_ws c then
        if in_sep then split_ws_from true s'
        else EmptyString :: split_ws_from true s'
      else match split_ws_from false s' with
           | t :: ts => String c t :: ts
           | [] => [String c EmptyString]
           end
  end.

Definition split_ws (s : string) : list string := split_ws_from false s.

(** [new TextDecoder().decode(buffer)], byte by byte (exact on ASCII text). *)
Definition decode_text (buffer : list byte) : string :=
  string_of_list_ascii (map ascii_of_byte buffer).

Definition bytes_of_string (s : string) : list byte :=
  map byte_of_ascii (list_ascii_of_string s).

(** ** The STL decoder *)

Section Decoder.

(** The JavaScript number type and the three conversions the decoder asks
    of the platform. *)
Variable num : Type.
(** value of a binary32 bit pattern, as read by [DataView.getFloat32] *)
Variable f32_of_bits : Z -> num.
(** element conversion of [new Float32Array(numbers)] *)
Variable toFloat32 : num -> num.
(** [Number(token)] *)
Variable Number : string -> num.

(** [view.getFloat32(off, true)] *)
Definition getFloat32 (view : list byte) (off : nat) : result num :=
  bs <- view_bytes view off 4 ;; Ok (f32_of_bits (le_uint bs)).

(** One line of the ASCII scan: the numbers it pushes onto [vertices]. *)
Definition vertex_line (raw : string) : list num :=
  let line := trim raw in
  if startsWith "vertex" line
  then map Number (tl (split_ws line))
  else [].

Definition parseASCIISTL (data : string) : list num :=
  let vertices := flat_map vertex_line (split_lines data) in
  map toFloat32 vertices.

(** The inner loop [for (j = 0; j < 9; j++)], [k] reads left. *)
Fixpoint read_floats (view : list byte) (offset : nat) (k : nat)
         (vertices : list num) : result (list num * nat) :=
  match k with
  | O => Ok (vertices, offset)
  | S k' =>
      x <- getFloat32 view offset ;;
      read_floats view (offset + 4) k' (vertices ++ [x])
  end.

(** The outer loop [for (i = 0; i < triangles; i++)], [n] records left. *)
Fixpoint read_records (view : list byte) (offset : nat) (n : nat)
         (vertices : list num) : result (list num) :=
  match n with
  | O => Ok vertices
  | S n' =>
      '(vertices', offset') <- read_floats view (offset + 12) 9 vertices ;;
      read_records view (offset' + 2) n' vertices'
  end.

Definition parseBinarySTL (view : list byte) : result (list num) :=
  triangles <- getUint32 view 80 ;;
  vertices <- read_records view 84 (Z.to_nat triangles) [] ;;
  Ok (map toFloat32 vertices).

Definition isASCII (buffer : list byte) : bool :=
  (List.length buffer <? 80)%nat
  || String.eqb (decode_text (firstn 5 buffer)) "solid".

Definition parseSTL (buffer : list byte) : result (list num) :=
  if isASCII buffer
  then Ok (parseASCIISTL (decode_text buffer))
  else parseBinarySTL buffer.

End Decoder.

(** ** Vertex lines

    The shape of an ASCII vertex line, to state what the line scan does
    with it. *)

Fixpoint string_forallb (p : ascii -> bool) (s : string) : bool :=
  match s with
  | EmptyString => true
  | String c s' => p c && string_forallb p s'
  end.

Definition not_ws (c : ascii) : bool := negb (is_ws c).

(** White space that does not end a line. *)
Definition is_blank (c : ascii) : bool :=
  is_ws c && negb (Ascii.eqb c newline).

Definition not_newline (c : ascii) : bool := negb (Ascii.eqb c newline).

(** A character of a token: an ASCII character that is not white space. *)
Definition token_char (c : ascii) : bool :=
  not_ws c && (nat_of_ascii c <? 128)%nat.

(** A token: not empty, made of token characters. *)
Definition is_token (t : string) : Prop :=
  t <> EmptyString /\ string_forallb token_char t = true.

(** A separator: not empty, blanks only. *)
Definition is_separator (s : string) : Prop :=
  s <> EmptyString /\ string_forallb is_blank s = true.

(** The text [t0 sep1 tok1 sep2 tok2 ...]. *)
Fixpoint tokens_text (t0 : string) (rest : list (string * string)) : string :=
  match rest with
  | [] => t0
  | (sep, tok) :: rest' => t0 ++ sep ++ tokens_text tok rest'
  end.

(** A line [vertex], followed by separated tokens. *)
Definition vertex_text (rest : list (string * string)) : string :=
  tokens_text "vertex" rest.

Definition well_separated (rest : list (string * string)) : Prop :=
  Forall (fun st => is_separator (fst st) /\ is_token (snd st)) rest.

Fixpoint ends_non_ws (s : string) : bool :=
  match s with
  | EmptyString => false
  | String c EmptyString => not_ws c
  | String _ s' => ends_non_ws s'
  end.

(** ** The binary STL layout, as the specification words it *)

Definition byte_of_Z (z : Z) : byte :=
  match Byte.of_N (Z.to_N z) with
  | Some b => b
  | None => x00
  end.

(** The [n] little-endian bytes of [z]. *)
Fixpoint le_bytes (n : nat) (z : Z) : list byte :=
  match n with
  | O => []
  | S n' => byte_of_Z (z mod 256) :: le_bytes n' (z / 256)
  end.

Section BinaryLayout.

Variable num : Type.
Variable f32_of_bits : Z -> num.
Variable toFloat32 : num -> num.
(** the binary32 bit pattern a number is written as *)
Variable bits_of_f32 : num -> Z.

(** One 50-byte record: 12 bytes of normal, nine floats, 2 attribute
    bytes. *)
Record stl_record := {
  normal : list byte;
  corners : list num;
  attribute : list byte
}.

Definition encode_float (x : num) : list byte := le_bytes 4 (bits_of_f32 x).

Definition encode_record (r : stl_record) : list byte :=
  normal r ++ flat_map encode_float (corners r) ++ attribute r.

(** Encoder following the layout of the specification: the 80-byte
    header, the triangle count as a little-endian unsigned 32-bit integer,
    then the records. *)
Definition spec_encodeBinarySTL (header : list byte)
           (records : list stl_record) : list byte :=
  header ++ le_bytes 4 (Z.of_nat (List.length records))
         ++ flat_map encode_record records.

(** What a stored number reads back as, before the array conversion. *)
Definition raw (x : num) : num := f32_of_bits (bits_of_f32 x).

(** [x] is written and read back unchanged. *)
Definition storable (x : num) : Prop :=
  (0 <= bits_of_f32 x < 2 ^ 32)%Z
  /\ toFloat32 (f32_of_bits (bits_of_f32 x)) = x.

Definition well_formed (r : stl_record) : Prop :=
  List.length (normal r) = 12%nat
  /\ List.length (corners r) = 9%nat
  /\ List.length (attribute r) = 2%nat
  /\ Forall storable (corners r).

End BinaryLayout.

(** ** JavaScript numbers

    The operations of the [number] type that the analyzer and the sampler
    use.  [a > b] is [nlt b a] and [a >= b] is [nle b a]. *)

Class JSNumber : Type := {
  num : Type;
  (** an integer value: integer literals, array lengths, loop counters *)
  of_Z : Z -> num;
  (** a decimal literal: [dec m k] is the literal [m * 10^-k] *)
  dec : Z -> nat -> num;
  nadd : num -> num -> num;
  nsub : num -> num -> num;
  nmul : num -> num -> num;
  ndiv : num -> num -> num;
  nsqrt : num -> num;
  nfloor : num -> num;
  nceil : num -> num;
  nsin : num -> num;
  ncos : num -> num;
  nmax : num -> num -> num;
  nmin : num -> num -> num;
  nlt : num -> num -> bool;
  nle : num -> num -> bool;
  (** [String(a) === String(b)], the comparison of template-literal keys *)
  same_string : num -> num -> bool;
  (** A bound on the number of iterations of [for (k = 0; k <= x; k++)];
      [None] when the loop never ends. *)
  loop_fuel : num -> option nat;
  (** element conversion of [new Float32Array(numbers)] *)
  to_f32 : num -> num
}.

(** The values [Infinity] and [-Infinity], needed by the bounding-box fold
    only. *)
Class HasInfinity (N : JSNumber) : Type := {
  infinity : num;
  neg_infinity : num
}.

Section Pipeline.

Context {N : JSNumber}.

(** *** Counting loops *)

(** The iterations of [for (k = ...; k <= x; k++)] from the counter [k]
    on: the loop runs while [k <= x] holds; [None] when the condition
    still holds after [fuel] iterations. *)
Fixpoint trips_from (fuel k : nat) (x : num) : option nat :=
  if nle (of_Z (Z.of_nat k)) x then
    match fuel with
    | O => None
    | S fuel' => option_map S (trips_from fuel' (S k) x)
    end
  else Some O.

(** The number of iterations of [for (k = 0; k <= x; k++)]; [None] when
    the loop never ends. *)
Definition loop_count (x : num) : option nat :=
  match loop_fuel x with
  | Some fuel => trips_from fuel 0 x
  | None => None
  end.

(** *** [THREE.Vector3] *)

Record Vector3 := { vx : num; vy : num; vz : num }.

Definition subVectors (a b : Vector3) : Vector3 :=
  {| vx := nsub (vx a) (vx b);
     vy := nsub (vy a) (vy b);
     vz := nsub (vz a) (vz b) |}.

Definition cross (a b : Vector3) : Vector3 :=
  {| vx := nsub (nmul (vy a) (vz b)) (nmul (vz a) (vy b));
     vy := nsub (nmul (vz a) (vx b)) (nmul (vx a) (vz b));
     vz := nsub (nmul (vx a) (vy b)) (nmul (vy a) (vx b)) |}.

Definition vlength (a : Vector3) : num :=
  nsqrt (nadd (nadd (nmul (vx a) (vx a)) (nmul (vy a) (vy a)))
              (nmul (vz a) (vz a))).

Definition addScaledVector (this v : Vector3) (s : num) : Vector3 :=
  {| vx := nadd (vx this) (nmul (vx v) s);
     vy := nadd (vy this) (nmul (vy v) s);
     vz := nadd (vz this) (nmul (vz v) s) |}.

Definition distanceToSquared (this v : Vector3) : num :=
  let dx := nsub (vx this) (vx v) in
  let dy := nsub (vy this) (vy v) in
  let dz := nsub (vz this) (vz v) in
  nadd (nadd (nmul dx dx) (nmul dy dy)) (nmul dz dz).

Definition distanceTo (this v : Vector3) : num :=
  nsqrt (distanceToSquared this v).

(** [new THREE.Vector3()] *)
Definition origin : Vector3 :=
  {| vx := of_Z 0; vy := of_Z 0; vz := of_Z 0 |}.

(** The three coordinates a point contributes to [points]. *)
Definition coords (p : Vector3) : list num := [vx p; vy p; vz p].

(** *** Stage 1: [defineShapeBoundary] *)

Definition Face : Type := (Vector3 * Vector3 * Vector3)%type.

Record BoundingBox := {
  box_min : Vector3;
  box_max : Vector3;
  box_size : Vector3
}.

Record ShapeBoundary := {
  faces : list Face;
  faceAreas : list num;
  totalArea : num;
  boundingBox : BoundingBox;
  objectCenter : Vector3;
  hollowRadius : num
}.

(** [vertices[i]] handed to the [Vector3] constructor: a read past the end
    is [undefined], for which the constructor takes its default [0]. *)
Definition coord (vertices : list num) (i : nat) : num :=
  nth i vertices (of_Z 0).

Definition face_at (vertices : list num) (i : nat) : Face :=
  ({| vx := coord vertices i;
      vy := coord vertices (i + 1);
      vz := coord vertices (i + 2) |},
   {| vx := coord vertices (i + 3);
      vy := coord vertices (i + 4);
      vz := coord vertices (i + 5) |},
   {| vx := coord vertices (i + 6);
      vy := coord vertices (i + 7);
      vz := coord vertices (i + 8) |}).

Definition face_area (f : Face) : num :=
  let '(v1, v2, v3) := f in
  let edge1 := subVectors v2 v1 in
  let edge2 := subVectors v3 v1 in
  nmul (vlength (cross edge1 edge2)) (dec 5 1).

(** The faces visited by [for (i = 0; i < vertices.length; i += 9)]. *)
Definition faces_of (vertices : list num) : list Face :=
  map (fun k => face_at vertices (9 * k))
      (seq 0 ((List.length vertices + 8) / 9)).

Definition face_vertices (f : Face) : list Vector3 :=
  let '(v1, v2, v3) := f in [v1; v2; v3].

Definition grow (b : Vector3 * Vector3) (v : Vector3) : Vector3 * Vector3 :=
  let '(lo, hi) := b in
  ({| vx := nmin (vx lo) (vx v);
      vy := nmin (vy lo) (vy v);
      vz := nmin (vz lo) (vz v) |},
   {| vx := nmax (vx hi) (vx v);
      vy := nmax (vy hi) (vy v);
      vz := nmax (vz hi) (vz v) |}).

Definition defineShapeBoundary {I : HasInfinity N} (vertices : list num)
  : ShapeBoundary :=
  let fs := faces_of vertices in
  let areas := map face_area fs in
  let total := fold_left nadd areas (of_Z 0) in
  let start :=
    ({| vx := infinity; vy := infinity; vz := infinity |},
     {| vx := neg_infinity; vy := neg_infinity; vz := neg_infinity |}) in
  let '(lo, hi) := fold_left grow (flat_map face_vertices fs) start in
  let size := {| vx := nsub (vx hi) (vx lo);
                 vy := nsub (vy hi) (vy lo);
                 vz := nsub (vz hi) (vz lo) |} in
  let center := {| vx := nmul (nadd (vx lo) (vx hi)) (dec 5 1);
                   vy := nmul (nadd (vy lo) (vy hi)) (dec 5 1);
                   vz := nmul (nadd (vz lo) (vz hi)) (dec 5 1) |} in
  let objectSize := nmax (nmax (vx size) (vy size)) (vz size) in
  {| faces := fs;
     faceAreas := areas;
     totalArea := total;
     boundingBox := {| box_min := lo; box_max := hi; box_size := size |};
     objectCenter := center;
     hollowRadius := nmul objectSize (dec 2 1) |}.

(** *** Stage 2: [generatePointsInShape] *)

Section Sampler.

Variable shapeBoundary : ShapeBoundary.
(** The target is a count; where it meets an array length the two are
    compared as integers, and [target] is its value as a number. *)
Variable targetPointCount : nat.
(** [random k] is the index [Math.floor(Math.random() * (i + 1))] drawn
    by the [k]-th iteration of the shuffle, before reduction to [0..i]. *)
Variable random : nat -> nat.

Definition target : num := of_Z (Z.of_nat targetPointCount).

Definition avgSpacing : num :=
  nmul (nsqrt (ndiv (totalArea shapeBoundary) target)) (dec 8 1).

Definition minDistance : num := nmul avgSpacing (dec 7 1).

Definition cellSize : num := minDistance.

(** A key [`${x},${y},${z}`] is kept as the triple it prints; two keys
    are the same string when their components print alike. *)
Definition HashKey : Type := (num * num * num)%type.

Definition key_eqb (k1 k2 : HashKey) : bool :=
  let '(x1, y1, z1) := k1 in
  let '(x2, y2, z2) := k2 in
  same_string x1 x2 && same_string y1 y2 && same_string z1 z2.

Definition cell (c : num) : num := nfloor (ndiv c cellSize).

Definition getHashKey (point : Vector3) : HashKey :=
  (cell (vx point), cell (vy point), cell (vz point)).

(** The [Map<string, Vector3[]>], as the list of its entries. *)
Definition SpatialHash : Type := list (HashKey * list Vector3).

Fixpoint hash_get (key : HashKey) (h : SpatialHash)
  : option (list Vector3) :=
  match h with
  | [] => None
  | (k, ps) :: h' => if key_eqb k key then Some ps else hash_get key h'
  end.

(** [if (!has(key)) set(key, []); get(key).push(point)] *)
Fixpoint hash_push (key : HashKey) (point : Vector3) (h : SpatialHash)
  : SpatialHash :=
  match h with
  | [] => [(key, [point])]
  | (k, ps) :: h' =>
      if key_eqb k key then (k, ps ++ [point]) :: h'
      else (k, ps) :: hash_push key point h'
  end.

Definition addToSpatialHash (point : Vector3) (h : SpatialHash)
  : SpatialHash :=
  hash_push (getHashKey point) point h.

Definition offsets : list Z := [-1; 0; 1]%Z.

Definition neighborKey (newPoint : Vector3) (dx dy dz : Z) : HashKey :=
  (nadd (cell (vx newPoint)) (of_Z dx),
   nadd (cell (vy newPoint)) (of_Z dy),
   nadd (cell (vz newPoint)) (of_Z dz)).

Definition far_enough (newPoint neighbor : Vector3) : bool :=
  negb (nlt (distanceTo newPoint neighbor) minDistance).

Definition isValidDistance (h : SpatialHash) (newPoint : Vector3) : bool :=
  forallb (fun dx =>
    forallb (fun dy =>
      forallb (fun dz =>
        match hash_get (neighborKey newPoint dx dy dz) h with
        | Some neighbors => forallb (far_enough newPoint) neighbors
        | None => true
        end) offsets) offsets) offsets.

Definition isPointInValidRegion (point : Vector3) : bool :=
  let distanceFromCenter := distanceTo point (objectCenter shapeBoundary) in
  nlt (hollowRadius shapeBoundary) distanceFromCenter.

(** **** Candidate generation *)

Record Candidate := { point : Vector3; faceIndex : nat }.

Definition faceSamples (area : num) : num :=
  nmax (of_Z 1)
       (nfloor (nmul (nmul (ndiv area (totalArea shapeBoundary)) target)
                     (of_Z 3))).

Definition samplesPerEdge (area : num) : num :=
  nceil (nsqrt (faceSamples area)).

Definition bary_u (spe : num) (i : nat) : num :=
  ndiv (of_Z (Z.of_nat i)) spe.

Definition bary_w (spe : num) (i j : nat) : num :=
  nsub (nsub (of_Z 1) (bary_u spe i)) (bary_u spe j).

Definition bary_point (f : Face) (u v w : num) : Vector3 :=
  let '(v1, v2, v3) := f in
  addScaledVector (addScaledVector (addScaledVector origin v1 u) v2 v) v3 w.

(** The body of the inner loop for the grid node [(i, j)]. *)
Definition grid_node (f : Face) (idx : nat) (spe : num) (i j : nat)
           (cands : list Candidate) : list Candidate :=
  let u := bary_u spe i in
  let v := bary_u spe j in
  let w := bary_w spe i j in
  if nle (of_Z 0) w
  then cands ++ [{| point := bary_point f u v w; faceIndex := idx |}]
  else cands.

(** The inner loop over [js]; it is left once [5 * targetPointCount]
    candidates exist. *)
Fixpoint grid_row (f : Face) (idx : nat) (spe : num) (i : nat)
         (js : list nat) (cands : list Candidate) : list Candidate :=
  match js with
  | [] => cands
  | j :: js' =>
      if (targetPointCount * 5 <=? List.length cands)%nat then cands
      else grid_row f idx spe i js' (grid_node f idx spe i j cands)
  end.

Fixpoint grid_rows (f : Face) (idx : nat) (spe : num) (rows : list nat)
         (cands : list Candidate) : option (list Candidate) :=
  match rows with
  | [] => Some cands
  | i :: rows' =>
      match loop_count (nsub spe (of_Z (Z.of_nat i))) with
      | Some nj =>
          grid_rows f idx spe rows' (grid_row f idx spe i (seq 0 nj) cands)
      | None => None
      end
  end.

(** The callback of [faces.forEach]. *)
Definition sample_face (f : Face) (idx : nat) (area : num)
           (cands : list Candidate) : option (list Candidate) :=
  let spe := samplesPerEdge area in
  match loop_count spe with
  | Some ni => grid_rows f idx spe (seq 0 ni) cands
  | None => None
  end.

(** [faces.forEach]: a face whose index has no entry in [faceAreas] has
    an [undefined] area and yields no candidate, which is what pairing
    the two arrays gives. *)
Fixpoint sample_faces (fs : list (Face * num)) (idx : nat)
         (cands : list Candidate) : option (list Candidate) :=
  match fs with
  | [] => Some cands
  | (f, area) :: fs' =>
      match sample_face f idx area cands with
      | Some cands' => sample_faces fs' (S idx) cands'
      | None => None
      end
  end.

Definition candidatePoints : option (list Candidate) :=
  sample_faces (combine (faces shapeBoundary) (faceAreas shapeBoundary))
               0 [].

(** **** The shuffle *)

Fixpoint set_nth {A} (i : nat) (a : A) (l : list A) : list A :=
  match l, i with
  | [], _ => []
  | _ :: l', O => a :: l'
  | b :: l', S i' => b :: set_nth i' a l'
  end.

(** [[l[i], l[j]] = [l[j], l[i]]] *)
Definition swap {A} (i j : nat) (l : list A) : list A :=
  match nth_error l i, nth_error l j with
  | Some a, Some b => set_nth j a (set_nth i b l)
  | _, _ => l
  end.

(** [for (i = ...; i > 0; i--)], entered with [i] and on its [k]-th draw. *)
Fixpoint shuffle_from {A} (i k : nat) (l : list A) : list A :=
  match i with
  | O => l
  | S i' => shuffle_from i' (S k) (swap i (random k mod (i + 1)) l)
  end.

Definition shuffle {A} (l : list A) : list A :=
  shuffle_from (List.length l - 1) 0 l.

(** **** Filtered acceptance *)

Record Selection := {
  selectedPoints : list Vector3;
  spatialHash : SpatialHash;
  points : list num;
  colors : list num
}.

Definition empty_selection : Selection :=
  {| selectedPoints := []; spatialHash := []; points := []; colors := [] |}.

Definition heightFactor (p : Vector3) : num :=
  let box := boundingBox shapeBoundary in
  ndiv (nsub (vy p) (vy (box_min box))) (vy (box_size box)).

Definition intensity (p : Vector3) : num :=
  let baseIntensity := nadd (dec 6 1) (nmul (heightFactor p) (dec 4 1)) in
  let positionVariation :=
    nmul (nadd (nsin (nmul (vx p) (of_Z 10)))
               (ncos (nmul (vz p) (of_Z 10))))
         (dec 1 1) in
  nmax (dec 3 1) (nmin (of_Z 1) (nadd baseIntensity positionVariation)).

Definition color (p : Vector3) : list num :=
  let i := intensity p in
  [nmul i (dec 9 1); nmul i (of_Z 1); nmul i (dec 12 1)].

Definition accept (p : Vector3) (st : Selection) : Selection :=
  {| selectedPoints := selectedPoints st ++ [p];
     spatialHash := addToSpatialHash p (spatialHash st);
     points := points st ++ [vx p; vy p; vz p];
     colors := colors st ++ color p |}.

Fixpoint select (cands : list Candidate) (st : Selection) : Selection :=
  match cands with
  | [] => st
  | candidate :: rest =>
      if (targetPointCount <=? List.length (selectedPoints st))%nat then st
      else if isPointInValidRegion (point candidate)
              && isValidDistance (spatialHash st) (point candidate)
           then select rest (accept (point candidate) st)
           else select rest st
  end.

(** The state at the end of the acceptance loop; [None] when candidate
    generation does not terminate. *)
Definition selection : option Selection :=
  match candidatePoints with
  | Some cands => Some (select (shuffle cands) empty_selection)
  | None => None
  end.

Record PointCloud := { out_points : list num; out_colors : list num }.

Definition generatePointsInShape : option PointCloud :=
  match selection with
  | Some st => Some {| out_points := map to_f32 (points st);
                       out_colors := map to_f32 (colors st) |}
  | None => None
  end.

End Sampler.

Definition createSparsePointCloud {I : HasInfinity N} (vertices : list num)
           (targetPointCount : nat) (random : nat -> nat)
  : option PointCloud :=
  let shapeBoundary := defineShapeBoundary vertices in
  generatePointsInShape shapeBoundary targetPointCount random.

End Pipeline.

(** ** The random surface sampler [samplePointsOnSurface] *)

Section SurfaceSampler.

Context {N : JSNumber}.

(** [Math_random k] is the value of the [k]-th call of [Math.random()]. *)
Variable Math_random : nat -> num.
(** The number of samples per triangle: a count, 15 unless the caller
    gives another. *)
Variable samplesPerTriangle : nat.

(** The body of the inner loop for the draws [r1] and [r2]. *)
Definition random_point (f : Face) (r1 r2 : num) : Vector3 :=
  let sqrt_r1 := nsqrt r1 in
  let u := nsub (of_Z 1) sqrt_r1 in
  let v := nmul r2 sqrt_r1 in
  let w := nsub (nsub (of_Z 1) u) v in
  bary_point f u v w.

(** [for (j = 0; j < samplesPerTriangle; j++)], with [n] samples left and
    [k] draws made. *)
Fixpoint sample_triangle (f : Face) (n k : nat) (points : list num)
  : list num * nat :=
  match n with
  | O => (points, k)
  | S n' =>
      let p := random_point f (Math_random k) (Math_random (S k)) in
      sample_triangle f n' (S (S k)) (points ++ coords p)
  end.

(** The outer loop over the triangles. *)
Fixpoint sample_triangles (fs : list Face) (k : nat) (points : list num)
  : list num :=
  match fs with
  | [] => points
  | f :: fs' =>
      let '(points', k') := sample_triangle f samplesPerTriangle k points in
      sample_triangles fs' k' points'
  end.

Definition samplePointsOnSurface (vertices : list num) : list num :=
  map to_f32 (sample_triangles (faces_of vertices) 0 []).

End SurfaceSampler.

(** The nine coordinates of a face, in the order of the vertex array. *)
Definition face_coords {N : JSNumber} (f : Face) : list num :=
  flat_map coords (face_vertices f).

(** The points filed under [key]; none when the key is missing. *)
Definition bucket {N : JSNumber} (key : HashKey) (h : SpatialHash)
  : list Vector3 :=
  match hash_get key h with
  | Some ps => ps
  | None => []
  end.

(** ** IEEE binary64: the numbers of a JavaScript engine

    [spec_float] values in canonical binary64 form, with the correctly
    rounded operations of the standard library's specification of IEEE 754.
    [Math.sin] and [Math.cos] are implementation-approximated; the values
    the language fixes (at zeros, infinities and NaN) are built in and the
    rest is left to [sin_impl] and [cos_impl]. *)

Module IEEE.

Local Open Scope Z_scope.

Definition prec : Z := 53.
Definition emax : Z := 1024.

Definition of_Z (z : Z) : spec_float := binary_normalize prec emax z 0 false.

Definition dec (m : Z) (k : nat) : spec_float :=
  SFdiv prec emax (of_Z m) (of_Z (10 ^ Z.of_nat k)).

Definition nan : spec_float := S754_nan.

(** [Math.floor] *)
Definition floor (x : spec_float) : spec_float :=
  match x with
  | S754_finite s m e =>
      if (0 <=? e)%Z then x
      else binary_normalize prec emax
             (cond_Zopp s (Zpos m) / 2 ^ (- e))%Z 0 false
  | _ => x
  end.

(** [Math.ceil]; a negative fraction above [-1] gives [-0]. *)
Definition ceil (x : spec_float) : spec_float :=
  match x with
  | S754_finite s m e =>
      if (0 <=? e)%Z then x
      else binary_normalize prec emax
             (- (cond_Zopp (negb s) (Zpos m) / 2 ^ (- e)))%Z 0 s
  | _ => x
  end.

(** [Math.max]: NaN if an argument is NaN, and [+0] above [-0]. *)
Definition max (a b : spec_float) : spec_float :=
  match SFcompare a b with
  | None => S754_nan
  | Some Gt => a
  | Some Lt => b
  | Some Eq => match a with S754_zero true => b | _ => a end
  end.

(** [Math.min]: NaN if an argument is NaN, and [-0] below [+0]. *)
Definition min (a b : spec_float) : spec_float :=
  match SFcompare a b with
  | None => S754_nan
  | Some Lt => a
  | Some Gt => b
  | Some Eq => match a with S754_zero true => a | _ => b end
  end.

(** Number-to-string conversion is injective on numbers up to the sign of
    zero, and prints every NaN alike. *)
Definition same_string (a b : spec_float) : bool :=
  match a, b with
  | S754_nan, S754_nan => true
  | S754_zero _, S754_zero _ => true
  | S754_infinity s1, S754_infinity s2 => Bool.eqb s1 s2
  | S754_finite s1 m1 e1, S754_finite s2 m2 e2 =>
      Bool.eqb s1 s2 && Pos.eqb m1 m2 && Z.eqb e1 e2
  | _, _ => false
  end.

(** The largest integer below a positive finite number. *)
Definition trunc_pos (m : positive) (e : Z) : Z :=
  if (0 <=? e)%Z then Zpos m * 2 ^ e else Zpos m / 2 ^ (- e).

(** [for (k = 0; k <= x; k++)] runs for [k = 0 .. floor x]; from [2^53]
    on, [k++] no longer changes [k] and the loop never ends. *)
Definition loop_fuel (x : spec_float) : option nat :=
  match x with
  | S754_nan => Some O
  | S754_zero _ => Some 1%nat
  | S754_infinity true => Some O
  | S754_infinity false => None
  | S754_finite true _ _ => Some O
  | S754_finite false m e =>
      if SFleb (of_Z (2 ^ 53)) x then None
      else Some (Z.to_nat (trunc_pos m e) + 1)%nat
  end.

(** The binary64 form of the number [m * 2^e], given in binary32 form:
    the mantissa is shifted up to 53 digits. *)
Definition widen (s : bool) (m : positive) (e : Z) : spec_float :=
  let k := 53 - Zpos (digits2_pos m) in
  S754_finite s (Pos.shiftl m (Z.to_N k)) (e - k).

(** Rounding to binary32, the result kept as a binary64 number. *)
Definition to_f32 (x : spec_float) : spec_float :=
  match x with
  | S754_finite s m e =>
      match binary_round 24 128 s m e with
      | S754_finite s' m' e' => widen s' m' e'
      | y => y
      end
  | _ => x
  end.

(** The number with sign [s], biased exponent [ex] and mantissa field
    [mant]. *)
Definition f32_value (s : bool) (ex mant : Z) : spec_float :=
  if ex =? 255 then
    if mant =? 0 then S754_infinity s else S754_nan
  else if ex =? 0 then
    match mant with
    | Zpos m => widen s m (-149)
    | _ => S754_zero s
    end
  else widen s (Z.to_pos (mant + 2 ^ 23)) (ex - 150).

(** The number denoted by a binary32 bit pattern. *)
Definition f32_of_bits (b : Z) : spec_float :=
  f32_value (Z.testbit b 31) ((b / 2 ^ 23) mod 256) (b mod 2 ^ 23).

Definition sign_bit (s : bool) : Z := if s then 2 ^ 31 else 0.

(** The bit pattern of a number in binary32 form. *)
Definition f32_pack (x : spec_float) : Z :=
  match x with
  | S754_nan => 2143289344
  | S754_zero s => sign_bit s
  | S754_infinity s => sign_bit s + 2139095040
  | S754_finite s m e =>
      if Zpos (digits2_pos m) =? 24
      then sign_bit s + (e + 150) * 2 ^ 23 + (Zpos m - 2 ^ 23)
      else sign_bit s + Zpos m
  end.

(** The binary32 bit pattern a number is stored as. *)
Definition bits_of_f32 (x : spec_float) : Z :=
  match x with
  | S754_finite s m e => f32_pack (binary_round 24 128 s m e)
  | _ => f32_pack x
  end.

(** The numbers a [Float32Array] can hold. *)
Definition is_f32 (x : spec_float) : Prop :=
  exists b : Z, 0 <= b < 2 ^ 32 /\ x = f32_of_bits b.

(** [Number] on decimal integer literals, with an optional sign; the
    empty string is [0].  Fractions, exponents, radix prefixes and
    [Infinity] are not covered and come out as NaN, which is not what
    JavaScript does with them: the examples below use integer tokens. *)
Fixpoint digits_value (s : string) (acc : Z) : option Z :=
  match s with
  | EmptyString => Some acc
  | String c s' =>
      let n := Z.of_nat (nat_of_ascii c) in
      if (48 <=? n) && (n <=? 57)
      then digits_value s' (10 * acc + (n - 48))
      else None
  end.

Definition unsigned_Number (s : string) : spec_float :=
  match s with
  | EmptyString => S754_nan
  | _ => match digits_value s 0 with
         | Some z => of_Z z
         | None => S754_nan
         end
  end.

Definition Number (s : string) : spec_float :=
  match s with
  | EmptyString => S754_zero false
  | String c s' =>
      if Ascii.eqb c "-" then SFopp (unsigned_Number s')
      else if Ascii.eqb c "+" then unsigned_Number s'
      else unsigned_Number s
  end.

Section Trig.

Variable sin_impl cos_impl : spec_float -> spec_float.

(** [Math.sin] *)
Definition sin (x : spec_float) : spec_float :=
  match x with
  | S754_zero _ => x
  | S754_finite _ _ _ => sin_impl x
  | _ => S754_nan
  end.

(** [Math.cos] *)
Definition cos (x : spec_float) : spec_float :=
  match x with
  | S754_zero _ => of_Z 1
  | S754_finite _ _ _ => cos_impl x
  | _ => S754_nan
  end.

Definition number : JSNumber :=
  Build_JSNumber of_Z dec
    (SFadd prec emax) (SFsub prec emax) (SFmul prec emax) (SFdiv prec emax)
    (SFsqrt prec emax) floor ceil sin cos max min SFltb SFleb
    same_string loop_fuel to_f32.

Definition number_inf : HasInfinity number :=
  @Build_HasInfinity number (S754_infinity false) (S754_infinity true).

End Trig.

End IEEE.

(** ** Exact arithmetic: the real numbers

    The same operations without rounding, overflow or NaN.  Division is the
    total division of [R]; the theorems stated on this instance keep away
    from zero divisors wherever the quotient matters. *)

Module Exact.

Local Open Scope R_scope.

Definition floor (x : R) : R := IZR (up x - 1).

Definition ceil (x : R) : R := - floor (- x).

Definition ltb (a b : R) : bool := if Rlt_dec a b then true else false.

Definition leb (a b : R) : bool := if Rle_dec a b then true else false.

Definition eqb (a b : R) : bool := if Req_dec_T a b then true else false.

Definition dec (m : Z) (k : nat) : R := IZR m / IZR (10 ^ Z.of_nat k).

(** [for (k = 0; k <= x; k++)] runs for [k = 0 .. floor x]. *)
Definition loop_fuel (x : R) : option nat :=
  Some (if Rle_dec 0 x then Z.to_nat (up x - 1) + 1 else 0)%nat.

Definition number : JSNumber :=
  Build_JSNumber IZR dec Rplus Rminus Rmult Rdiv sqrt floor ceil sin cos
    Rmax Rmin ltb leb eqb loop_fuel (fun x => x).

End Exact.

(** ** Vocabulary of the statements in exact arithmetic *)

(** The Euclidean distance. *)
Definition dist (p q : @Vector3 Exact.number) : R :=
  sqrt ((vx p - vx q) * (vx p - vx q) + (vy p - vy q) * (vy p - vy q)
        + (vz p - vz q) * (vz p - vz q)).

(** Each selected point is filed in the hash under its own key. *)
Definition filed (shapeBoundary : @ShapeBoundary Exact.number)
           (targetPointCount : nat) (st : @Selection Exact.number) : Prop :=
  forall p, In p (selectedPoints st) ->
    exists ps,
      hash_get (getHashKey shapeBoundary targetPointCount p) (spatialHash st)
      = Some ps
      /\ In p ps.

(** The points of [l] are pairwise at least the minimum distance apart. *)
Definition spaced (shapeBoundary : @ShapeBoundary Exact.number)
           (targetPointCount : nat) (l : list (@Vector3 Exact.number)) : Prop :=
  forall i j p q,
    (i < j)%nat -> nth_error l i = Some p -> nth_error l j = Some q ->
    (minDistance shapeBoundary targetPointCount <= dist p q)%R.

(** [p] is a convex combination of the vertices of [f]. *)
Definition on_face (f : @Face Exact.number) (p : @Vector3 Exact.number)
  : Prop :=
  let '(v1, v2, v3) := f in
  exists u v w : R,
    (0 <= u /\ 0 <= v /\ 0 <= w /\ u + v + w = 1
     /\ vx p = u * vx v1 + v * vx v2 + w * vx v3
     /\ vy p = u * vy v1 + v * vy v2 + w * vy v3
     /\ vz p = u * vz v1 + v * vz v2 + w * vz v3)%R.

Definition on_surface (shapeBoundary : @ShapeBoundary Exact.number)
           (p : @Vector3 Exact.number) : Prop :=
  exists f, In f (faces shapeBoundary) /\ on_face f p.

Definition all_on_surface (shapeBoundary : @ShapeBoundary Exact.number)
           (cands : list (@Candidate Exact.number)) : Prop :=
  Forall (fun c => on_surface shapeBoundary (point c)) cands.

(** The color of intensity [i]. *)
Definition rgb (i : R) : list R := [i * (9 / 10); i * 1; i * (12 / 10)]%R.

(** A record of the binary layout whose coordinates are 32-bit floats. *)
Definition f32_record (r : stl_record spec_float) : Prop :=
  List.length (normal r) = 12%nat
  /\ List.length (corners r) = 9%nat
  /\ List.length (attribute r) = 2%nat
  /\ Forall IEEE.is_f32 (corners r).

(** ** Meshes and buffers of the examples *)

(** A [Math.sin] and [Math.cos] by first-order approximation, to run the
    IEEE instance on closed examples. *)
Definition first_order_sin (x : spec_float) : spec_float := x.

Definition first_order_cos (x : spec_float) : spec_float := IEEE.of_Z 1.

Definition ieee : JSNumber := IEEE.number first_order_sin first_order_cos.

Definition ieee_inf : HasInfinity ieee :=
  IEEE.number_inf first_order_sin first_order_cos.

Definition ieee_vec (x y z : Z) : @Vector3 ieee :=
  @Build_Vector3 ieee (IEEE.of_Z x) (IEEE.of_Z y) (IEEE.of_Z z).

(** A triangle lying in the plane [y = 0]. *)
Definition flat_triangle : list spec_float :=
  map IEEE.of_Z [0; 0; 0;  1; 0; 0;  0; 0; 1]%Z.

(** A triangle with one vertex on the y axis, at the top of its box. *)
Definition peak_triangle : list spec_float :=
  map IEEE.of_Z [1; 0; 0;  0; 0; 1;  0; 1; 0]%Z.

(** The draws [4, 3, 2, 1] leave five candidates in place. *)
Definition keep_order (k : nat) : nat := (4 - k)%nat.

Section ExampleRuns.

Variable sin_impl cos_impl : spec_float -> spec_float.

Definition flat_boundary : @ShapeBoundary (IEEE.number sin_impl cos_impl) :=
  Eval vm_compute in
    defineShapeBoundary (N := IEEE.number sin_impl cos_impl)
      (I := IEEE.number_inf sin_impl cos_impl) flat_triangle.

Definition flat_candidates
  : list (@Candidate (IEEE.number sin_impl cos_impl)) :=
  Eval vm_compute in
    match candidatePoints flat_boundary 1 with
    | Some cands => cands
    | None => []
    end.

Definition peak_selection : @Selection (IEEE.number sin_impl cos_impl) :=
  Eval vm_compute in
    match selection
            (defineShapeBoundary (N := IEEE.number sin_impl cos_impl)
               (I := IEEE.number_inf sin_impl cos_impl) peak_triangle)
            1 keep_order with
    | Some st => st
    | None => empty_selection
    end.

Definition peak_cloud : @PointCloud (IEEE.number sin_impl cos_impl) :=
  Eval vm_compute in
    {| out_points := map to_f32 (points peak_selection);
       out_colors := map to_f32 (colors peak_selection) |}.

End ExampleRuns.

(** The blue component [1.2], as a 32-bit float. *)
Definition peak_blue : spec_float := S754_finite false 5404319767592960 (-52).

(** The right triangle with legs of length one in the plane [z = 0], with
    its boundary data written out. *)
Definition exact_vec (x y z : R) : @Vector3 Exact.number :=
  @Build_Vector3 Exact.number x y z.

Definition unit_triangle : @ShapeBoundary Exact.number :=
  @Build_ShapeBoundary Exact.number
    [(exact_vec 0 0 0, exact_vec 1 0 0, exact_vec 0 1 0)]
    [(1 / 2)%R]
    (1 / 2)%R
    (@Build_BoundingBox Exact.number
       (exact_vec 0 0 0) (exact_vec 1 1 0) (exact_vec 1 1 0))
    (exact_vec (1 / 2) (1 / 2) 0)
    (1 / 5)%R.

(** An 80-byte header of zeros. *)
Definition zero_header : list byte := repeat x00 80.

(** A binary buffer that declares one triangle and stops after the header
    and the count. *)
Definition count_only_buffer : list byte := zero_header ++ le_bytes 4 1.

(** A binary buffer that declares one triangle and holds its normal and
    its nine floats, but not the two attribute bytes: 132 bytes where the
    declared layout takes 134. *)
Definition short_record_buffer : list byte :=
  zero_header ++ le_bytes 4 1 ++ repeat x00 48.

(** One record: the triangle (0,0,0), (1,0,0), (0,1,0). *)
Definition sample_record : stl_record spec_float :=
  {| normal := repeat x00 12;
     corners := map IEEE.of_Z [0; 0; 0;  1; 0; 0;  0; 1; 0]%Z;
     attribute := repeat x00 2 |}.

(** A vertex line with two numbers only. *)
Definition two_tokens : list (string * string) :=
  [(" ", "1"); (" ", "2")]%string.

(** *** Binary buffers, as the decoder walks them

    A record of bit patterns: 12 bytes that are skipped, the nine 32-bit
    words of the vertex block, and 2 bytes that are skipped. *)
Definition word_record (r : stl_record Z) : Prop :=
  List.length (normal r) = 12%nat
  /\ List.length (corners r) = 9%nat
  /\ List.length (attribute r) = 2%nat
  /\ Forall (fun w => 0 <= w < 2 ^ 32)%Z (corners r).

Definition record_bytes (r : stl_record Z) : list byte :=
  normal r ++ flat_map (le_bytes 4) (corners r) ++ attribute r.

(** The header, the count read at offset 80 and the records read from
    offset 84 on. *)
Definition words_buffer (header : list byte) (records : list (stl_record Z))
  : list byte :=
  header ++ le_bytes 4 (Z.of_nat (List.length records))
         ++ flat_map record_bytes records.

(** ** More meshes and buffers for the examples

    Two small triangles at the origin, listed first, and a large one that
    sets the bounding box: with a target of one point the five candidates
    all come from the small triangles, inside the hollow region. *)
Definition hollow_mesh : list spec_float :=
  map IEEE.of_Z [0; 0; 0;  1; 0; 0;  0; 1; 0;
                 0; 0; 0;  0; 1; 0;  0; 0; 1;
                 -10; -10; 0;  10; -10; 0;  0; 10; 0]%Z.

Definition hollow_boundary : @ShapeBoundary ieee :=
  Eval vm_compute in
    defineShapeBoundary (N := ieee) (I := ieee_inf) hollow_mesh.

Definition hollow_candidates : list (@Candidate ieee) :=
  Eval vm_compute in
    match candidatePoints hollow_boundary 1 with
    | Some cands => cands
    | None => []
    end.

(** A triangle whose first coordinate is NaN. *)
Definition nan_triangle : list spec_float :=
  S754_nan :: map IEEE.of_Z [0; 0;  1; 0; 0;  0; 1; 0]%Z.

(** One record of bit patterns: the triangle (0,0,0), (1,0,0), (0,1,0),
    with [1065353216] the pattern of [1]. *)
Definition word_sample : stl_record Z :=
  {| normal := repeat x01 12;
     corners := [0; 0; 0;  1065353216; 0; 0;  0; 1065353216; 0]%Z;
     attribute := repeat x01 2 |}.

(** A vertex line with three numbers. *)
Definition three_tokens : list (string * string) :=
  [(" ", "1"); (" ", "2"); (" ", "3")]%string.

(** The carriage return that a CRLF line ending leaves at the end of a
    line. *)
Definition carriage_return : string := String (ascii_of_nat 13) EmptyString.

(** The vertex array of the unit right triangle, in exact arithmetic. *)
Definition unit_vertices : list R := [0; 0; 0;  1; 0; 0;  0; 1; 0]%R.

(** ** ASCII files, line by line

    A line of an ASCII file: a vertex line with the blanks around it, or
    a line that does not begin with [vertex]. *)
Inductive ascii_line : Type :=
| vertex_row (pre : string) (rest : list (string * string)) (post : string)
| other_row (text : string).

Definition row_text (l : ascii_line) : string :=
  match l with
  | vertex_row pre rest post => pre ++ vertex_text rest ++ post
  | other_row text => text
  end.

(** The tokens behind [vertex]. *)
Definition row_tokens (l : ascii_line) : list string :=
  match l with
  | vertex_row _ rest _ => map snd rest
  | other_row _ => []
  end.

Definition well_formed_row (l : ascii_line) : Prop :=
  match l with
  | vertex_row pre rest post =>
      string_forallb is_blank pre = true
      /\ string_forallb is_blank post = true
      /\ well_separated rest
  | other_row text =>
      string_forallb not_newline text = true
      /\ startsWith "vertex" (trim text) = false
  end.

(** The lines of a text, joined by line feeds. *)
Fixpoint join_lines (ls : list string) : string :=
  match ls with
  | [] => EmptyString
  | [l] => l
  | l :: ls' => l ++ String newline (join_lines ls')
  end.

(** One facet, as exporters write it, with CRLF line endings. *)
Definition facet_rows : list ascii_line :=
  [other_row ("solid part" ++ carriage_return);
   other_row (" facet normal 0 0 1" ++ carriage_return);
   other_row ("  outer loop" ++ carriage_return);
   vertex_row "   " [(" ", "0"); (" ", "0"); (" ", "0")] carriage_return;
   vertex_row "   " [(" ", "1"); (" ", "0"); (" ", "0")] carriage_return;
   vertex_row "   " [(" ", "0"); (" ", "1"); (" ", "0")] carriage_return;
   other_row ("  endloop" ++ carriage_return);
   other_row (" endfacet" ++ carriage_return);
   other_row "endsolid part"]%string.

(** * The binary decoder *)

Section DecoderFacts.

Variable num : Type.
Variable f32_of_bits : Z -> num.
Variable toFloat32 : num -> num.
Variable Number : string -> num.

Lemma view_bytes_inside (view : list byte) (off n : nat) :
  (off + n <= List.length view)%nat ->
  view_bytes view off n = Ok (firstn n (skipn off view)).
Proof.
  intros H. unfold view_bytes.
  destruct (off + n <=? List.length view)%nat eqn:E; [reflexivity|].
  apply Nat.leb_gt in E. lia.
Qed.

Lemma view_bytes_outside (view : list byte) (off n : nat) :
  (List.length view < off + n)%nat ->
  view_bytes view off n = Throw RangeError.
Proof.
  intros H. unfold view_bytes.
  destruct (off + n <=? List.length view)%nat eqn:E; [|reflexivity].
  apply Nat.leb_le in E. lia.
Qed.

(** Reading [k] floats succeeds exactly when they all lie in the buffer. *)
Lemma read_floats_inside (view : list byte) (k off : nat) (acc : list num) :
  (off + 4 * k <= List.length view)%nat ->
  exists xs,
    read_floats f32_of_bits view off k acc = Ok (acc ++ xs, off + 4 * k)%nat
    /\ List.length xs = k.
Proof.
  revert off acc. induction k as [|k IH]; intros off acc Hin;
    cbn [read_floats].
  - exists []. rewrite app_nil_r, Nat.mul_0_r, Nat.add_0_r. split; reflexivity.
  - unfold getFloat32. rewrite view_bytes_inside by lia. cbn [bind].
    destruct (IH (off + 4)%nat
                 (acc ++ [f32_of_bits (le_uint (firstn 4 (skipn off view)))]))
      as (xs & Hxs & Hlen); [lia|].
    rewrite Hxs.
    exists (f32_of_bits (le_uint (firstn 4 (skipn off view))) :: xs).
    rewrite <- app_assoc. simpl. split; [|lia].
    f_equal. f_equal. lia.
Qed.

Lemma read_floats_outside (view : list byte) (k off : nat) (acc : list num) :
  (1 <= k)%nat ->
  (List.length view < off + 4 * k)%nat ->
  read_floats f32_of_bits view off k acc = Throw RangeError.
Proof.
  revert off acc. induction k as [|k IH]; intros off acc Hk Hout;
    cbn [read_floats]; [lia|].
  unfold getFloat32.
  destruct (Nat.le_gt_cases (off + 4) (List.length view)) as [Hin|Hcut].
  - rewrite view_bytes_inside by lia. cbn [bind]. apply IH; lia.
  - rewrite view_bytes_outside by lia. reflexivity.
Qed.

(** The records are read through when the last float of the last record
    lies in the buffer; the two attribute bytes after it are never read. *)
Lemma read_records_inside (view : list byte) (n off : nat) (acc : list num) :
  (off + 50 * n - 2 <= List.length view)%nat \/ n = O ->
  exists xs,
    read_records f32_of_bits view off n acc = Ok (acc ++ xs)
    /\ List.length xs = (9 * n)%nat.
Proof.
  revert off acc. induction n as [|n IH]; intros off acc Hin.
  - exists []. simpl. rewrite app_nil_r. split; reflexivity.
  - cbn [read_records].
    destruct (read_floats_inside view 9 (off + 12) acc) as (xs & Hxs & Hlen);
      [lia|].
    rewrite Hxs. cbn [bind].
    destruct (IH (off + 12 + 4 * 9 + 2)%nat (acc ++ xs)) as (ys & Hys & Hlen').
    { destruct n; [right; reflexivity | left; lia]. }
    rewrite Hys. exists (xs ++ ys). rewrite app_assoc. split; [reflexivity|].
    rewrite length_app. lia.
Qed.

Lemma read_records_outside (view : list byte) (n off : nat) (acc : list num) :
  (1 <= n)%nat ->
  (List.length view < off + 50 * n - 2)%nat ->
  read_records f32_of_bits view off n acc = Throw RangeError.
Proof.
  revert off acc. induction n as [|n IH]; intros off acc Hn Hout; [lia|].
  cbn [read_records].
  destruct (Nat.le_gt_cases (off + 12 + 4 * 9) (List.length view)) as [Hin|Hcut].
  - destruct (read_floats_inside view 9 (off + 12) acc Hin) as (xs & Hxs & _).
    rewrite Hxs. cbn [bind]. apply IH; lia.
  - rewrite read_floats_outside by lia. reflexivity.
Qed.

End DecoderFacts.

(** C1, amended.  A binary-mode buffer whose count field declares [n]
    triangles is decoded without any prior length check.  When the vertex
    data is cut short (the buffer ends before the last float of the last
    record, at offset [84 + 50 n - 2]) decoding fails with the [RangeError]
    of the out-of-range [DataView] read and returns no array; otherwise it
    returns [9 n] numbers, also when the two attribute bytes of the last
    record are missing. *)
Theorem truncated_binary (num : Type) (f32_of_bits : Z -> num)
        (toFloat32 : num -> num) (Number : string -> num)
        (buffer : list byte) (triangles : Z) :
  isASCII buffer = false ->
  getUint32 buffer 80 = Ok triangles ->
  let n := Z.to_nat triangles in
  ((List.length buffer < 84 + 50 * n - 2)%nat ->
   parseSTL f32_of_bits toFloat32 Number buffer = Throw RangeError)
  /\ ((84 + 50 * n - 2 <= List.length buffer)%nat ->
      exists vertices,
        parseSTL f32_of_bits toFloat32 Number buffer = Ok vertices
        /\ List.length vertices = (9 * n)%nat).
Proof.
  intros Hbinary Hcount n. unfold parseSTL, parseBinarySTL.
  rewrite Hbinary, Hcount. cbn [bind]. fold n.
  assert (Hlen : (84 <= List.length buffer)%nat).
  { unfold getUint32, view_bytes in Hcount.
    destruct (80 + 4 <=? List.length buffer)%nat eqn:E; [|discriminate].
    apply Nat.leb_le in E. lia. }
  split.
  - intros Hcut.
    rewrite read_records_outside by lia. reflexivity.
  - intros Hin.
    destruct (@read_records_inside _ f32_of_bits buffer n 84 [])
      as (xs & Hxs & Hl).
    { left. lia. }
    rewrite Hxs. cbn [bind]. eexists; split; [reflexivity|].
    rewrite length_map. exact Hl.
Qed.

Section RoundTrip.

Variable num : Type.
Variable f32_of_bits : Z -> num.
Variable toFloat32 : num -> num.
Variable bits_of_f32 : num -> Z.

Lemma byte_val_of_Z (z : Z) :
  (0 <= z < 256)%Z -> byte_val (byte_of_Z z) = z.
Proof.
  intros Hz. unfold byte_val, byte_of_Z.
  destruct (Byte.of_N (Z.to_N z)) as [b|] eqn:E.
  - apply Byte.to_of_N in E. rewrite E. lia.
  - apply Byte.of_N_None_iff in E. lia.
Qed.

Lemma le_bytes_length (n : nat) (z : Z) : List.length (le_bytes n z) = n.
Proof. revert z. induction n as [|n IH]; intros z; simpl; [|rewrite IH]; reflexivity. Qed.

Lemma le_uint_le_bytes (n : nat) (z : Z) :
  (0 <= z < 256 ^ Z.of_nat n)%Z -> le_uint (le_bytes n z) = z.
Proof.
  revert z. induction n as [|n IH]; intros z Hz.
  - simpl in *. lia.
  - cbn [le_bytes le_uint].
    rewrite byte_val_of_Z by (apply Z.mod_pos_bound; lia).
    rewrite IH.
    + symmetry. rewrite Z.add_comm. apply Z.div_mod. lia.
    + rewrite Nat2Z.inj_succ, Z.pow_succ_r in Hz by lia.
      split; [apply Z.div_pos; lia|].
      apply Z.div_lt_upper_bound; lia.
Qed.

Lemma view_bytes_middle (pre bs post : list byte) :
  view_bytes (pre ++ bs ++ post) (List.length pre) (List.length bs) = Ok bs.
Proof.
  assert (Hin : (List.length pre + List.length bs
                 <= List.length (pre ++ bs ++ post))%nat)
    by (rewrite !length_app; lia).
  rewrite (view_bytes_inside _ _ _ Hin).
  rewrite skipn_app, Nat.sub_diag, skipn_all. simpl.
  rewrite firstn_app, Nat.sub_diag, firstn_all. simpl.
  rewrite app_nil_r. reflexivity.
Qed.

Lemma encode_float_length (x : num) :
  List.length (encode_float bits_of_f32 x) = 4%nat.
Proof. apply le_bytes_length. Qed.

Lemma le_uint_encode_float (x : num) :
  (0 <= bits_of_f32 x < 2 ^ 32)%Z ->
  le_uint (encode_float bits_of_f32 x) = bits_of_f32 x.
Proof. intros Hx. apply le_uint_le_bytes. exact Hx. Qed.

Lemma encode_floats_length (xs : list num) :
  List.length (flat_map (encode_float bits_of_f32) xs)
  = (4 * List.length xs)%nat.
Proof.
  induction xs as [|x xs IH]; cbn [flat_map]; [reflexivity|].
  rewrite length_app, IH, encode_float_length. simpl. lia.
Qed.

Lemma read_floats_encoded (xs : list num) (pre post : list byte)
      (acc : list num) :
  Forall (storable f32_of_bits toFloat32 bits_of_f32) xs ->
  read_floats f32_of_bits
    (pre ++ flat_map (encode_float bits_of_f32) xs ++ post)
    (List.length pre) (List.length xs) acc
  = Ok (acc ++ map (raw f32_of_bits bits_of_f32) xs,
        (List.length pre + 4 * List.length xs)%nat).
Proof.
  revert pre acc. induction xs as [|x xs IH]; intros pre acc Hxs.
  - simpl. rewrite app_nil_r, Nat.add_0_r. reflexivity.
  - inversion Hxs as [|? ? [Hbits _] Hrest]; subst.
    cbn [flat_map List.length read_floats].
    unfold getFloat32.
    rewrite <- app_assoc.
    pose proof (view_bytes_middle pre (encode_float bits_of_f32 x)
                  (flat_map (encode_float bits_of_f32) xs ++ post)) as Hview.
    rewrite encode_float_length in Hview.
    rewrite Hview. cbn [bind].
    rewrite le_uint_encode_float by exact Hbits.
    specialize (IH (pre ++ encode_float bits_of_f32 x)
                   (acc ++ [f32_of_bits (bits_of_f32 x)]) Hrest).
    rewrite length_app, encode_float_length in IH.
    rewrite <- app_assoc in IH. rewrite IH.
    rewrite <- app_assoc. simpl. f_equal. f_equal. lia.
Qed.

Lemma read_records_encoded (records : list (stl_record num))
      (pre : list byte) (acc : list num) :
  Forall (well_formed f32_of_bits toFloat32 bits_of_f32) records ->
  read_records f32_of_bits
    (pre ++ flat_map (encode_record bits_of_f32) records)
    (List.length pre) (List.length records) acc
  = Ok (acc ++ map (raw f32_of_bits bits_of_f32)
                   (flat_map (@corners num) records)).
Proof.
  revert pre acc. induction records as [|r rs IH]; intros pre acc Hwf.
  - simpl. rewrite app_nil_r. reflexivity.
  - inversion Hwf as [|? ? (Hn & Hc & Ha & Hst) Hrest]; subst.
    cbn [flat_map List.length read_records].
    unfold encode_record at 1.
    replace (pre ++ (normal r ++ flat_map (encode_float bits_of_f32) (corners r)
                       ++ attribute r)
                 ++ flat_map (encode_record bits_of_f32) rs)
      with ((pre ++ normal r) ++ flat_map (encode_float bits_of_f32) (corners r)
              ++ (attribute r ++ flat_map (encode_record bits_of_f32) rs))
      by (rewrite <- !app_assoc; reflexivity).
    replace (List.length pre + 12)%nat with (List.length (pre ++ normal r))
      by (rewrite length_app; lia).
    rewrite <- Hc at 1.
    rewrite read_floats_encoded by exact Hst. cbn [bind].
    specialize (IH (pre ++ encode_record bits_of_f32 r)
                   (acc ++ map (raw f32_of_bits bits_of_f32) (corners r)) Hrest).
    replace (List.length (pre ++ normal r) + 4 * List.length (corners r) + 2)%nat
      with (List.length (pre ++ encode_record bits_of_f32 r)).
    + rewrite <- app_assoc in IH. rewrite IH.
      rewrite map_app, app_assoc. reflexivity.
    + unfold encode_record. rewrite !length_app.
      rewrite encode_floats_length. lia.
Qed.

End RoundTrip.

(** The layout round-trips on every platform whose float conversions
    store and read back the coordinates unchanged. *)
Lemma layout_round_trip (num : Type) (f32_of_bits : Z -> num)
        (toFloat32 : num -> num) (Number : string -> num)
        (bits_of_f32 : num -> Z)
        (header : list byte) (records : list (stl_record num)) :
  List.length header = 80%nat ->
  String.eqb (decode_text (firstn 5 header)) "solid" = false ->
  (Z.of_nat (List.length records) < 2 ^ 32)%Z ->
  Forall (well_formed f32_of_bits toFloat32 bits_of_f32) records ->
  parseSTL f32_of_bits toFloat32 Number
           (spec_encodeBinarySTL bits_of_f32 header records)
  = Ok (flat_map (@corners num) records).
Proof.
  intros Hheader Hsolid Hcount Hwf.
  unfold parseSTL, spec_encodeBinarySTL.
  assert (Hbinary : isASCII (header ++ le_bytes 4 (Z.of_nat (List.length records))
                               ++ flat_map (encode_record bits_of_f32) records)
                    = false).
  { unfold isASCII. rewrite firstn_app, Hheader. simpl (5 - 80)%nat.
    rewrite firstn_O, app_nil_r, Hsolid, orb_false_r.
    apply Nat.ltb_ge. rewrite length_app. lia. }
  rewrite Hbinary. unfold parseBinarySTL, getUint32.
  pose proof (view_bytes_middle header
                (le_bytes 4 (Z.of_nat (List.length records)))
                (flat_map (encode_record bits_of_f32) records)) as Hview.
  rewrite Hheader, le_bytes_length in Hview. rewrite Hview. cbn [bind].
  rewrite le_uint_le_bytes by (change (256 ^ Z.of_nat 4)%Z with (2 ^ 32)%Z; lia).
  rewrite Nat2Z.id.
  pose proof (read_records_encoded
                (header ++ le_bytes 4 (Z.of_nat (List.length records)))
                [] Hwf) as Hread.
  rewrite length_app, Hheader, le_bytes_length in Hread.
  rewrite <- app_assoc in Hread.
  change (80 + 4)%nat with 84%nat in Hread. rewrite Hread. cbn [bind app].
  f_equal. rewrite map_map. clear Hread Hview Hbinary.
  assert (Hall : Forall (storable f32_of_bits toFloat32 bits_of_f32)
                        (flat_map (@corners num) records)).
  { apply Forall_flat_map. eapply Forall_impl; [|exact Hwf].
    intros r (_ & _ & _ & Hst). exact Hst. }
  induction Hall as [|x xs [_ Hx] _ IH]; simpl; [reflexivity|].
  unfold raw at 1. rewrite Hx, IH. reflexivity.
Qed.

(** * Binary32 numbers in the IEEE instance *)

Section Binary32Facts.

Local Open Scope Z_scope.
Local Unset Implicit Arguments.

Lemma iter_pos_nat {A} (f : A -> A) (p : positive) (x : A) :
  SpecFloat.iter_pos f p x = Nat.iter (Pos.to_nat p) f x.
Proof.
  revert x. induction p as [p IH|p IH|]; intros x; cbn [SpecFloat.iter_pos].
  - rewrite !IH. rewrite Pos2Nat.inj_xI. 
    replace (S (2 * Pos.to_nat p))%nat with (Pos.to_nat p + (Pos.to_nat p + 1))%nat by lia.
    rewrite !Nat.iter_add. simpl. reflexivity.
  - rewrite !IH. rewrite Pos2Nat.inj_xO.
    replace (2 * Pos.to_nat p)%nat with (Pos.to_nat p + Pos.to_nat p)%nat by lia.
    rewrite Nat.iter_add. reflexivity.
  - reflexivity.
Qed.

Lemma shiftl_nat (m : positive) (n : nat) :
  Pos.shiftl m (N.of_nat n) = Nat.iter n xO m.
Proof.
  destruct n as [|n]; [reflexivity|].
  simpl N.of_nat. unfold Pos.shiftl.
  rewrite Pos2Nat.inj_iter, SuccNat2Pos.id_succ.
  generalize (S n). intros k. induction k; simpl; [reflexivity|]. rewrite IHk. reflexivity.
Qed.

Lemma shr_shifted (m : positive) (n : nat) :
  Nat.iter n shr_1 {| shr_m := Zpos (Nat.iter n xO m); shr_r := false; shr_s := false |}
  = {| shr_m := Zpos m; shr_r := false; shr_s := false |}.
Proof.
  induction n as [|n IH]; [reflexivity|].
  rewrite Nat.iter_succ_r. simpl. exact IH.
Qed.

Lemma digits_shifted (m : positive) (n : nat) :
  Zpos (digits2_pos (Nat.iter n xO m)) = Zpos (digits2_pos m) + Z.of_nat n.
Proof.
  induction n as [|n IH]; [simpl; lia|].
  simpl Nat.iter. simpl digits2_pos. rewrite Pos2Z.inj_succ, IH. lia.
Qed.

(** Rounding the widened form back to binary32 is exact. *)
Lemma narrow_widen (s : bool) (m : positive) (e : Z) :
  SpecFloat.bounded 24 128 m e = true ->
  binary_round 24 128 s (Pos.shiftl m (Z.to_N (53 - Zpos (digits2_pos m))))
               (e - (53 - Zpos (digits2_pos m)))
  = S754_finite s m e.
Proof.
  intros Hb. unfold SpecFloat.bounded, canonical_mantissa in Hb.
  apply andb_true_iff in Hb. destruct Hb as [Hcan Hmax].
  apply Z.eqb_eq in Hcan. apply Z.leb_le in Hmax.
  set (d := Zpos (digits2_pos m)) in *.
  assert (Hd : 1 <= d <= 24).
  { unfold d. split; [lia|]. unfold fexp, emin in Hcan. lia. }
  set (k := 53 - d) in *.
  assert (Hk : 0 < k) by lia.
  replace (Z.to_N k) with (N.of_nat (Z.to_nat k)) by lia.
  rewrite shiftl_nat.
  set (n := Z.to_nat k).
  assert (Hn : Z.of_nat n = k) by lia.
  unfold binary_round.
  rewrite digits_shifted, Hn. fold d.
  replace (d + k + (e - k)) with (d + e) by lia.
  rewrite Hcan.
  unfold shl_align.
  replace (e - (e - k)) with k by lia.
  destruct k as [|pk|pk] eqn:Ek; try lia.
  unfold binary_round_aux, shr_fexp.
  cbn [Zdigits2 shr_record_of_loc].
  rewrite digits_shifted, Hn. fold d.
  replace (d + Z.pos pk + (e - Z.pos pk)) with (d + e) by lia.
  rewrite Hcan.
  replace (e - (e - Z.pos pk)) with (Z.pos pk) by lia.
  unfold shr. rewrite iter_pos_nat.
  replace (Pos.to_nat pk) with n by lia.
  rewrite shr_shifted.
  cbn [loc_of_shr_record shr_m round_nearest_even Zdigits2 shr_record_of_loc].
  replace (e - Z.pos pk + Z.pos pk) with e by lia.
  fold d. rewrite Hcan, Z.sub_diag.
  cbn [shr_m].
  apply Z.leb_le in Hmax. rewrite Hmax. reflexivity.
Qed.

Lemma digits_size (p : positive) : digits2_pos p = Pos.size p.
Proof. induction p; simpl; congruence. Qed.

Lemma digits_bounds (p : positive) :
  2 ^ (Zpos (digits2_pos p) - 1) <= Zpos p < 2 ^ Zpos (digits2_pos p).
Proof.
  rewrite digits_size.
  pose proof (Pos.size_gt p) as Hgt. pose proof (Pos.size_le p) as Hle.
  apply Pos2Z.pos_lt_pos in Hgt. apply Pos2Z.pos_le_pos in Hle.
  rewrite Pos2Z.inj_pow in Hgt, Hle.
  split; [|exact Hgt].
  replace (Z.pos (Pos.size p)) with (Z.succ (Z.pos (Pos.size p) - 1)) in Hle by lia.
  rewrite Z.pow_succ_r in Hle by lia.
  change (Z.pos p~0) with (2 * Z.pos p) in Hle. lia.
Qed.

Lemma digits_of_range (p : positive) (n : Z) :
  0 < n -> 2 ^ (n - 1) <= Zpos p < 2 ^ n -> Zpos (digits2_pos p) = n.
Proof.
  intros Hn [Hlo Hhi]. destruct (digits_bounds p) as [Dlo Dhi].
  set (d := Zpos (digits2_pos p)) in *.
  assert (Hd : 0 < d) by (unfold d; lia).
  destruct (Z.lt_trichotomy d n) as [Hlt|[Heq|Hgt]]; [|exact Heq|].
  - assert (2 ^ d <= 2 ^ (n - 1)) by (apply Z.pow_le_mono_r; lia). lia.
  - assert (2 ^ n <= 2 ^ (d - 1)) by (apply Z.pow_le_mono_r; lia). lia.
Qed.

Lemma digits_upper (p : positive) (n : Z) :
  0 <= n -> Zpos p < 2 ^ n -> Zpos (digits2_pos p) <= n.
Proof.
  intros Hn Hhi. destruct (digits_bounds p) as [Dlo _].
  set (d := Zpos (digits2_pos p)) in *.
  destruct (Z.le_gt_cases d n) as [Hle|Hgt]; [exact Hle|].
  assert (2 ^ n <= 2 ^ (d - 1)) by (apply Z.pow_le_mono_r; lia). lia.
Qed.

(** The mantissa and exponent of a finite binary32 number are in canonical form. *)
Lemma normal_bounded (ex mant : Z) :
  1 <= ex <= 254 -> 0 <= mant < 2 ^ 23 ->
  Zpos (digits2_pos (Z.to_pos (mant + 2 ^ 23))) = 24
  /\ SpecFloat.bounded 24 128 (Z.to_pos (mant + 2 ^ 23)) (ex - 150) = true.
Proof.
  intros Hex Hmant.
  assert (Hd : Zpos (digits2_pos (Z.to_pos (mant + 2 ^ 23))) = 24).
  { apply digits_of_range; [lia|]. rewrite Z2Pos.id by lia.
    change (2 ^ (24 - 1)) with (2 ^ 23). change (2 ^ 24) with (2 * 2 ^ 23). lia. }
  split; [exact Hd|].
  unfold SpecFloat.bounded, canonical_mantissa. rewrite Hd.
  apply andb_true_iff. split; [apply Z.eqb_eq | apply Z.leb_le].
  - unfold fexp, emin. lia.
  - lia.
Qed.

Lemma subnormal_bounded (m : positive) :
  Zpos m < 2 ^ 23 ->
  Zpos (digits2_pos m) <= 23 /\ SpecFloat.bounded 24 128 m (-149) = true.
Proof.
  intros Hm.
  assert (Hd : Zpos (digits2_pos m) <= 23) by (apply digits_upper; lia).
  split; [exact Hd|].
  unfold SpecFloat.bounded, canonical_mantissa.
  apply andb_true_iff. split; [apply Z.eqb_eq | apply Z.leb_le].
  - unfold fexp, emin. lia.
  - lia.
Qed.

Lemma widen_bits (s : bool) (m : positive) (e : Z) :
  SpecFloat.bounded 24 128 m e = true ->
  IEEE.bits_of_f32 (IEEE.widen s m e) = IEEE.f32_pack (S754_finite s m e)
  /\ IEEE.to_f32 (IEEE.widen s m e) = IEEE.widen s m e.
Proof.
  intros Hb. unfold IEEE.widen, IEEE.bits_of_f32, IEEE.to_f32.
  rewrite (narrow_widen s m e Hb). split; reflexivity.
Qed.

Lemma value_bits (s : bool) (ex mant : Z) :
  0 <= ex <= 255 -> 0 <= mant < 2 ^ 23 -> (ex = 255 -> mant = 0) ->
  IEEE.bits_of_f32 (IEEE.f32_value s ex mant)
  = IEEE.sign_bit s + ex * 2 ^ 23 + mant
  /\ IEEE.to_f32 (IEEE.f32_value s ex mant) = IEEE.f32_value s ex mant.
Proof.
  intros Hex Hmant Hinf. unfold IEEE.f32_value.
  destruct (ex =? 255) eqn:E255.
  - apply Z.eqb_eq in E255. rewrite (Hinf E255). subst ex.
    split; [destruct s|]; reflexivity.
  - apply Z.eqb_neq in E255.
    destruct (ex =? 0) eqn:E0.
    + apply Z.eqb_eq in E0. subst ex.
      destruct mant as [|m|m]; [split; [destruct s|]; reflexivity | | lia].
      destruct (subnormal_bounded m) as [Hd Hb]; [lia|].
      destruct (widen_bits s m (-149) Hb) as [Hbits Hround].
      rewrite Hbits, Hround. split; [|reflexivity].
      unfold IEEE.f32_pack.
      destruct (Z.pos (digits2_pos m) =? 24) eqn:E24;
        [apply Z.eqb_eq in E24; lia | lia].
    + apply Z.eqb_neq in E0.
      destruct (normal_bounded ex mant) as [Hd Hb]; [lia | lia |].
      destruct (widen_bits s _ _ Hb) as [Hbits Hround].
      rewrite Hbits, Hround. split; [|reflexivity].
      unfold IEEE.f32_pack. rewrite Hd, Z.eqb_refl, Z2Pos.id by lia. lia.
Qed.

(** Every 32-bit pattern is the sign, exponent and mantissa it is read as. *)
Lemma pattern_fields (b : Z) :
  0 <= b < 2 ^ 32 ->
  let s := Z.testbit b 31 in
  let ex := (b / 2 ^ 23) mod 256 in
  let mant := b mod 2 ^ 23 in
  0 <= ex <= 255 /\ 0 <= mant < 2 ^ 23
  /\ b = IEEE.sign_bit s + ex * 2 ^ 23 + mant.
Proof.
  intros Hb s ex mant.
  assert (Hex : 0 <= ex < 256) by (apply Z.mod_pos_bound; lia).
  assert (Hmant : 0 <= mant < 2 ^ 23) by (apply Z.mod_pos_bound; lia).
  split; [lia|]. split; [exact Hmant|].
  pose proof (Z.div_mod b (2 ^ 23) ltac:(lia)) as H1.
  pose proof (Z.div_mod (b / 2 ^ 23) 256 ltac:(lia)) as H2.
  fold mant in H1. fold ex in H2.
  assert (Hq : b / 2 ^ 23 / 256 = b / 2 ^ 31).
  { rewrite Z.div_div by lia. reflexivity. }
  rewrite Hq in H2.
  assert (Hs : IEEE.sign_bit s = 2 ^ 31 * (b / 2 ^ 31)).
  { unfold s. rewrite Z.testbit_odd, Z.shiftr_div_pow2 by lia.
    assert (Hr : 0 <= b / 2 ^ 31 < 2).
    { split; [apply Z.div_pos; lia|]. apply Z.div_lt_upper_bound; lia. }
    assert (Hc : b / 2 ^ 31 = 0 \/ b / 2 ^ 31 = 1) by lia.
    destruct Hc as [Hc|Hc]; rewrite Hc; reflexivity. }
  rewrite Hs. generalize dependent (b / 2 ^ 31). intros q.
  generalize dependent (b / 2 ^ 23). intros r.
  change (2 ^ 31) with 2147483648. change (2 ^ 23) with 8388608. lia.
Qed.

Lemma fields_of_pattern (s : bool) (ex mant : Z) :
  0 <= ex <= 255 -> 0 <= mant < 2 ^ 23 ->
  IEEE.f32_of_bits (IEEE.sign_bit s + ex * 2 ^ 23 + mant)
  = IEEE.f32_value s ex mant.
Proof.
  intros Hex Hmant. unfold IEEE.f32_of_bits.
  set (b := IEEE.sign_bit s + ex * 2 ^ 23 + mant).
  assert (Hb : 0 <= b < 2 ^ 32).
  { unfold b, IEEE.sign_bit. destruct s; lia. }
  assert (Hmod : b mod 2 ^ 23 = mant).
  { symmetry. apply (Z.mod_unique b (2 ^ 23) ((if s then 256 else 0) + ex)); [lia|].
    unfold b, IEEE.sign_bit. destruct s; lia. }
  assert (Hdiv : b / 2 ^ 23 = (if s then 256 else 0) + ex).
  { symmetry. apply (Z.div_unique b (2 ^ 23) _ mant); [lia|].
    unfold b, IEEE.sign_bit. destruct s; lia. }
  assert (Hexf : (b / 2 ^ 23) mod 256 = ex).
  { rewrite Hdiv. symmetry.
    apply (Z.mod_unique _ 256 (if s then 1 else 0)); [lia|]. destruct s; lia. }
  assert (Hsign : Z.testbit b 31 = s).
  { rewrite Z.testbit_odd, Z.shiftr_div_pow2 by lia.
    assert (Hq : b / 2 ^ 31 = if s then 1 else 0).
    { symmetry. apply (Z.div_unique b (2 ^ 31) _ (ex * 2 ^ 23 + mant)); [lia|].
      unfold b, IEEE.sign_bit. destruct s; lia. }
    rewrite Hq. destruct s; reflexivity. }
  rewrite Hmod, Hexf, Hsign. reflexivity.
Qed.

(** Every binary32 pattern denotes a number that is stored and read back
    unchanged. *)
Lemma f32_storable (b : Z) :
  0 <= b < 2 ^ 32 ->
  0 <= IEEE.bits_of_f32 (IEEE.f32_of_bits b) < 2 ^ 32
  /\ IEEE.to_f32 (IEEE.f32_of_bits (IEEE.bits_of_f32 (IEEE.f32_of_bits b)))
     = IEEE.f32_of_bits b.
Proof.
  intros Hb. destruct (pattern_fields b Hb) as (Hex & Hmant & Hpack).
  set (s := Z.testbit b 31) in *.
  set (ex := (b / 2 ^ 23) mod 256) in *.
  set (mant := b mod 2 ^ 23) in *.
  assert (Hval : IEEE.f32_of_bits b = IEEE.f32_value s ex mant) by reflexivity.
  rewrite Hval. clear Hval.
  destruct (Z.eq_dec ex 255) as [E255|E255].
  - destruct (Z.eq_dec mant 0) as [E0|E0].
    + destruct (value_bits s ex mant Hex Hmant (fun _ => E0)) as [Hbits Hround].
      rewrite Hbits, fields_of_pattern, Hround by assumption.
      split; [unfold IEEE.sign_bit; destruct s; lia | reflexivity].
    + unfold IEEE.f32_value. rewrite E255. simpl (255 =? 255).
      destruct (mant =? 0) eqn:E; [apply Z.eqb_eq in E; contradiction|].
      split; [simpl; lia | reflexivity].
  - assert (Hinf : ex = 255 -> mant = 0) by (intros; contradiction).
    destruct (value_bits s ex mant Hex Hmant Hinf) as [Hbits Hround].
    rewrite Hbits, fields_of_pattern, Hround by assumption.
    split; [unfold IEEE.sign_bit; destruct s; lia | reflexivity].
Qed.

End Binary32Facts.

(** C9.  Encoding records in the binary layout (an 80-byte header that does
    not spell [solid], the count as a little-endian unsigned 32-bit integer,
    then per record 12 bytes of normal, nine little-endian 32-bit floats and
    2 attribute bytes) and decoding the result gives back exactly the
    vertex sequence, bit for bit, for fewer than [2^32] records of 32-bit
    floats. *)
Theorem decoder_round_trip (Number : string -> spec_float)
        (header : list byte) (records : list (stl_record spec_float)) :
  List.length header = 80%nat ->
  String.eqb (decode_text (firstn 5 header)) "solid" = false ->
  (Z.of_nat (List.length records) < 2 ^ 32)%Z ->
  Forall f32_record records ->
  parseSTL IEEE.f32_of_bits IEEE.to_f32 Number
           (spec_encodeBinarySTL IEEE.bits_of_f32 header records)
  = Ok (flat_map (@corners spec_float) records).
Proof.
  intros Hheader Hsolid Hcount Hrecords.
  apply layout_round_trip; try assumption.
  eapply Forall_impl; [|exact Hrecords].
  intros r (Hn & Hc & Ha & Hf). repeat split; try assumption.
  eapply Forall_impl; [|exact Hf].
  intros x (b & Hb & ->). apply f32_storable. exact Hb.
Qed.

(** * The ASCII decoder *)

Section TextFacts.

Local Open Scope string_scope.

Lemma string_forallb_app p (s t : string) :
  string_forallb p (s ++ t) = string_forallb p s && string_forallb p t.
Proof.
  induction s as [|c s IH]; simpl; [reflexivity|].
  rewrite IH, andb_assoc. reflexivity.
Qed.

Lemma string_forallb_impl (p q : ascii -> bool) (s : string) :
  (forall c, p c = true -> q c = true) ->
  string_forallb p s = true -> string_forallb q s = true.
Proof.
  intros Hpq. induction s as [|c s IH]; simpl; [reflexivity|].
  intros H. apply andb_true_iff in H. destruct H as [Hc Hs].
  rewrite (Hpq c Hc), (IH Hs). reflexivity.
Qed.

Lemma split_lines_single (s : string) :
  string_forallb not_newline s = true -> split_lines s = [s].
Proof.
  induction s as [|c s IH]; simpl; [reflexivity|].
  intros H. apply andb_true_iff in H. destruct H as [Hc Hs].
  unfold not_newline in Hc. apply negb_true_iff in Hc.
  rewrite Hc, (IH Hs). reflexivity.
Qed.

Lemma trim_start_id (c : ascii) (s : string) :
  not_ws c = true -> trim_start (String c s) = String c s.
Proof.
  intros Hc. simpl. unfold not_ws in Hc. apply negb_true_iff in Hc.
  rewrite Hc. reflexivity.
Qed.

Lemma trim_end_id (s : string) :
  ends_non_ws s = true -> trim_end s = s.
Proof.
  induction s as [|c s IH]; [discriminate|].
  destruct s as [|d s].
  - simpl. unfold not_ws. intros Hc. apply negb_true_iff in Hc.
    rewrite Hc. reflexivity.
  - intros H. change (ends_non_ws (String d s) = true) in H.
    cbn [trim_end]. cbn [trim_end] in IH. rewrite (IH H). reflexivity.
Qed.

Lemma ends_non_ws_app (s t : string) :
  ends_non_ws t = true -> ends_non_ws (s ++ t) = true.
Proof.
  intros Ht. induction s as [|c s IH]; [exact Ht|].
  simpl. destruct (s ++ t) eqn:E; [discriminate | exact IH].
Qed.

Lemma token_not_ws (t : string) :
  string_forallb token_char t = true -> string_forallb not_ws t = true.
Proof.
  apply string_forallb_impl. intros c Hc. unfold token_char in Hc.
  apply andb_true_iff in Hc. exact (proj1 Hc).
Qed.

Lemma token_ends_non_ws (t : string) : is_token t -> ends_non_ws t = true.
Proof.
  intros [Hne Hall]. apply token_not_ws in Hall.
  induction t as [|c t IH]; [contradiction|].
  simpl in Hall. apply andb_true_iff in Hall. destruct Hall as [Hc Ht].
  destruct t as [|d t]; [exact Hc|].
  apply IH; [discriminate | exact Ht].
Qed.

Lemma tokens_text_ends (rest : list (string * string)) :
  well_separated rest ->
  forall t0, is_token t0 -> ends_non_ws (tokens_text t0 rest) = true.
Proof.
  induction 1 as [|[sep tok] rest [_ Htok] _ IH]; intros t0 Ht0; simpl.
  - apply token_ends_non_ws. exact Ht0.
  - apply ends_non_ws_app, ends_non_ws_app. apply IH. exact Htok.
Qed.

Lemma blank_is_ws (c : ascii) : is_blank c = true -> is_ws c = true.
Proof. unfold is_blank. intros H. apply andb_true_iff in H. tauto. Qed.

(** After a separator has begun, the rest of it is skipped and the next
    token starts the remaining pieces. *)
Lemma split_ws_in_separator (sep : string) (c : ascii) (s : string)
      (pieces : list string) :
  string_forallb is_blank sep = true ->
  not_ws c = true ->
  split_ws_from false (String c s) = pieces ->
  split_ws_from true (sep ++ String c s) = pieces.
Proof.
  intros Hsep Hc Hpieces. induction sep as [|b sep IH].
  - simpl in *. unfold not_ws in Hc. apply negb_true_iff in Hc.
    rewrite Hc in *. exact Hpieces.
  - simpl in Hsep. apply andb_true_iff in Hsep. destruct Hsep as [Hb Hsep].
    simpl. rewrite (blank_is_ws _ Hb). apply IH. exact Hsep.
Qed.

Lemma split_ws_tokens (rest : list (string * string)) :
  well_separated rest ->
  forall t0, string_forallb not_ws t0 = true ->
    split_ws_from false (tokens_text t0 rest) = t0 :: map snd rest.
Proof.
  induction 1 as [|[sep tok] rest [[Hsep_ne Hsep] [Htok_ne Htok]] _ IH];
    intros t0 Ht0; [|apply token_not_ws in Htok].
  - simpl. induction t0 as [|c t0 IHt]; [reflexivity|].
    simpl in Ht0. apply andb_true_iff in Ht0. destruct Ht0 as [Hc Ht0].
    simpl. unfold not_ws in Hc. apply negb_true_iff in Hc.
    rewrite Hc, (IHt Ht0). reflexivity.
  - cbn [tokens_text map snd fst] in *.
    induction t0 as [|c t0 IHt].
    + cbn [append].
      destruct sep as [|b sep]; [contradiction|].
      simpl in Hsep. apply andb_true_iff in Hsep. destruct Hsep as [Hb Hsep].
      cbn [append split_ws_from]. rewrite (blank_is_ws _ Hb).
      f_equal.
      destruct tok as [|d tok]; [contradiction|].
      simpl in Htok. apply andb_true_iff in Htok. destruct Htok as [Hd Htok'].
      specialize (IH (String d tok)).
      assert (Htext : forall r, tokens_text (String d tok) r
                                = String d (tokens_text tok r)).
      { intros r. destruct r as [|[s0 t1] r]; reflexivity. }
      rewrite Htext in *.
      apply split_ws_in_separator; [exact Hsep | exact Hd |].
      apply IH. simpl. rewrite Hd, Htok'. reflexivity.
    + simpl in Ht0. apply andb_true_iff in Ht0. destruct Ht0 as [Hc Ht0].
      cbn [append split_ws_from]. unfold not_ws in Hc.
      apply negb_true_iff in Hc. rewrite Hc, (IHt Ht0). reflexivity.
Qed.

End TextFacts.

Section AsciiFacts.

Variable num : Type.
Variable f32_of_bits : Z -> num.
Variable toFloat32 : num -> num.
Variable Number : string -> num.

Lemma decode_bytes_of_string (s : string) :
  decode_text (bytes_of_string s) = s.
Proof.
  unfold decode_text, bytes_of_string. rewrite map_map.
  rewrite (map_ext _ (fun c => c)) by (intros c; apply ascii_of_byte_of_ascii).
  rewrite map_id. apply string_of_list_ascii_of_string.
Qed.

Lemma bytes_of_string_length (s : string) :
  List.length (bytes_of_string s) = String.length s.
Proof.
  unfold bytes_of_string. rewrite length_map.
  induction s as [|c s IH]; simpl; [|rewrite IH]; reflexivity.
Qed.

Lemma token_no_newline (t : string) :
  string_forallb not_ws t = true -> string_forallb not_newline t = true.
Proof.
  apply string_forallb_impl. intros c Hc.
  unfold not_ws, not_newline in *. apply negb_true_iff in Hc.
  apply negb_true_iff. destruct (Ascii.eqb c newline) eqn:E; [|reflexivity].
  apply Ascii.eqb_eq in E. subst c. discriminate.
Qed.

Lemma separator_no_newline (s : string) :
  string_forallb is_blank s = true -> string_forallb not_newline s = true.
Proof.
  apply string_forallb_impl. intros c Hc.
  unfold is_blank in Hc. apply andb_true_iff in Hc. exact (proj2 Hc).
Qed.

Lemma tokens_text_no_newline (rest : list (string * string)) :
  well_separated rest ->
  forall t0, string_forallb not_ws t0 = true ->
    string_forallb not_newline (tokens_text t0 rest) = true.
Proof.
  induction 1 as [|[sep tok] rest [[_ Hsep] [_ Htok]] _ IH]; intros t0 Ht0;
    cbn [fst snd tokens_text] in *; [|apply token_not_ws in Htok].
  - apply token_no_newline. exact Ht0.
  - rewrite !string_forallb_app.
    rewrite (token_no_newline _ Ht0), (separator_no_newline _ Hsep).
    apply IH. exact Htok.
Qed.

Lemma vertex_token : is_token "vertex".
Proof. split; [discriminate | reflexivity]. Qed.

(** A vertex line pushes one number per token after [vertex]. *)
Lemma vertex_line_tokens (rest : list (string * string)) :
  well_separated rest ->
  vertex_line Number (vertex_text rest) = map (fun st => Number (snd st)) rest.
Proof.
  intros Hrest. unfold vertex_line, trim.
  assert (Hstart : trim_start (vertex_text rest) = vertex_text rest).
  { unfold vertex_text. destruct rest as [|[sep tok] rest]; reflexivity. }
  rewrite Hstart.
  rewrite trim_end_id
    by (apply tokens_text_ends; [exact Hrest | exact vertex_token]).
  assert (Hprefix : startsWith "vertex" (vertex_text rest) = true).
  { unfold vertex_text. destruct rest as [|[sep tok] rest]; [reflexivity|].
    simpl. destruct (sep ++ tokens_text tok rest)%string; reflexivity. }
  rewrite Hprefix. unfold split_ws, vertex_text.
  rewrite split_ws_tokens by (exact Hrest || reflexivity).
  simpl. rewrite map_map. reflexivity.
Qed.

End AsciiFacts.

(** C7, amended.  The ASCII decoder has no failure path.  A buffer under 80
    bytes holding one line [vertex t1 ... tk] decodes to the [k] numbers
    [Number(t1) ... Number(tk)] for every [k], also below three: a short
    vertex line shortens the vertex sequence and no error is raised. *)
Theorem short_vertex_line (num : Type) (f32_of_bits : Z -> num)
        (toFloat32 : num -> num) (Number : string -> num)
        (rest : list (string * string)) :
  well_separated rest ->
  (String.length (vertex_text rest) < 80)%nat ->
  parseSTL f32_of_bits toFloat32 Number (bytes_of_string (vertex_text rest))
  = Ok (map (fun st => toFloat32 (Number (snd st))) rest).
Proof.
  intros Hrest Hshort. unfold parseSTL, isASCII.
  rewrite bytes_of_string_length.
  apply Nat.ltb_lt in Hshort. rewrite Hshort. simpl orb. cbv iota.
  rewrite decode_bytes_of_string. unfold parseASCIISTL.
  rewrite split_lines_single
    by (apply tokens_text_no_newline; [exact Hrest | reflexivity]).
  simpl flat_map. rewrite app_nil_r, vertex_line_tokens by exact Hrest.
  rewrite map_map. reflexivity.
Qed.

(** * Properties of the sampler on every number system *)

Section SamplerFacts.

Context {N : JSNumber}.
Variable shapeBoundary : ShapeBoundary.
Variable targetPointCount : nat.



(** Induction over the acceptance loop: [P] holds of the final state when
    it holds initially and every acceptance preserves it; [Q] is a
    property shared by all candidates. *)
Lemma select_invariant (Q : Vector3 -> Prop) (P : Selection -> Prop) :
  (forall st p,
      P st -> Q p ->
      (List.length (selectedPoints st) < targetPointCount)%nat ->
      isPointInValidRegion shapeBoundary p = true ->
      isValidDistance shapeBoundary targetPointCount (spatialHash st) p
      = true ->
      P (accept shapeBoundary targetPointCount p st)) ->
  forall cands st,
    Forall (fun c => Q (point c)) cands ->
    P st ->
    P (select shapeBoundary targetPointCount cands st).
Proof.
  intros Hstep cands.
  induction cands as [|c rest IH]; intros st Hall Hst; simpl.
  - exact Hst.
  - inversion Hall as [|? ? Hc Hrest]; subst.
    destruct (targetPointCount <=? List.length (selectedPoints st))%nat eqn:Hfull.
    + exact Hst.
    + apply Nat.leb_gt in Hfull.
      destruct (isPointInValidRegion shapeBoundary (point c)) eqn:Hregion; simpl.
      * destruct (isValidDistance shapeBoundary targetPointCount
                    (spatialHash st) (point c)) eqn:Hdist.
        -- apply IH; [exact Hrest|]. apply Hstep; assumption.
        -- apply IH; assumption.
      * apply IH; assumption.
Qed.

Lemma Forall_trivial_candidates (cands : list Candidate) :
  Forall (fun c => (fun _ : Vector3 => True) (point c)) cands.
Proof. apply Forall_forall; intros; exact I. Qed.

(** The two output arrays grow in step with [selectedPoints], which never
    exceeds the target. *)
Lemma select_counts cands :
  let st := select shapeBoundary targetPointCount cands empty_selection in
  points st = flat_map coords (selectedPoints st)
  /\ List.length (colors st) = (3 * List.length (selectedPoints st))%nat
  /\ (List.length (selectedPoints st) <= targetPointCount)%nat.
Proof.
  apply (select_invariant (fun _ => True)
           (fun st => points st = flat_map coords (selectedPoints st)
                      /\ List.length (colors st)
                         = (3 * List.length (selectedPoints st))%nat
                      /\ (List.length (selectedPoints st)
                          <= targetPointCount)%nat)).
  - intros st p (Hp & Hc & Hn) _ Hlt _ _. simpl.
    rewrite flat_map_app, Hp. simpl.
    repeat split; try reflexivity.
    + rewrite !length_app, Hc. simpl. lia.
    + rewrite length_app. simpl. lia.
  - apply Forall_trivial_candidates.
  - simpl. repeat split; lia.
Qed.

Lemma flat_map_coords_length (ps : list Vector3) :
  List.length (flat_map coords ps) = (3 * List.length ps)%nat.
Proof. induction ps as [|p ps IH]; simpl; [reflexivity | rewrite IH; lia]. Qed.

(** Every accepted point passed the hollow-region test. *)
Lemma select_valid_region cands :
  Forall (fun p => isPointInValidRegion shapeBoundary p = true)
         (selectedPoints (select shapeBoundary targetPointCount cands
                                 empty_selection)).
Proof.
  apply (select_invariant (fun _ => True)
           (fun st => Forall (fun p => isPointInValidRegion shapeBoundary p = true)
                             (selectedPoints st))).
  - intros st p Hst _ _ Hregion _. simpl.
    apply Forall_app; split; [exact Hst | constructor; [exact Hregion | constructor]].
  - apply Forall_trivial_candidates.
  - constructor.
Qed.

(** The colors are those of the accepted points, in order. *)
Lemma select_colors cands :
  let st := select shapeBoundary targetPointCount cands empty_selection in
  colors st = flat_map (color shapeBoundary) (selectedPoints st).
Proof.
  apply (select_invariant (fun _ => True)
           (fun st => colors st
                      = flat_map (color shapeBoundary) (selectedPoints st))).
  - intros st p Hst _ _ _ _. simpl.
    rewrite flat_map_app, Hst. simpl. reflexivity.
  - apply Forall_trivial_candidates.
  - reflexivity.
Qed.

Lemma isValidDistance_empty (p : Vector3) :
  isValidDistance shapeBoundary targetPointCount [] p = true.
Proof. reflexivity. Qed.

(** Acceptance only ever appends. *)
Lemma select_extends cands st :
  exists more,
    selectedPoints (select shapeBoundary targetPointCount cands st)
    = selectedPoints st ++ more.
Proof.
  revert st. induction cands as [|c rest IH]; intros st; simpl.
  - exists []. rewrite app_nil_r. reflexivity.
  - destruct (targetPointCount <=? List.length (selectedPoints st))%nat.
    + exists []. rewrite app_nil_r. reflexivity.
    + destruct (isPointInValidRegion shapeBoundary (point c)
                && isValidDistance shapeBoundary targetPointCount
                     (spatialHash st) (point c)).
      * destruct (IH (accept shapeBoundary targetPointCount (point c) st))
          as [more Hmore].
        exists (point c :: more). rewrite Hmore. simpl.
        rewrite <- app_assoc. reflexivity.
      * apply IH.
Qed.

(** With a positive target, a candidate outside the hollow region makes
    the selection non-empty. *)
Lemma select_nonempty cands :
  (1 <= targetPointCount)%nat ->
  Exists (fun c => isPointInValidRegion shapeBoundary (point c) = true) cands ->
  selectedPoints (select shapeBoundary targetPointCount cands empty_selection)
  <> [].
Proof.
  intros Htarget Hex.
  induction Hex as [c rest Hc | c rest Hrest IH]; simpl.
  - destruct (targetPointCount <=? 0)%nat eqn:E; [apply Nat.leb_le in E; lia|].
    rewrite Hc. simpl.
    destruct (select_extends rest
                (accept shapeBoundary targetPointCount (point c) empty_selection))
      as [more Hmore].
    rewrite Hmore. simpl. discriminate.
  - destruct (targetPointCount <=? 0)%nat eqn:E; [apply Nat.leb_le in E; lia|].
    destruct (isPointInValidRegion shapeBoundary (point c)); simpl.
    + destruct (select_extends rest
                  (accept shapeBoundary targetPointCount (point c) empty_selection))
        as [more Hmore].
      rewrite Hmore. simpl. discriminate.
    + exact IH.
Qed.

Lemma select_from_candidates cands :
  incl (selectedPoints
          (select shapeBoundary targetPointCount cands empty_selection))
       (map point cands).
Proof.
  apply (select_invariant
           (fun p => In p (map point cands))
           (fun st => incl (selectedPoints st) (map point cands))).
  - intros st p Hst Hp _ _ _. simpl.
    apply incl_app; [exact Hst|]. intros q [<-|[]]. exact Hp.
  - apply Forall_forall. intros c Hc. apply in_map. exact Hc.
  - intros p [].
Qed.

End SamplerFacts.

(** C5.  The sampler returns as many colors as positions, three numbers
    each, for at most [targetPointCount] points. *)
Theorem count_bound {N : JSNumber} (shapeBoundary : ShapeBoundary)
        (targetPointCount : nat) (random : nat -> nat) (out : PointCloud) :
  generatePointsInShape shapeBoundary targetPointCount random = Some out ->
  exists n : nat,
    List.length (out_points out) = (3 * n)%nat
    /\ List.length (out_colors out) = (3 * n)%nat
    /\ (n <= targetPointCount)%nat.
Proof.
  unfold generatePointsInShape, selection.
  destruct (candidatePoints shapeBoundary targetPointCount) as [cands|];
    [|discriminate].
  intros Hout. injection Hout as <-. simpl.
  destruct (select_counts shapeBoundary targetPointCount (shuffle random cands))
    as (Hp & Hc & Hn).
  exists (List.length (selectedPoints
            (select shapeBoundary targetPointCount (shuffle random cands)
                    empty_selection))).
  rewrite !length_map, Hp, flat_map_coords_length, Hc.
  repeat split; [exact Hn].
Qed.


(** * The shuffle is a permutation *)

Section ShuffleFacts.

Variable A : Type.
Variable random : nat -> nat.

Lemma set_nth_middle (l1 l2 : list A) (a x : A) :
  set_nth (List.length l1) x (l1 ++ a :: l2) = l1 ++ x :: l2.
Proof. induction l1 as [|b l1 IH]; simpl; [reflexivity | rewrite IH; reflexivity]. Qed.

Lemma set_nth_same (l : list A) (i : nat) (a : A) :
  nth_error l i = Some a -> set_nth i a l = l.
Proof.
  revert i. induction l as [|b l IH]; intros [|i]; simpl; try discriminate.
  - intros [= ->]. reflexivity.
  - intros H. rewrite (IH i H). reflexivity.
Qed.

(** Exchanging two distinct positions, the lower one first. *)
Lemma swap_ordered (l : list A) (i j : nat) (a b : A) :
  (i < j)%nat -> nth_error l i = Some a -> nth_error l j = Some b ->
  Permutation (set_nth j a (set_nth i b l)) l
  /\ Permutation (set_nth i b (set_nth j a l)) l.
Proof.
  intros Hij Hi Hj.
  destruct (nth_error_split l i Hi) as (l1 & r & -> & Hl1).
  rewrite nth_error_app2 in Hj by lia.
  rewrite Hl1 in Hj.
  destruct (j - i)%nat as [|k] eqn:Hk; [lia|]. simpl in Hj.
  destruct (nth_error_split r k Hj) as (l2 & l3 & -> & Hl2).
  assert (Ej : j = List.length (l1 ++ a :: l2))
    by (rewrite length_app; simpl; lia).
  assert (Perm : Permutation (l1 ++ b :: l2 ++ a :: l3)
                             (l1 ++ a :: l2 ++ b :: l3)).
  { apply Permutation_app_head.
    change (Permutation ([b] ++ l2 ++ [a] ++ l3) ([a] ++ l2 ++ [b] ++ l3)).
    rewrite !app_assoc.
    apply Permutation_app_tail.
    rewrite (Permutation_app_comm ([b] ++ l2) [a]).
    rewrite (Permutation_app_comm ([a] ++ l2) [b]).
    simpl. apply perm_swap. }
  split.
  - rewrite <- Hl1 at 1. rewrite set_nth_middle.
    replace (l1 ++ b :: l2 ++ b :: l3) with ((l1 ++ b :: l2) ++ b :: l3)
      by (rewrite <- app_assoc; reflexivity).
    replace j with (List.length (l1 ++ b :: l2))
      by (rewrite Ej, !length_app; reflexivity).
    rewrite set_nth_middle, <- app_assoc. exact Perm.
  - replace (l1 ++ a :: l2 ++ b :: l3) with ((l1 ++ a :: l2) ++ b :: l3) at 1
      by (rewrite <- app_assoc; reflexivity).
    rewrite Ej, set_nth_middle, <- app_assoc. simpl.
    rewrite <- Hl1 at 1. rewrite set_nth_middle. exact Perm.
Qed.

Lemma swap_permutation (l : list A) (i j : nat) :
  Permutation (swap i j l) l.
Proof.
  unfold swap.
  destruct (nth_error l i) as [a|] eqn:Hi; [|reflexivity].
  destruct (nth_error l j) as [b|] eqn:Hj; [|reflexivity].
  destruct (Nat.lt_trichotomy i j) as [Hlt|[->|Hgt]].
  - exact (proj1 (swap_ordered l Hlt Hi Hj)).
  - rewrite Hi in Hj. injection Hj as ->.
    rewrite (set_nth_same l j Hi), (set_nth_same l j Hi). reflexivity.
  - exact (proj2 (swap_ordered l Hgt Hj Hi)).
Qed.

Lemma shuffle_from_permutation (i k : nat) (l : list A) :
  Permutation (shuffle_from random i k l) l.
Proof.
  revert k l. induction i as [|i IH]; intros k l; simpl.
  - reflexivity.
  - rewrite IH. apply swap_permutation.
Qed.

Lemma shuffle_permutation (l : list A) : Permutation (shuffle random l) l.
Proof. apply shuffle_from_permutation. Qed.

End ShuffleFacts.

(** * Properties of the sampler in exact arithmetic *)

Section ExactFacts.

Local Open Scope R_scope.

Local Existing Instance Exact.number.

Variable shapeBoundary : @ShapeBoundary Exact.number.
Variable targetPointCount : nat.

Local Abbreviation d := (minDistance shapeBoundary targetPointCount).

Lemma floor_spec (x : R) : Exact.floor x <= x < Exact.floor x + 1.
Proof.
  unfold Exact.floor. destruct (archimed x) as [Hup Hlow].
  rewrite minus_IZR. lra.
Qed.

Lemma ceil_ge (x : R) : x <= Exact.ceil x.
Proof. unfold Exact.ceil. destruct (floor_spec (- x)). lra. Qed.

(** Two reals less than one apart fall in the same or in adjacent unit
    intervals. *)
Lemma floor_near (a b : R) :
  Rabs (a - b) < 1 ->
  exists dz : Z, In dz offsets /\ Exact.floor b = Exact.floor a + IZR dz.
Proof.
  intros Hab.
  destruct (floor_spec a) as [Ha1 Ha2], (floor_spec b) as [Hb1 Hb2].
  apply Rabs_def2 in Hab. destruct Hab as [Hlt Hgt].
  unfold Exact.floor in *.
  set (fa := (up a - 1)%Z) in *. set (fb := (up b - 1)%Z) in *.
  assert (H1 : (fb - fa < 2)%Z) by (apply lt_IZR; rewrite minus_IZR; lra).
  assert (H2 : (-2 < fb - fa)%Z) by (apply lt_IZR; rewrite minus_IZR; lra).
  exists (fb - fa)%Z. split.
  - unfold offsets. simpl.
    assert (Hc : (fb - fa = -1 \/ fb - fa = 0 \/ fb - fa = 1)%Z) by lia.
    destruct Hc as [Hc|[Hc|Hc]]; rewrite Hc; auto.
  - rewrite minus_IZR. lra.
Qed.



Lemma distanceTo_exact (p q : Vector3) : distanceTo p q = dist p q.
Proof. reflexivity. Qed.

Lemma dist_sym (p q : Vector3) : dist p q = dist q p.
Proof. unfold dist. f_equal. ring. Qed.

Lemma abs_le_sqrt_sum (a b c : R) :
  Rabs a <= sqrt (a * a + b * b + c * c)
  /\ Rabs b <= sqrt (a * a + b * b + c * c)
  /\ Rabs c <= sqrt (a * a + b * b + c * c).
Proof.
  assert (Ha : 0 <= a * a) by nra.
  assert (Hb : 0 <= b * b) by nra.
  assert (Hc : 0 <= c * c) by nra.
  repeat split.
  - rewrite <- (sqrt_Rsqr_abs a). apply sqrt_le_1_alt. unfold Rsqr. lra.
  - rewrite <- (sqrt_Rsqr_abs b). apply sqrt_le_1_alt. unfold Rsqr. lra.
  - rewrite <- (sqrt_Rsqr_abs c). apply sqrt_le_1_alt. unfold Rsqr. lra.
Qed.

Lemma cell_near (x y : R) :
  0 < d -> Rabs (x - y) < d ->
  exists dz : Z,
    In dz offsets
    /\ cell shapeBoundary targetPointCount y
       = nadd (cell shapeBoundary targetPointCount x) (of_Z dz).
Proof.
  intros Hd Hxy.
  set (m := d) in *.
  enough (H : exists dz : Z,
             In dz offsets
             /\ Exact.floor (y / m) = Exact.floor (x / m) + IZR dz)
    by exact H.
  apply floor_near.
  replace (x / m - y / m) with ((x - y) / m) by (field; lra).
  unfold Rdiv. rewrite Rabs_mult, (Rabs_pos_eq (/ m)).
  - apply (Rmult_lt_reg_r m); [exact Hd|].
    rewrite Rmult_assoc, Rinv_l by lra. lra.
  - left. apply Rinv_0_lt_compat. exact Hd.
Qed.

(** A selected point closer than the minimum distance sits in one of the
    27 cells that [isValidDistance] inspects. *)
Lemma near_is_neighbor (c p : Vector3) :
  0 < d -> dist c p < d ->
  exists dx dy dz : Z,
    In dx offsets /\ In dy offsets /\ In dz offsets
    /\ getHashKey shapeBoundary targetPointCount p
       = neighborKey shapeBoundary targetPointCount c dx dy dz.
Proof.
  intros Hd Hnear. unfold dist in Hnear.
  destruct (abs_le_sqrt_sum (vx c - vx p) (vy c - vy p) (vz c - vz p))
    as (Hx & Hy & Hz).
  destruct (cell_near (vx c) (vx p) Hd) as (dx & Hdx & Ex); [lra|].
  destruct (cell_near (vy c) (vy p) Hd) as (dy & Hdy & Ey); [lra|].
  destruct (cell_near (vz c) (vz p) Hd) as (dz & Hdz & Ez); [lra|].
  exists dx, dy, dz. repeat split; try assumption.
  unfold getHashKey, neighborKey. rewrite Ex, Ey, Ez. reflexivity.
Qed.

Lemma key_eqb_refl (key : HashKey) : key_eqb key key = true.
Proof.
  destruct key as [[x y] z]. simpl. unfold Exact.eqb.
  destruct (Req_dec_T x x), (Req_dec_T y y), (Req_dec_T z z);
    try reflexivity; contradiction.
Qed.

Lemma hash_push_adds (key : HashKey) (p : Vector3) (h : SpatialHash) :
  exists ps, hash_get key (hash_push key p h) = Some ps /\ In p ps.
Proof.
  induction h as [|[k ps0] h IH]; simpl.
  - rewrite key_eqb_refl. exists [p]. split; [reflexivity | left; reflexivity].
  - destruct (key_eqb k key) eqn:E; simpl; rewrite E.
    + exists (ps0 ++ [p]). split; [reflexivity|].
      apply in_or_app. right. left. reflexivity.
    + exact IH.
Qed.

Lemma hash_push_keeps (key key' : HashKey) (p q : Vector3)
      (h : SpatialHash) (ps : list Vector3) :
  hash_get key h = Some ps -> In q ps ->
  exists ps', hash_get key (hash_push key' p h) = Some ps' /\ In q ps'.
Proof.
  induction h as [|[k ps0] h IH]; simpl; [discriminate|].
  intros Hget Hq.
  destruct (key_eqb k key') eqn:E'; simpl;
    destruct (key_eqb k key) eqn:E.
  - injection Hget as <-. exists (ps0 ++ [p]).
    split; [reflexivity | apply in_or_app; left; exact Hq].
  - exists ps. split; assumption.
  - exists ps. split; assumption.
  - apply IH; assumption.
Qed.

Lemma isValidDistance_neighbors (h : SpatialHash) (c : Vector3) :
  isValidDistance shapeBoundary targetPointCount h c = true ->
  forall dx dy dz ps q,
    In dx offsets -> In dy offsets -> In dz offsets ->
    hash_get (neighborKey shapeBoundary targetPointCount c dx dy dz) h
    = Some ps ->
    In q ps -> d <= dist c q.
Proof.
  unfold isValidDistance. intros Hvalid dx dy dz ps q Hdx Hdy Hdz Hget Hq.
  rewrite forallb_forall in Hvalid. specialize (Hvalid dx Hdx).
  rewrite forallb_forall in Hvalid. specialize (Hvalid dy Hdy).
  rewrite forallb_forall in Hvalid. specialize (Hvalid dz Hdz).
  rewrite Hget, forallb_forall in Hvalid. specialize (Hvalid q Hq).
  unfold far_enough in Hvalid. simpl in Hvalid. unfold Exact.ltb in Hvalid.
  destruct (Rlt_dec _ _) as [Hlt|Hge]; [discriminate|].
  apply Rnot_lt_le. exact Hge.
Qed.





Lemma spaced_snoc (l : list Vector3) (c : Vector3) :
  spaced shapeBoundary targetPointCount l ->
  (forall p, In p l -> d <= dist p c) ->
  spaced shapeBoundary targetPointCount (l ++ [c]).
Proof.
  intros Hl Hc i j p q Hij Hi Hj.
  assert (Hjlen : (j < List.length (l ++ [c]))%nat)
    by (apply nth_error_Some; rewrite Hj; discriminate).
  rewrite length_app in Hjlen. simpl in Hjlen.
  rewrite nth_error_app1 in Hi by lia.
  destruct (Nat.eq_dec j (List.length l)) as [->|Hne].
  - rewrite nth_error_app2, Nat.sub_diag in Hj by lia.
    injection Hj as <-. apply Hc. eapply nth_error_In; exact Hi.
  - rewrite nth_error_app1 in Hj by lia. exact (Hl i j p q Hij Hi Hj).
Qed.

Lemma select_spaced (cands : list Candidate) :
  0 < d ->
  spaced shapeBoundary targetPointCount (selectedPoints
            (select shapeBoundary targetPointCount cands empty_selection)).
Proof.
  intros Hd.
  set (final := select shapeBoundary targetPointCount cands empty_selection).
  enough (H : filed shapeBoundary targetPointCount final
              /\ spaced shapeBoundary targetPointCount (selectedPoints final))
    by exact (proj2 H).
  apply (@select_invariant _ shapeBoundary targetPointCount (fun _ => True)
           (fun st => filed shapeBoundary targetPointCount st
                      /\ spaced shapeBoundary targetPointCount
                                  (selectedPoints st))).
  - intros st c [Hfiled Hspaced] _ _ _ Hvalid. split.
    + intros p Hp. simpl in Hp |- *. unfold addToSpatialHash.
      apply in_app_or in Hp. simpl in Hp. destruct Hp as [Hp|[<-|[]]].
      * destruct (Hfiled p Hp) as (ps & Hget & Hin).
        eapply hash_push_keeps; eassumption.
      * apply hash_push_adds.
    + simpl. apply spaced_snoc; [exact Hspaced|].
      intros p Hp. rewrite dist_sym.
      destruct (Rlt_le_dec (dist c p) d) as [Hnear|Hfar]; [|exact Hfar].
      destruct (near_is_neighbor c p Hd Hnear)
        as (dx & dy & dz & Hdx & Hdy & Hdz & Hkey).
      destruct (Hfiled p Hp) as (ps & Hget & Hin).
      rewrite Hkey in Hget.
      exact (@isValidDistance_neighbors _ c Hvalid dx dy dz ps p
               Hdx Hdy Hdz Hget Hin).
  - apply Forall_trivial_candidates.
  - split.
    + intros p [].
    + intros i j p q _ Hi. destruct i; discriminate.
Qed.

(** On the reals the counting loop stops as soon as the counter passes
    its bound, after as many iterations as there are integers [k >= 0]
    with [k <= x]. *)
Lemma trips_from_total (fuel k : nat) (x : num) :
  x < INR (k + fuel) ->
  exists n, trips_from fuel k x = Some n.
Proof.
  revert k. induction fuel as [|fuel IH]; intros k Hx; cbn [trips_from].
  - change (nle (of_Z (Z.of_nat k)) x) with (Exact.leb (IZR (Z.of_nat k)) x).
    unfold Exact.leb. rewrite <- INR_IZR_INZ.
    destruct (Rle_dec (INR k) x) as [Hle|_]; [|eexists; reflexivity].
    rewrite Nat.add_0_r in Hx. lra.
  - change (nle (of_Z (Z.of_nat k)) x) with (Exact.leb (IZR (Z.of_nat k)) x).
    destruct (Exact.leb _ _); [|eexists; reflexivity].
    destruct (IH (S k)) as [n Hn].
    + replace (S k + fuel)%nat with (k + S fuel)%nat by lia. exact Hx.
    + rewrite Hn. eexists; reflexivity.
Qed.

Lemma loop_count_total (x : num) : exists n, loop_count x = Some n.
Proof.
  unfold loop_count.
  change (loop_fuel x) with (Exact.loop_fuel x). unfold Exact.loop_fuel.
  apply trips_from_total. rewrite Nat.add_0_l.
  destruct (Rle_dec 0 x) as [Hpos|Hneg]; [|simpl; lra].
  destruct (floor_spec x) as [Hlo Hhi]. unfold Exact.floor in Hlo, Hhi.
  assert (Hup : (0 <= up x - 1)%Z).
  { apply le_IZR. apply Rnot_lt_le. intros Hlt.
    assert (Hle : (up x - 1 <= -1)%Z) by (apply lt_IZR in Hlt; lia).
    apply IZR_le in Hle. lra. }
  rewrite plus_INR, INR_IZR_INZ, Z2Nat.id by exact Hup.
  simpl INR. lra.
Qed.

(** Candidate generation always terminates on the reals. *)
Lemma grid_rows_total f idx spe rows cands :
  exists cands',
    grid_rows targetPointCount f idx spe rows cands = Some cands'.
Proof.
  revert cands. induction rows as [|i rows IH]; intros cands;
    cbn [grid_rows].
  - eexists; reflexivity.
  - destruct (loop_count_total (nsub spe (of_Z (Z.of_nat i)))) as [nj Hnj].
    rewrite Hnj. apply IH.
Qed.

Lemma sample_face_total f idx area cands :
  exists cands',
    sample_face shapeBoundary targetPointCount f idx area cands = Some cands'.
Proof.
  unfold sample_face.
  destruct (loop_count_total (samplesPerEdge shapeBoundary targetPointCount area))
    as [ni Hni].
  rewrite Hni. apply grid_rows_total.
Qed.

Lemma candidatePoints_total :
  exists cands, candidatePoints shapeBoundary targetPointCount = Some cands.
Proof.
  unfold candidatePoints.
  generalize (combine (faces shapeBoundary) (faceAreas shapeBoundary)).
  generalize (@nil Candidate). generalize 0%nat.
  intros idx cands fs. revert idx cands.
  induction fs as [|[f area] fs IH]; intros idx cands; cbn [sample_faces].
  - eexists; reflexivity.
  - destruct (sample_face_total f idx area cands) as [c' Hc'].
    rewrite Hc'. apply IH.
Qed.

Lemma minDistance_exact :
  d = sqrt (totalArea shapeBoundary / INR targetPointCount)
      * (8 / 10) * (7 / 10).
Proof.
  unfold minDistance, avgSpacing, target. simpl. unfold Exact.dec. simpl.
  rewrite <- INR_IZR_INZ. reflexivity.
Qed.

Lemma minDistance_pos :
  0 < totalArea shapeBoundary -> (1 <= targetPointCount)%nat -> 0 < d.
Proof.
  intros Harea Htarget. rewrite minDistance_exact.
  assert (Hn : 0 < INR targetPointCount) by (apply lt_0_INR; lia).
  assert (Hq : 0 < totalArea shapeBoundary / INR targetPointCount)
    by (apply Rdiv_lt_0_compat; assumption).
  pose proof (sqrt_lt_R0 _ Hq) as Hs. nra.
Qed.

(** **** Candidates lie on the faces *)







Lemma samplesPerEdge_pos (area : num) :
  1 <= samplesPerEdge shapeBoundary targetPointCount area.
Proof.
  unfold samplesPerEdge, faceSamples.
  change (1 <= Exact.ceil (sqrt (Rmax 1
            (Exact.floor (area / totalArea shapeBoundary
                          * IZR (Z.of_nat targetPointCount) * 3))))).
  eapply Rle_trans; [|apply ceil_ge].
  rewrite <- sqrt_1 at 1. apply sqrt_le_1_alt. apply Rmax_l.
Qed.

Lemma grid_node_on_surface f idx (spe : num) i j cands :
  In f (faces shapeBoundary) -> 0 < spe ->
  all_on_surface shapeBoundary cands ->
  all_on_surface shapeBoundary (grid_node f idx spe i j cands).
Proof.
  intros Hf Hspe Hall. unfold grid_node.
  destruct (nle (of_Z 0) (bary_w spe i j)) eqn:Hw; [|exact Hall].
  apply Forall_app. split; [exact Hall|]. constructor; [|constructor].
  simpl. exists f. split; [exact Hf|].
  destruct f as [[v1 v2] v3].
  exists (IZR (Z.of_nat i) / spe), (IZR (Z.of_nat j) / spe),
         (1 - IZR (Z.of_nat i) / spe - IZR (Z.of_nat j) / spe).
  assert (Hi : 0 <= IZR (Z.of_nat i)) by (apply IZR_le; lia).
  assert (Hj : 0 <= IZR (Z.of_nat j)) by (apply IZR_le; lia).
  repeat split.
  - apply Rle_mult_inv_pos; assumption.
  - apply Rle_mult_inv_pos; assumption.
  - unfold bary_w, bary_u in Hw. simpl in Hw. unfold Exact.leb in Hw.
    destruct (Rle_dec _ _) as [Hle|]; [exact Hle | discriminate].
  - ring.
  - simpl. unfold bary_w, bary_u. simpl. ring.
  - simpl. unfold bary_w, bary_u. simpl. ring.
  - simpl. unfold bary_w, bary_u. simpl. ring.
Qed.

Lemma grid_row_on_surface f idx (spe : num) i js cands :
  In f (faces shapeBoundary) -> 0 < spe ->
  all_on_surface shapeBoundary cands ->
  all_on_surface shapeBoundary (grid_row targetPointCount f idx spe i js cands).
Proof.
  intros Hf Hspe. revert cands.
  induction js as [|j js IH]; intros cands Hall; simpl; [exact Hall|].
  destruct (targetPointCount * 5 <=? List.length cands)%nat; [exact Hall|].
  apply IH. apply grid_node_on_surface; assumption.
Qed.

Lemma grid_rows_on_surface f idx (spe : num) rows cands cands' :
  In f (faces shapeBoundary) -> 0 < spe ->
  all_on_surface shapeBoundary cands ->
  grid_rows targetPointCount f idx spe rows cands = Some cands' ->
  all_on_surface shapeBoundary cands'.
Proof.
  intros Hf Hspe. revert cands.
  induction rows as [|i rows IH]; intros cands Hall; simpl.
  - intros [= <-]. exact Hall.
  - destruct (loop_count _) as [nj|]; [|discriminate].
    apply IH. apply grid_row_on_surface; assumption.
Qed.

Lemma sample_faces_on_surface fs idx cands cands' :
  (forall f area, In (f, area) fs -> In f (faces shapeBoundary)) ->
  all_on_surface shapeBoundary cands ->
  sample_faces shapeBoundary targetPointCount fs idx cands = Some cands' ->
  all_on_surface shapeBoundary cands'.
Proof.
  revert idx cands.
  induction fs as [|[f area] fs IH]; intros idx cands Hfs Hall;
    cbn [sample_faces].
  - intros [= <-]. exact Hall.
  - destruct (sample_face shapeBoundary targetPointCount f idx area cands)
      as [mid|] eqn:Hmid; [|discriminate].
    apply IH.
    + intros f' area' Hin. apply (Hfs f' area'). right. exact Hin.
    + unfold sample_face in Hmid.
      destruct (loop_count _) as [ni|]; [|discriminate].
      eapply grid_rows_on_surface; [| |exact Hall|exact Hmid].
      * apply (Hfs f area). left. reflexivity.
      * pose proof (samplesPerEdge_pos area). lra.
Qed.

Lemma candidates_on_surface cands :
  candidatePoints shapeBoundary targetPointCount = Some cands ->
  all_on_surface shapeBoundary cands.
Proof.
  unfold candidatePoints.
  apply sample_faces_on_surface; [|constructor].
  intros f area Hin. eapply in_combine_l. exact Hin.
Qed.

Lemma select_on_surface cands :
  all_on_surface shapeBoundary cands ->
  Forall (on_surface shapeBoundary)
         (selectedPoints
            (select shapeBoundary targetPointCount cands empty_selection)).
Proof.
  intros Hall.
  apply (@select_invariant _ shapeBoundary targetPointCount
           (on_surface shapeBoundary)
           (fun st => Forall (on_surface shapeBoundary) (selectedPoints st))).
  - intros st p Hst Hp _ _ _. simpl.
    apply Forall_app. split; [exact Hst | constructor; [exact Hp | constructor]].
  - exact Hall.
  - constructor.
Qed.

End ExactFacts.

Section ExactColors.

Local Open Scope R_scope.
Local Existing Instance Exact.number.

Variable shapeBoundary : @ShapeBoundary Exact.number.

Lemma intensity_range (p : Vector3) :
  3 / 10 <= intensity shapeBoundary p <= 1.
Proof.
  unfold intensity.
  change (nmax (dec 3 1)) with (Rmax (3 / 10)).
  change (nmin (of_Z 1)) with (Rmin 1).
  split.
  - apply Rmax_l.
  - apply Rmax_lub; [lra | apply Rmin_l].
Qed.



Lemma color_exact (p : Vector3) :
  color shapeBoundary p = rgb (intensity shapeBoundary p).
Proof. reflexivity. Qed.

End ExactColors.




(** * Properties of the sampler in IEEE arithmetic *)

Section IEEEFacts.

Variable sin_impl cos_impl : spec_float -> spec_float.

Local Existing Instance IEEE.number.
Local Abbreviation F := (IEEE.number sin_impl cos_impl).
Local Abbreviation FI := (IEEE.number_inf sin_impl cos_impl).

Lemma eq_zero_inv (a : spec_float) :
  SFeqb a (S754_zero false) = true -> exists s, a = S754_zero s.
Proof.
  destruct a as [s|s| |s m e]; simpl; try discriminate.
  - intros _. exists s. reflexivity.
  - destruct s; discriminate.
  - destruct s; discriminate.
Qed.

(** A face of zero area draws no grid: its sample count is NaN. *)
Lemma samplesPerEdge_nan (b : @ShapeBoundary F) (T : nat)
      (area : spec_float) (s s' : bool) :
  area = S754_zero s -> totalArea b = S754_zero s' ->
  samplesPerEdge b T area = S754_nan.
Proof.
  intros -> Hb. unfold samplesPerEdge, faceSamples. rewrite Hb.
  reflexivity.
Qed.

Lemma sample_nothing (b : @ShapeBoundary F) (T : nat) (f : Face)
      (area : spec_float) (s s' : bool) :
  faces b = [f] -> faceAreas b = [area] ->
  area = S754_zero s -> totalArea b = S754_zero s' ->
  candidatePoints b T = Some [].
Proof.
  intros Hf Ha Harea Htotal.
  unfold candidatePoints. rewrite Hf, Ha. cbn [combine sample_faces].
  unfold sample_face.
  rewrite (samplesPerEdge_nan b T Harea Htotal). reflexivity.
Qed.

Lemma single_face (v1 v2 v3 : @Vector3 F) :
  let b :=
    defineShapeBoundary (I := FI) (coords v1 ++ coords v2 ++ coords v3) in
  faces b = [(v1, v2, v3)]
  /\ faceAreas b = [face_area (v1, v2, v3)]
  /\ totalArea b = nadd (of_Z 0) (face_area (v1, v2, v3)).
Proof.
  destruct v1 as [x1 y1 z1], v2 as [x2 y2 z2], v3 as [x3 y3 z3].
  unfold defineShapeBoundary.
  destruct (fold_left grow _ _) as [lo hi].
  repeat split.
Qed.

(** Once the height factor is NaN, so is every color component. *)
Lemma color_nan (b : @ShapeBoundary F) (p : Vector3) :
  heightFactor b p = S754_nan ->
  color b p = [S754_nan; S754_nan; S754_nan].
Proof.
  intros Hh. unfold color, intensity. rewrite Hh. reflexivity.
Qed.

End IEEEFacts.


Section FlatMesh.

Variable sin_impl cos_impl : spec_float -> spec_float.

Local Abbreviation F := (IEEE.number sin_impl cos_impl).
Local Abbreviation FI := (IEEE.number_inf sin_impl cos_impl).





Lemma flat_boundary_eq :
  defineShapeBoundary (N := F) (I := FI) flat_triangle
  = flat_boundary sin_impl cos_impl.
Proof. reflexivity. Qed.

Lemma flat_candidates_eq :
  candidatePoints (flat_boundary sin_impl cos_impl) 1
  = Some (flat_candidates sin_impl cos_impl).
Proof. reflexivity. Qed.

Lemma flat_candidates_nan (p : Vector3) :
  In p (map point (flat_candidates sin_impl cos_impl)) ->
  color (flat_boundary sin_impl cos_impl) p = [S754_nan; S754_nan; S754_nan].
Proof.
  intros Hp. apply color_nan.
  unfold flat_candidates in Hp. cbn [map point In] in Hp.
  repeat (destruct Hp as [<-|Hp]; [vm_compute; reflexivity|]).
  destruct Hp.
Qed.

Lemma flat_candidates_valid :
  Exists (fun c => isPointInValidRegion (flat_boundary sin_impl cos_impl)
                                        (point c) = true)
         (flat_candidates sin_impl cos_impl).
Proof. apply Exists_cons_hd. vm_compute. reflexivity. Qed.

End FlatMesh.

(** C2.  On a triangle lying in the plane [y = 0] the bounding box has a
    zero y-extent, and for a target of one point every shuffle and every
    [Math.sin]/[Math.cos] make the pipeline emit the color
    [(NaN, NaN, NaN)]: the division by the extent is not guarded. *)
Theorem flat_mesh_colors_nan (sin_impl cos_impl : spec_float -> spec_float)
        (random : nat -> nat) :
  let F := IEEE.number sin_impl cos_impl in
  let b := defineShapeBoundary (N := F) (I := IEEE.number_inf sin_impl cos_impl)
             flat_triangle in
  SFeqb (vy (box_size (boundingBox b))) (S754_zero false) = true
  /\ exists out,
       createSparsePointCloud (N := F) (I := IEEE.number_inf sin_impl cos_impl)
         flat_triangle 1 random = Some out
       /\ out_colors out = [S754_nan; S754_nan; S754_nan].
Proof.
  intros F b. unfold createSparsePointCloud. subst b F.
  rewrite flat_boundary_eq.
  split; [reflexivity|].
  unfold generatePointsInShape, selection.
  rewrite flat_candidates_eq.
  eexists; split; [reflexivity|]. cbn [out_colors].
  set (b := flat_boundary sin_impl cos_impl).
  set (cands := shuffle random (flat_candidates sin_impl cos_impl)).
  set (st := select b 1 cands empty_selection).
  assert (Hperm : Permutation cands (flat_candidates sin_impl cos_impl))
    by apply shuffle_permutation.
  assert (Hex : Exists (fun c => isPointInValidRegion b (point c) = true) cands).
  { apply Exists_exists.
    pose proof (flat_candidates_valid sin_impl cos_impl) as Hvalid.
    apply Exists_exists in Hvalid. destruct Hvalid as (c & Hin & Hok).
    exists c. split; [|exact Hok].
    eapply Permutation_in; [symmetry; exact Hperm | exact Hin]. }
  pose proof (select_nonempty b (le_n 1) Hex) as Hne. fold st in Hne.
  destruct (select_counts b 1 cands) as (_ & _ & Hle). fold st in Hle.
  pose proof (select_colors b 1 cands) as Hcol. fold st in Hcol.
  pose proof (select_from_candidates b 1 cands) as Hincl. fold st in Hincl.
  cbv zeta in Hcol. rewrite Hcol.
  destruct (selectedPoints st) as [|p [|q rest]] eqn:Hsel;
    [contradiction | | simpl in Hle; lia].
  cbn [flat_map]. rewrite app_nil_r.
  unfold b. rewrite flat_candidates_nan; [reflexivity|].
  eapply Permutation_in; [apply Permutation_map; exact Hperm|].
  apply Hincl. left. reflexivity.
Qed.

Section PeakMesh.

Variable sin_impl cos_impl : spec_float -> spec_float.

Local Abbreviation F := (IEEE.number sin_impl cos_impl).
Local Abbreviation FI := (IEEE.number_inf sin_impl cos_impl).





Lemma peak_selection_eq :
  selection (defineShapeBoundary (N := F) (I := FI) peak_triangle)
            1 keep_order
  = Some (peak_selection sin_impl cos_impl).
Proof. reflexivity. Qed.

Lemma peak_cloud_eq :
  createSparsePointCloud (N := F) (I := FI) peak_triangle 1 keep_order
  = Some (peak_cloud sin_impl cos_impl).
Proof. reflexivity. Qed.



Lemma peak_blue_emitted :
  In peak_blue (out_colors (peak_cloud sin_impl cos_impl)).
Proof. right. right. left. reflexivity. Qed.

Lemma peak_blue_above_one : SFleb peak_blue (IEEE.of_Z 1) = false.
Proof. reflexivity. Qed.

End PeakMesh.

(** * The examples, run *)

(** C1, as stated, fails: [short_record_buffer] is taken as binary and
    declares one triangle, hence 134 bytes, but holds 132; decoding does not
    fail and returns the nine coordinates. *)
Lemma truncated_counterexample :
  isASCII short_record_buffer = false
  /\ getUint32 short_record_buffer 80 = Ok 1%Z
  /\ (List.length short_record_buffer < 84 + 50 * 1)%nat
  /\ parseSTL IEEE.f32_of_bits IEEE.to_f32 IEEE.Number short_record_buffer
     = Ok (repeat (S754_zero false) 9).
Proof.
  split; [reflexivity|]. split; [reflexivity|].
  split; [simpl; lia | vm_compute; reflexivity].
Qed.

Lemma truncated_binary_witness :
  isASCII count_only_buffer = false
  /\ getUint32 count_only_buffer 80 = Ok 1%Z
  /\ ((List.length count_only_buffer < 84 + 50 * Z.to_nat 1 - 2)%nat ->
      parseSTL IEEE.f32_of_bits IEEE.to_f32 IEEE.Number count_only_buffer
      = Throw RangeError)
  /\ ((84 + 50 * Z.to_nat 1 - 2 <= List.length count_only_buffer)%nat ->
      exists vertices,
        parseSTL IEEE.f32_of_bits IEEE.to_f32 IEEE.Number count_only_buffer
        = Ok vertices
        /\ List.length vertices = (9 * Z.to_nat 1)%nat).
Proof.
  assert (Hbinary : isASCII count_only_buffer = false) by reflexivity.
  assert (Hcount : getUint32 count_only_buffer 80 = Ok 1%Z) by reflexivity.
  split; [exact Hbinary|]. split; [exact Hcount|].
  exact (truncated_binary IEEE.f32_of_bits IEEE.to_f32 IEEE.Number
           count_only_buffer Hbinary Hcount).
Defined.

(** C7, as stated, fails: the line [vertex 1 2] carries two numbers, and
    the buffer decodes to the two-element sequence [1, 2]. *)
Lemma short_vertex_counterexample :
  isASCII (bytes_of_string "vertex 1 2") = true
  /\ parseSTL IEEE.f32_of_bits IEEE.to_f32 IEEE.Number
       (bytes_of_string "vertex 1 2")
     = Ok [IEEE.of_Z 1; IEEE.of_Z 2].
Proof. split; vm_compute; reflexivity. Qed.

Lemma short_vertex_line_witness :
  well_separated two_tokens
  /\ (String.length (vertex_text two_tokens) < 80)%nat
  /\ parseSTL IEEE.f32_of_bits IEEE.to_f32 IEEE.Number
       (bytes_of_string (vertex_text two_tokens))
     = Ok (map (fun st => IEEE.to_f32 (IEEE.Number (snd st))) two_tokens).
Proof.
  assert (Hsep : well_separated two_tokens).
  { repeat constructor; simpl; discriminate. }
  assert (Hshort : (String.length (vertex_text two_tokens) < 80)%nat)
    by (simpl; lia).
  split; [exact Hsep|]. split; [exact Hshort|].
  exact (short_vertex_line IEEE.f32_of_bits IEEE.to_f32 IEEE.Number
           Hsep Hshort).
Defined.

Lemma decoder_round_trip_witness :
  List.length zero_header = 80%nat
  /\ String.eqb (decode_text (firstn 5 zero_header)) "solid" = false
  /\ (Z.of_nat (List.length [sample_record]) < 2 ^ 32)%Z
  /\ Forall f32_record [sample_record]
  /\ parseSTL IEEE.f32_of_bits IEEE.to_f32 IEEE.Number
       (spec_encodeBinarySTL IEEE.bits_of_f32 zero_header [sample_record])
     = Ok (flat_map (@corners spec_float) [sample_record]).
Proof.
  assert (Hheader : List.length zero_header = 80%nat) by reflexivity.
  assert (Hsolid : String.eqb (decode_text (firstn 5 zero_header)) "solid"
                   = false) by reflexivity.
  assert (Hcount : (Z.of_nat (List.length [sample_record]) < 2 ^ 32)%Z)
    by reflexivity.
  assert (Hzero : IEEE.is_f32 (IEEE.of_Z 0)).
  { exists 0%Z. split; [lia | reflexivity]. }
  assert (Hone : IEEE.is_f32 (IEEE.of_Z 1)).
  { exists 1065353216%Z. split; [lia | reflexivity]. }
  assert (Hwf : Forall f32_record [sample_record]).
  { constructor; [|constructor].
    split; [reflexivity|]. split; [reflexivity|]. split; [reflexivity|].
    simpl. repeat constructor; assumption. }
  split; [exact Hheader|]. split; [exact Hsolid|].
  split; [exact Hcount|]. split; [exact Hwf|].
  exact (decoder_round_trip IEEE.Number zero_header
           Hheader Hsolid Hcount Hwf).
Defined.

Lemma count_bound_witness :
  generatePointsInShape
    (defineShapeBoundary (N := ieee) (I := ieee_inf) peak_triangle)
    1 keep_order
  = Some (peak_cloud first_order_sin first_order_cos)
  /\ exists n : nat,
      List.length (out_points (peak_cloud first_order_sin first_order_cos))
      = (3 * n)%nat
      /\ List.length (out_colors (peak_cloud first_order_sin first_order_cos))
         = (3 * n)%nat
      /\ (n <= 1)%nat.
Proof.
  assert (Hrun : generatePointsInShape
                   (defineShapeBoundary (N := ieee) (I := ieee_inf) peak_triangle)
                   1 keep_order
                 = Some (peak_cloud first_order_sin first_order_cos))
    by apply peak_cloud_eq.
  split; [exact Hrun | exact (count_bound _ _ _ Hrun)].
Defined.






(** * More on the binary decoder *)

Section TrailingBytes.

Variable num : Type.
Variable f32_of_bits : Z -> num.
Variable toFloat32 : num -> num.
Variable Number : string -> num.

Lemma view_bytes_app (view extra : list byte) (off n : nat) (bs : list byte) :
  view_bytes view off n = Ok bs ->
  view_bytes (view ++ extra) off n = Ok bs.
Proof.
  unfold view_bytes.
  destruct (off + n <=? List.length view)%nat eqn:E; [|discriminate].
  apply Nat.leb_le in E. intros H. injection H as <-.
  assert (E' : (off + n <=? List.length (view ++ extra))%nat = true)
    by (apply Nat.leb_le; rewrite length_app; lia).
  rewrite E'. f_equal.
  rewrite skipn_app.
  replace (off - List.length view)%nat with O by lia.
  rewrite firstn_app, length_skipn.
  replace (n - (List.length view - off))%nat with O by lia.
  simpl. rewrite app_nil_r. reflexivity.
Qed.

Lemma read_floats_app (view extra : list byte) (k off : nat)
      (acc : list num) (r : list num * nat) :
  read_floats f32_of_bits view off k acc = Ok r ->
  read_floats f32_of_bits (view ++ extra) off k acc = Ok r.
Proof.
  revert off acc. induction k as [|k IH]; intros off acc; cbn [read_floats].
  - exact (fun H => H).
  - unfold getFloat32.
    destruct (view_bytes view off 4) as [bs|e] eqn:E; [|discriminate].
    rewrite (view_bytes_app _ extra _ _ E). cbn [bind]. apply IH.
Qed.

Lemma read_records_app (view extra : list byte) (n off : nat)
      (acc vertices : list num) :
  read_records f32_of_bits view off n acc = Ok vertices ->
  read_records f32_of_bits (view ++ extra) off n acc = Ok vertices.
Proof.
  revert off acc. induction n as [|n IH]; intros off acc; cbn [read_records].
  - exact (fun H => H).
  - destruct (read_floats f32_of_bits view (off + 12) 9 acc) as [[vs off']|e]
      eqn:E; [|discriminate].
    rewrite (read_floats_app _ extra _ _ _ E). cbn [bind]. apply IH.
Qed.

End TrailingBytes.

(** X1.  Bytes behind the declared records are never read: a buffer
    that decodes in binary mode decodes to the same vertices with anything
    appended to it. *)
Theorem trailing_bytes_ignored (num : Type) (f32_of_bits : Z -> num)
        (toFloat32 : num -> num) (Number : string -> num)
        (buffer extra : list byte) (vertices : list num) :
  isASCII buffer = false ->
  parseSTL f32_of_bits toFloat32 Number buffer = Ok vertices ->
  parseSTL f32_of_bits toFloat32 Number (buffer ++ extra) = Ok vertices.
Proof.
  intros Hbinary. unfold parseSTL. rewrite Hbinary.
  assert (Hbinary' : isASCII (buffer ++ extra) = false).
  { unfold isASCII in *. apply orb_false_iff in Hbinary.
    destruct Hbinary as [Hlen Hsolid]. apply Nat.ltb_ge in Hlen.
    apply orb_false_iff. split.
    - apply Nat.ltb_ge. rewrite length_app. lia.
    - rewrite firstn_app.
      replace (5 - List.length buffer)%nat with O by lia.
      simpl. rewrite app_nil_r. exact Hsolid. }
  rewrite Hbinary'. unfold parseBinarySTL, getUint32.
  destruct (view_bytes buffer 80 4) as [bs|e] eqn:E; [|discriminate].
  rewrite (view_bytes_app _ extra _ _ E). cbn [bind].
  destruct (read_records f32_of_bits buffer 84 (Z.to_nat (le_uint bs)) [])
    as [vs|e] eqn:R; [|discriminate].
  rewrite (read_records_app _ _ extra _ _ _ R). exact (fun H => H).
Qed.

(** X2.  A binary-mode buffer of 80 to 83 bytes has no room for the
    count field: the read of the count at offset 80 leaves the buffer and
    decoding fails with [RangeError]. *)
Theorem count_field_missing (num : Type) (f32_of_bits : Z -> num)
        (toFloat32 : num -> num) (Number : string -> num)
        (buffer : list byte) :
  (80 <= List.length buffer < 84)%nat ->
  String.eqb (decode_text (firstn 5 buffer)) "solid" = false ->
  parseSTL f32_of_bits toFloat32 Number buffer = Throw RangeError.
Proof.
  intros Hlen Hsolid. unfold parseSTL, isASCII.
  rewrite Hsolid, orb_false_r.
  destruct (Nat.ltb_ge (List.length buffer) 80) as [_ ->]; [|lia].
  unfold parseBinarySTL, getUint32.
  rewrite view_bytes_outside by lia. reflexivity.
Qed.

Section WordsFacts.

Variable num : Type.
Variable f32_of_bits : Z -> num.

Lemma read_floats_words (ws : list Z) (pre post : list byte)
      (acc : list num) :
  Forall (fun w => 0 <= w < 2 ^ 32)%Z ws ->
  read_floats f32_of_bits
    (pre ++ flat_map (encode_float (fun w : Z => w)) ws ++ post)
    (List.length pre) (List.length ws) acc
  = Ok (acc ++ map f32_of_bits ws, (List.length pre + 4 * List.length ws)%nat).
Proof.
  revert pre acc. induction ws as [|w ws IH]; intros pre acc Hws.
  - simpl. rewrite app_nil_r, Nat.add_0_r. reflexivity.
  - inversion Hws as [|? ? Hw Hrest]; subst.
    cbn [flat_map List.length read_floats].
    unfold getFloat32.
    rewrite <- app_assoc.
    pose proof (view_bytes_middle pre (encode_float (fun w : Z => w) w)
                  (flat_map (encode_float (fun w : Z => w)) ws ++ post))
      as Hview.
    rewrite encode_float_length in Hview.
    rewrite Hview. cbn [bind].
    rewrite (@le_uint_encode_float Z (fun w : Z => w) w Hw).
    specialize (IH (pre ++ encode_float (fun w : Z => w) w)
                   (acc ++ [f32_of_bits w]) Hrest).
    rewrite length_app, encode_float_length in IH.
    rewrite <- app_assoc in IH. rewrite IH.
    rewrite <- app_assoc. simpl. f_equal. f_equal. lia.
Qed.

Lemma read_records_words (records : list (stl_record Z))
      (pre post : list byte) (acc : list num) :
  Forall word_record records ->
  read_records f32_of_bits
    (pre ++ flat_map (encode_record (fun w : Z => w)) records ++ post)
    (List.length pre) (List.length records) acc
  = Ok (acc ++ map f32_of_bits (flat_map (@corners Z) records)).
Proof.
  revert pre acc. induction records as [|r rs IH]; intros pre acc Hwf.
  - simpl. rewrite app_nil_r. reflexivity.
  - inversion Hwf as [|? ? (Hn & Hc & Ha & Hw) Hrest]; subst.
    cbn [flat_map List.length read_records].
    unfold encode_record at 1.
    replace (pre ++ ((normal r
                        ++ flat_map (encode_float (fun w : Z => w)) (corners r)
                        ++ attribute r)
                       ++ flat_map (encode_record (fun w : Z => w)) rs)
                 ++ post)
      with ((pre ++ normal r)
              ++ flat_map (encode_float (fun w : Z => w)) (corners r)
              ++ (attribute r
                    ++ flat_map (encode_record (fun w : Z => w)) rs ++ post))
      by (rewrite <- !app_assoc; reflexivity).
    replace (List.length pre + 12)%nat with (List.length (pre ++ normal r))
      by (rewrite length_app; lia).
    rewrite <- Hc at 1.
    rewrite read_floats_words by exact Hw. cbn [bind].
    specialize (IH (pre ++ encode_record (fun w : Z => w) r)
                   (acc ++ map f32_of_bits (corners r)) Hrest).
    replace (List.length (pre ++ normal r) + 4 * List.length (corners r)
             + 2)%nat
      with (List.length (pre ++ encode_record (fun w : Z => w) r)).
    + rewrite map_app, (app_assoc acc), <- IH. f_equal.
      unfold encode_record. rewrite <- !app_assoc. reflexivity.
    + unfold encode_record. rewrite !length_app.
      rewrite encode_floats_length. lia.
Qed.

End WordsFacts.

(** X3.  What the binary decoder reads.  For a buffer made of an
    80-byte header that does not spell [solid], the record count, the
    records and any trailing bytes, the result is the nine 32-bit words of
    each record's vertex block, in order, each taken through [getFloat32]
    and the conversion to [Float32Array].  The header, the 12 bytes in front
    of a vertex block, the 2 bytes behind it and the trailing bytes have no
    influence. *)
Theorem vertex_words_decoded (num : Type) (f32_of_bits : Z -> num)
        (toFloat32 : num -> num) (Number : string -> num)
        (header extra : list byte) (records : list (stl_record Z)) :
  List.length header = 80%nat ->
  String.eqb (decode_text (firstn 5 header)) "solid" = false ->
  (Z.of_nat (List.length records) < 2 ^ 32)%Z ->
  Forall word_record records ->
  parseSTL f32_of_bits toFloat32 Number (words_buffer header records ++ extra)
  = Ok (map (fun w => toFloat32 (f32_of_bits w))
            (flat_map (@corners Z) records)).
Proof.
  intros Hheader Hsolid Hcount Hwf.
  unfold parseSTL, words_buffer.
  change (flat_map record_bytes records)
    with (flat_map (encode_record (fun w : Z => w)) records).
  rewrite <- !app_assoc.
  assert (Hbinary :
            isASCII
              (header ++ le_bytes 4 (Z.of_nat (List.length records))
                      ++ flat_map (encode_record (fun w : Z => w)) records
                      ++ extra)
            = false).
  { unfold isASCII. rewrite firstn_app, Hheader. simpl (5 - 80)%nat.
    rewrite firstn_O, app_nil_r, Hsolid, orb_false_r.
    apply Nat.ltb_ge. rewrite length_app. lia. }
  rewrite Hbinary. unfold parseBinarySTL, getUint32.
  pose proof (view_bytes_middle header
                (le_bytes 4 (Z.of_nat (List.length records)))
                (flat_map (encode_record (fun w : Z => w)) records ++ extra))
    as Hview.
  rewrite Hheader, le_bytes_length in Hview. rewrite Hview. cbn [bind].
  rewrite le_uint_le_bytes
    by (change (256 ^ Z.of_nat 4)%Z with (2 ^ 32)%Z; lia).
  rewrite Nat2Z.id.
  pose proof (read_records_words f32_of_bits
                (header ++ le_bytes 4 (Z.of_nat (List.length records)))
                extra [] Hwf) as Hread.
  rewrite length_app, Hheader, le_bytes_length in Hread.
  rewrite <- app_assoc in Hread.
  change (80 + 4)%nat with 84%nat in Hread. rewrite Hread. cbn [bind app].
  rewrite map_map. reflexivity.
Qed.

Section ReadValues.

Variable num : Type.
Variable f32_of_bits : Z -> num.

(** A property of every number that a 32-bit pattern denotes. *)
Variable P : num -> Prop.
Hypothesis pattern_values : forall w, (0 <= w < 2 ^ 32)%Z -> P (f32_of_bits w).

Lemma byte_val_bound (b : byte) : (0 <= byte_val b < 256)%Z.
Proof.
  unfold byte_val. pose proof (Byte.to_N_bounded b) as H. lia.
Qed.

Lemma le_uint_bound (bs : list byte) :
  (0 <= le_uint bs < 256 ^ Z.of_nat (List.length bs))%Z.
Proof.
  induction bs as [|b bs IH]; [simpl; lia|].
  cbn [le_uint List.length]. rewrite Nat2Z.inj_succ, Z.pow_succ_r by lia.
  pose proof (byte_val_bound b). lia.
Qed.

Lemma view_bytes_length (view : list byte) (off n : nat) (bs : list byte) :
  view_bytes view off n = Ok bs -> List.length bs = n.
Proof.
  unfold view_bytes.
  destruct (off + n <=? List.length view)%nat eqn:E; [|discriminate].
  apply Nat.leb_le in E. intros H. injection H as <-.
  rewrite length_firstn, length_skipn. lia.
Qed.

Lemma read_floats_values (view : list byte) (k off : nat)
      (acc : list num) (r : list num * nat) :
  read_floats f32_of_bits view off k acc = Ok r ->
  Forall P acc -> Forall P (fst r).
Proof.
  revert off acc. induction k as [|k IH]; intros off acc; cbn [read_floats].
  - intros H Hacc. injection H as <-. exact Hacc.
  - unfold getFloat32.
    destruct (view_bytes view off 4) as [bs|e] eqn:E; [|discriminate].
    cbn [bind]. intros H Hacc. apply (IH _ _ H).
    apply Forall_app. split; [exact Hacc|]. constructor; [|constructor].
    apply pattern_values.
    pose proof (le_uint_bound bs) as Hb.
    rewrite (view_bytes_length _ _ _ E) in Hb.
    change (256 ^ Z.of_nat 4)%Z with (2 ^ 32)%Z in Hb. exact Hb.
Qed.

Lemma read_records_values (view : list byte) (n off : nat)
      (acc vertices : list num) :
  read_records f32_of_bits view off n acc = Ok vertices ->
  Forall P acc -> Forall P vertices.
Proof.
  revert off acc. induction n as [|n IH]; intros off acc; cbn [read_records].
  - intros H Hacc. injection H as <-. exact Hacc.
  - destruct (read_floats f32_of_bits view (off + 12) 9 acc) as [[vs off']|e]
      eqn:E; [|discriminate].
    cbn [bind]. intros H Hacc. apply (IH _ _ H).
    exact (read_floats_values _ _ _ E Hacc).
Qed.

End ReadValues.

Lemma to_f32_of_bits (b : Z) :
  (0 <= b < 2 ^ 32)%Z ->
  IEEE.to_f32 (IEEE.f32_of_bits b) = IEEE.f32_of_bits b.
Proof.
  intros Hb. destruct (pattern_fields b Hb) as (Hex & Hmant & _).
  unfold IEEE.f32_of_bits.
  set (s := Z.testbit b 31) in *.
  set (ex := ((b / 2 ^ 23) mod 256)%Z) in *.
  set (mant := (b mod 2 ^ 23)%Z) in *.
  destruct (Z.eq_dec ex 255) as [E255|E255].
  - destruct (Z.eq_dec mant 0) as [E0|E0].
    + exact (proj2 (value_bits s ex mant Hex Hmant (fun _ => E0))).
    + unfold IEEE.f32_value. rewrite E255. simpl (255 =? 255)%Z.
      destruct (mant =? 0)%Z eqn:E; [apply Z.eqb_eq in E; contradiction|].
      reflexivity.
  - assert (Hinf : ex = 255%Z -> mant = 0%Z) by (intros; contradiction).
    exact (proj2 (value_bits s ex mant Hex Hmant Hinf)).
Qed.


(** * More on the ASCII decoder *)

Section LineFacts.

Local Open Scope string_scope.

Lemma split_lines_nonempty (s : string) : split_lines s <> [].
Proof.
  induction s as [|c s IH]; simpl; [discriminate|].
  destruct (Ascii.eqb c newline); [discriminate|].
  destruct (split_lines s); [contradiction | discriminate].
Qed.

Lemma split_lines_app (a b : string) :
  split_lines (a ++ String newline b) = (split_lines a ++ split_lines b)%list.
Proof.
  induction a as [|c a IH]; cbn [append split_lines].
  - rewrite Ascii.eqb_refl. reflexivity.
  - destruct (Ascii.eqb c newline); rewrite IH; [reflexivity|].
    pose proof (split_lines_nonempty a) as Hne.
    destruct (split_lines a) as [|l ls]; [contradiction | reflexivity].
Qed.

Lemma trim_start_blanks (pre s : string) :
  string_forallb is_blank pre = true ->
  trim_start (pre ++ s) = trim_start s.
Proof.
  induction pre as [|c pre IH]; simpl; [reflexivity|].
  intros H. apply andb_true_iff in H. destruct H as [Hc Hpre].
  rewrite (blank_is_ws _ Hc). apply IH. exact Hpre.
Qed.

Lemma trim_end_blank (post : string) :
  string_forallb is_blank post = true -> trim_end post = "".
Proof.
  induction post as [|c post IH]; simpl; [reflexivity|].
  intros H. apply andb_true_iff in H. destruct H as [Hc Hpost].
  rewrite (IH Hpost), (blank_is_ws _ Hc). reflexivity.
Qed.

Lemma trim_end_blanks (s post : string) :
  string_forallb is_blank post = true ->
  trim_end (s ++ post) = trim_end s.
Proof.
  intros Hpost. induction s as [|c s IH].
  - simpl. apply trim_end_blank. exact Hpost.
  - cbn [append trim_end]. rewrite IH. reflexivity.
Qed.

End LineFacts.

(** X5.  The ASCII scan treats each line on its own: the numbers
    of a text are those of its first part followed by those of the rest,
    wherever the text is cut at a line feed. *)
Theorem lines_scanned_independently (num : Type) (toFloat32 : num -> num)
        (Number : string -> num) (a b : string) :
  parseASCIISTL toFloat32 Number (a ++ String newline b)
  = parseASCIISTL toFloat32 Number a ++ parseASCIISTL toFloat32 Number b.
Proof.
  unfold parseASCIISTL.
  rewrite split_lines_app, flat_map_app, map_app. reflexivity.
Qed.

Section RowFacts.

Variable num : Type.
Variable Number : string -> num.

Lemma padded_row_single (pre post : string) (rest : list (string * string)) :
  string_forallb is_blank pre = true ->
  string_forallb is_blank post = true ->
  well_separated rest ->
  split_lines (pre ++ vertex_text rest ++ post)
  = [(pre ++ vertex_text rest ++ post)%string].
Proof.
  intros Hpre Hpost Hrest. apply split_lines_single.
  rewrite !string_forallb_app.
  rewrite (separator_no_newline _ Hpre), (separator_no_newline _ Hpost).
  unfold vertex_text.
  rewrite tokens_text_no_newline by (exact Hrest || reflexivity).
  reflexivity.
Qed.

Lemma padded_vertex_line (pre post : string) (rest : list (string * string)) :
  string_forallb is_blank pre = true ->
  string_forallb is_blank post = true ->
  well_separated rest ->
  vertex_line Number (pre ++ vertex_text rest ++ post)
  = map (fun st => Number (snd st)) rest.
Proof.
  intros Hpre Hpost Hrest.
  assert (Htrim : trim (pre ++ vertex_text rest ++ post)
                  = trim (vertex_text rest)).
  { unfold trim. rewrite trim_start_blanks by exact Hpre.
    assert (Hstart : forall s, trim_start (vertex_text rest ++ s)
                               = (vertex_text rest ++ s)%string).
    { intros s. unfold vertex_text.
      destruct rest as [|[sep tok] rest]; reflexivity. }
    assert (Hstart0 : trim_start (vertex_text rest) = vertex_text rest).
    { unfold vertex_text. destruct rest as [|[sep tok] rest]; reflexivity. }
    rewrite Hstart, Hstart0. apply trim_end_blanks. exact Hpost. }
  rewrite <- (vertex_line_tokens Number Hrest).
  unfold vertex_line. rewrite Htrim. reflexivity.
Qed.

(** What the scan takes from one well-formed line. *)
Lemma row_scanned (l : ascii_line) :
  well_formed_row l ->
  flat_map (vertex_line Number) (split_lines (row_text l))
  = map Number (row_tokens l).
Proof.
  destruct l as [pre rest post|text]; cbn [well_formed_row row_text row_tokens].
  - intros (Hpre & Hpost & Hrest).
    rewrite padded_row_single by assumption.
    cbn [flat_map]. rewrite app_nil_r, padded_vertex_line by assumption.
    rewrite map_map. reflexivity.
  - intros [Hline Hother]. rewrite split_lines_single by exact Hline.
    cbn [flat_map]. unfold vertex_line. rewrite Hother. reflexivity.
Qed.

Lemma rows_scanned (ls : list ascii_line) :
  Forall well_formed_row ls ->
  flat_map (vertex_line Number) (split_lines (join_lines (map row_text ls)))
  = map Number (flat_map row_tokens ls).
Proof.
  induction 1 as [|l ls Hl Hls IH]; [reflexivity|].
  cbn [flat_map]. rewrite map_app, <- (row_scanned l Hl).
  destruct ls as [|l' ls'].
  - cbn [map join_lines flat_map]. rewrite app_nil_r. reflexivity.
  - change (join_lines (map row_text (l :: l' :: ls')))
      with (row_text l
              ++ String newline (join_lines (map row_text (l' :: ls'))))%string.
    rewrite split_lines_app, flat_map_app, IH. reflexivity.
Qed.

End RowFacts.

(** X6.  Indentation in front of [vertex] and blanks behind the
    last number, the carriage return of a CRLF line ending among them, do
    not change what a vertex line contributes: one number per token, in
    order. *)
Theorem vertex_line_padding (num : Type) (toFloat32 : num -> num)
        (Number : string -> num) (pre post : string)
        (rest : list (string * string)) :
  string_forallb is_blank pre = true ->
  string_forallb is_blank post = true ->
  well_separated rest ->
  parseASCIISTL toFloat32 Number (pre ++ vertex_text rest ++ post)
  = map (fun st => toFloat32 (Number (snd st))) rest.
Proof.
  intros Hpre Hpost Hrest. unfold parseASCIISTL.
  rewrite padded_row_single by assumption.
  cbn [flat_map]. rewrite app_nil_r, padded_vertex_line by assumption.
  apply map_map.
Qed.


(** * The boundary analysis *)

Section BoundaryFacts.

Context {N : JSNumber}.

Lemma nth_padded (vertices : list num) (pad i : nat) :
  nth i (vertices ++ repeat (of_Z 0) pad) (of_Z 0) = coord vertices i.
Proof.
  unfold coord.
  destruct (Nat.lt_ge_cases i (List.length vertices)) as [Hin|Hout].
  - apply app_nth1. exact Hin.
  - rewrite app_nth2 by exact Hout. rewrite nth_repeat.
    symmetry. apply nth_overflow. exact Hout.
Qed.

Lemma flat_map_seq_shift {A} (F : nat -> list A) (n : nat) :
  flat_map F (seq 1 n) = flat_map (fun k => F (S k)) (seq 0 n).
Proof.
  rewrite <- seq_shift, flat_map_concat_map, map_map, <- flat_map_concat_map.
  reflexivity.
Qed.

(** Nine by nine, the entries of a list of [9 n] numbers. *)
Lemma chunks_of_nine (n : nat) (l : list num) (d : num) :
  List.length l = (9 * n)%nat ->
  flat_map (fun k => map (fun j => nth (9 * k + j) l d) (seq 0 9)) (seq 0 n)
  = l.
Proof.
  revert l. induction n as [|n IH]; intros l Hl.
  - destruct l; [reflexivity | discriminate].
  - do 9 (destruct l as [|? l]; [simpl in Hl; lia|]).
    change (seq 0 (S n)) with (0 :: seq 1 n)%nat. cbn [flat_map].
    rewrite flat_map_seq_shift.
    rewrite (flat_map_ext _
               (fun k => map (fun j => nth (9 * k + j) l d) (seq 0 9))).
    + rewrite IH by (simpl in Hl; lia). reflexivity.
    + intros k. apply map_ext. intros j.
      replace (9 * S k + j)%nat with (9 + (9 * k + j))%nat by lia.
      reflexivity.
Qed.

Lemma face_coords_at (l : list num) (k : nat) :
  face_coords (face_at l (9 * k))
  = map (fun j => nth (9 * k + j) l (of_Z 0)) (seq 0 9).
Proof.
  unfold face_coords, face_at, face_vertices, coords, coord.
  cbn [flat_map app map seq vx vy vz].
  rewrite Nat.add_0_r. reflexivity.
Qed.

(** Flattening the faces gives the vertex array back, completed with
    zeros to a whole number of triangles. *)
Lemma faces_of_flatten (vertices : list num) :
  let n := ((List.length vertices + 8) / 9)%nat in
  flat_map face_coords (faces_of vertices)
  = vertices ++ repeat (of_Z 0) (9 * n - List.length vertices).
Proof.
  intros n. unfold faces_of. fold n.
  set (pad := (9 * n - List.length vertices)%nat).
  rewrite flat_map_concat_map, map_map, <- flat_map_concat_map.
  rewrite <- (chunks_of_nine n (vertices ++ repeat (of_Z 0) pad) (of_Z 0)).
  - apply flat_map_ext. intros k.
    rewrite face_coords_at. apply map_ext. intros j.
    symmetry. apply nth_padded.
  - rewrite length_app, repeat_length. unfold pad, n.
    pose proof (Nat.div_mod_eq (List.length vertices + 8) 9) as Hd.
    pose proof (Nat.mod_upper_bound (List.length vertices + 8) 9) as Hm.
    lia.
Qed.

End BoundaryFacts.

(** X8.  The faces are the vertex array cut into runs of nine
    numbers: there is one face for every started run, one area per face,
    and flattening the faces gives the array back, a last incomplete run
    being completed with zeros (a read past the end of the array is
    [undefined], which the [Vector3] constructor replaces by [0]). *)
Theorem faces_cover_vertices {N : JSNumber} {I : HasInfinity N}
        (vertices : list num) :
  let b := defineShapeBoundary vertices in
  let n := ((List.length vertices + 8) / 9)%nat in
  List.length (faces b) = n
  /\ faceAreas b = map face_area (faces b)
  /\ flat_map face_coords (faces b)
     = vertices ++ repeat (of_Z 0) (9 * n - List.length vertices).
Proof.
  intros b n.
  assert (Hfaces : faces b = faces_of vertices).
  { unfold b, defineShapeBoundary.
    destruct (fold_left grow _ _) as [lo hi]. reflexivity. }
  assert (Hareas : faceAreas b = map face_area (faces_of vertices)).
  { unfold b, defineShapeBoundary.
    destruct (fold_left grow _ _) as [lo hi]. reflexivity. }
  rewrite Hareas, Hfaces.
  split; [unfold faces_of; rewrite length_map, length_seq; reflexivity|].
  split; [reflexivity | apply faces_of_flatten].
Qed.

Section DecodedLength.

Variable num : Type.
Variable f32_of_bits : Z -> num.

Lemma read_floats_length (view : list byte) (k off : nat) (acc : list num)
      (r : list num * nat) :
  read_floats f32_of_bits view off k acc = Ok r ->
  List.length (fst r) = (List.length acc + k)%nat.
Proof.
  revert off acc. induction k as [|k IH]; intros off acc; cbn [read_floats].
  - intros H. injection H as <-. simpl. lia.
  - unfold getFloat32.
    destruct (view_bytes view off 4) as [bs|e]; [|discriminate].
    cbn [bind]. intros H. rewrite (IH _ _ H), length_app. simpl. lia.
Qed.

Lemma read_records_length (view : list byte) (n off : nat)
      (acc vertices : list num) :
  read_records f32_of_bits view off n acc = Ok vertices ->
  List.length vertices = (List.length acc + 9 * n)%nat.
Proof.
  revert off acc. induction n as [|n IH]; intros off acc; cbn [read_records].
  - intros H. injection H as <-. lia.
  - destruct (read_floats f32_of_bits view (off + 12) 9 acc) as [[vs off']|e]
      eqn:E; [|discriminate].
    cbn [bind]. intros H. rewrite (IH _ _ H).
    pose proof (read_floats_length _ _ _ _ E) as Hl. cbn [fst] in Hl. lia.
Qed.

End DecodedLength.

(** X9.  A binary buffer that declares [n] triangles and decodes
    gives exactly [n] faces, whose coordinates are the decoded numbers in
    order: no face is completed with zeros. *)
Theorem decoded_triangles_are_faces {N : JSNumber} {I : HasInfinity N}
        (f32_of_bits : Z -> num) (Number : string -> num)
        (buffer : list byte) (triangles : Z) (vertices : list num) :
  isASCII buffer = false ->
  getUint32 buffer 80 = Ok triangles ->
  parseSTL f32_of_bits to_f32 Number buffer = Ok vertices ->
  List.length (faces (defineShapeBoundary vertices)) = Z.to_nat triangles
  /\ flat_map face_coords (faces (defineShapeBoundary vertices)) = vertices.
Proof.
  intros Hbinary Hcount. unfold parseSTL, parseBinarySTL.
  rewrite Hbinary, Hcount. cbn [bind].
  destruct (read_records f32_of_bits buffer 84 (Z.to_nat triangles) [])
    as [vs|e] eqn:E; [|discriminate].
  cbn [bind]. intros H. injection H as <-.
  pose proof (read_records_length _ _ _ _ _ E) as Hlen.
  cbn [List.length Nat.add] in Hlen.
  set (n := Z.to_nat triangles) in *.
  assert (Hfaces : faces (defineShapeBoundary (map to_f32 vs))
                   = faces_of (map to_f32 vs)).
  { unfold defineShapeBoundary.
    destruct (fold_left grow _ _) as [lo hi]. reflexivity. }
  assert (Hn : ((List.length (map to_f32 vs) + 8) / 9 = n)%nat).
  { rewrite length_map, Hlen. symmetry.
    apply (Nat.div_unique _ 9 n 8); lia. }
  rewrite Hfaces. split.
  - unfold faces_of. rewrite length_map, length_seq. exact Hn.
  - rewrite faces_of_flatten, Hn, length_map, Hlen, Nat.sub_diag.
    apply app_nil_r.
Qed.

(** X10.  An empty buffer is read as a text without vertex lines, and
    an empty vertex array has no face, a total area of [0] and an empty
    cloud, for every target and every shuffle. *)
Theorem empty_mesh {N : JSNumber} {I : HasInfinity N}
        (f32_of_bits : Z -> num) (Number : string -> num)
        (targetPointCount : nat) (random : nat -> nat) :
  parseSTL f32_of_bits to_f32 Number [] = Ok []
  /\ faces (defineShapeBoundary []) = []
  /\ totalArea (defineShapeBoundary []) = of_Z 0
  /\ createSparsePointCloud [] targetPointCount random
     = Some {| out_points := []; out_colors := [] |}.
Proof. repeat split. Qed.

(** * The bounding box in IEEE arithmetic *)

Section OrderFacts.

Lemma SFcompare_refl (a : spec_float) :
  a <> S754_nan -> SFcompare a a = Some Eq.
Proof.
  destruct a as [s|s| |s m e]; intros Ha; simpl;
    [reflexivity | destruct s; reflexivity | contradiction |].
  rewrite Z.compare_refl.
  change (Pos.compare_cont Eq m m) with (Pos.compare m m).
  rewrite Pos.compare_refl. destruct s; reflexivity.
Qed.

Lemma SFcompare_swap (a b : spec_float) :
  SFcompare b a = option_map CompOpp (SFcompare a b).
Proof.
  destruct a as [sa|sa| |sa ma ea], b as [sb|sb| |sb mb eb]; simpl;
    try reflexivity;
    try (destruct sa; reflexivity);
    try (destruct sb; reflexivity);
    try (destruct sa, sb; reflexivity).
  rewrite (Z.compare_antisym ea eb).
  change (Pos.compare_cont Eq mb ma) with (Pos.compare mb ma).
  change (Pos.compare_cont Eq ma mb) with (Pos.compare ma mb).
  rewrite (Pos.compare_antisym ma mb).
  destruct sa, sb; try reflexivity;
    destruct (ea ?= eb)%Z; simpl; try reflexivity;
    destruct (ma ?= mb)%positive; reflexivity.
Qed.

Lemma SFleb_refl (a : spec_float) : a <> S754_nan -> SFleb a a = true.
Proof. intros Ha. unfold SFleb. rewrite (SFcompare_refl Ha). reflexivity. Qed.

Lemma SFleb_not_nan (a b : spec_float) :
  SFleb a b = true -> a <> S754_nan /\ b <> S754_nan.
Proof.
  destruct a, b; simpl; try discriminate; split; discriminate.
Qed.

Lemma SFleb_trans (a b c : spec_float) :
  SFleb a b = true -> SFleb b c = true -> SFleb a c = true.
Proof.
  unfold SFleb.
  destruct a as [sa|sa| |sa ma ea], b as [sb|sb| |sb mb eb],
           c as [sc|sc| |sc mc ec]; simpl;
    try discriminate; try reflexivity;
    try (destruct sa; simpl; try discriminate; try reflexivity);
    try (destruct sb; simpl; try discriminate; try reflexivity);
    try (destruct sc; simpl; try discriminate; try reflexivity).
  all: change (Pos.compare_cont Eq ma mb) with (Pos.compare ma mb);
       change (Pos.compare_cont Eq mb mc) with (Pos.compare mb mc);
       change (Pos.compare_cont Eq ma mc) with (Pos.compare ma mc).
  all: destruct (Z.compare_spec ea eb), (Z.compare_spec eb ec),
         (Z.compare_spec ea ec);
       try lia; try discriminate; try reflexivity; subst.
  all: destruct (Pos.compare_spec ma mb), (Pos.compare_spec mb mc),
         (Pos.compare_spec ma mc);
       simpl; try lia; try discriminate; try reflexivity.
Qed.

(** [Math.min] and [Math.max] of two numbers pick one of them, on the
    right side of both. *)
Lemma min_below (a b : spec_float) :
  a <> S754_nan -> b <> S754_nan ->
  SFleb (IEEE.min a b) a = true /\ SFleb (IEEE.min a b) b = true.
Proof.
  intros Ha Hb. unfold IEEE.min.
  pose proof (SFcompare_swap a b) as Hswap.
  destruct (SFcompare a b) as [[| |]|] eqn:E; simpl in Hswap.
  - assert (Hab : SFleb a b = true) by (unfold SFleb; rewrite E; reflexivity).
    assert (Hba : SFleb b a = true)
      by (unfold SFleb; rewrite Hswap; reflexivity).
    destruct a as [[|]| | |]; split;
      try exact Hab; try exact Hba; apply SFleb_refl; assumption.
  - split; [apply SFleb_refl; exact Ha|].
    unfold SFleb. rewrite E. reflexivity.
  - split; [|apply SFleb_refl; exact Hb].
    unfold SFleb. rewrite Hswap. reflexivity.
  - destruct a, b; simpl in E; try discriminate; contradiction.
Qed.

Lemma max_above (a b : spec_float) :
  a <> S754_nan -> b <> S754_nan ->
  SFleb a (IEEE.max a b) = true /\ SFleb b (IEEE.max a b) = true.
Proof.
  intros Ha Hb. unfold IEEE.max.
  pose proof (SFcompare_swap a b) as Hswap.
  destruct (SFcompare a b) as [[| |]|] eqn:E; simpl in Hswap.
  - assert (Hab : SFleb a b = true) by (unfold SFleb; rewrite E; reflexivity).
    assert (Hba : SFleb b a = true)
      by (unfold SFleb; rewrite Hswap; reflexivity).
    destruct a as [[|]| | |]; split;
      try exact Hab; try exact Hba; apply SFleb_refl; assumption.
  - split; [|apply SFleb_refl; exact Hb].
    unfold SFleb. rewrite E. reflexivity.
  - split; [apply SFleb_refl; exact Ha|].
    unfold SFleb. rewrite Hswap. reflexivity.
  - destruct a, b; simpl in E; try discriminate; contradiction.
Qed.

End OrderFacts.

Section BoxFacts.

Variable sin_impl cos_impl : spec_float -> spec_float.

Local Abbreviation F := (IEEE.number sin_impl cos_impl).

Local Abbreviation numeric :=
  (fun v : @Vector3 F =>
     vx v <> S754_nan /\ vy v <> S754_nan /\ vz v <> S754_nan).

(** [lo] and [hi] bound the three coordinates of [v]. *)
Local Abbreviation within :=
  (fun (lo hi v : @Vector3 F) =>
     (SFleb (vx lo) (vx v) = true /\ SFleb (vx v) (vx hi) = true)
     /\ (SFleb (vy lo) (vy v) = true /\ SFleb (vy v) (vy hi) = true)
     /\ (SFleb (vz lo) (vz v) = true /\ SFleb (vz v) (vz hi) = true)).

Lemma grow_step (lo hi v : @Vector3 F) :
  numeric lo -> numeric hi -> numeric v ->
  numeric (fst (grow (lo, hi) v))
  /\ numeric (snd (grow (lo, hi) v))
  /\ within (fst (grow (lo, hi) v)) (snd (grow (lo, hi) v)) v
  /\ (forall u, within lo hi u ->
                within (fst (grow (lo, hi) v)) (snd (grow (lo, hi) v)) u).
Proof.
  intros (Hlx & Hly & Hlz) (Hhx & Hhy & Hhz) (Hvx & Hvy & Hvz).
  cbn [grow fst snd vx vy vz].
  destruct (min_below Hlx Hvx) as [Hx1 Hx2].
  destruct (min_below Hly Hvy) as [Hy1 Hy2].
  destruct (min_below Hlz Hvz) as [Hz1 Hz2].
  destruct (max_above Hhx Hvx) as [Hx3 Hx4].
  destruct (max_above Hhy Hvy) as [Hy3 Hy4].
  destruct (max_above Hhz Hvz) as [Hz3 Hz4].
  split; [|split; [|split]].
  - repeat split;
      [exact (proj1 (SFleb_not_nan _ _ Hx1))
      |exact (proj1 (SFleb_not_nan _ _ Hy1))
      |exact (proj1 (SFleb_not_nan _ _ Hz1))].
  - repeat split;
      [exact (proj2 (SFleb_not_nan _ _ Hx3))
      |exact (proj2 (SFleb_not_nan _ _ Hy3))
      |exact (proj2 (SFleb_not_nan _ _ Hz3))].
  - repeat split; assumption.
  - intros u ((Hux1 & Hux2) & (Huy1 & Huy2) & (Huz1 & Huz2)).
    repeat split.
    + exact (SFleb_trans _ _ _ Hx1 Hux1).
    + exact (SFleb_trans _ _ _ Hux2 Hx3).
    + exact (SFleb_trans _ _ _ Hy1 Huy1).
    + exact (SFleb_trans _ _ _ Huy2 Hy3).
    + exact (SFleb_trans _ _ _ Hz1 Huz1).
    + exact (SFleb_trans _ _ _ Huz2 Hz3).
Qed.

Lemma grow_all (vs : list (@Vector3 F)) (lo hi : @Vector3 F) :
  numeric lo -> numeric hi -> Forall numeric vs ->
  (forall u, within lo hi u ->
             within (fst (fold_left grow vs (lo, hi)))
                    (snd (fold_left grow vs (lo, hi))) u)
  /\ (forall v, In v vs ->
                within (fst (fold_left grow vs (lo, hi)))
                       (snd (fold_left grow vs (lo, hi))) v).
Proof.
  revert lo hi. induction vs as [|v vs IH]; intros lo hi Hlo Hhi Hvs.
  - split; [intros u Hu; exact Hu | intros v []].
  - inversion Hvs as [|? ? Hv Hrest]; subst.
    destruct (grow_step Hlo Hhi Hv) as (Hlo' & Hhi' & Hin & Hkeep).
    cbn [fold_left].
    destruct (grow (lo, hi) v) as [lo' hi'] eqn:E. cbn [fst snd] in *.
    destruct (IH lo' hi' Hlo' Hhi' Hrest) as [Hmono Hall].
    split.
    + intros u Hu. apply Hmono, Hkeep. exact Hu.
    + intros w [<-|Hw]; [apply Hmono; exact Hin | apply Hall; exact Hw].
Qed.

Lemma coord_numeric (vertices : list spec_float) (i : nat) :
  Forall (fun x => x <> S754_nan) vertices ->
  coord (N := F) vertices i <> S754_nan.
Proof.
  intros Hall. unfold coord.
  destruct (Nat.lt_ge_cases i (List.length vertices)) as [Hin|Hout].
  - rewrite Forall_forall in Hall. apply Hall. apply nth_In. exact Hin.
  - rewrite nth_overflow by exact Hout. discriminate.
Qed.

Lemma box_is_fold {I : HasInfinity F} (vertices : list spec_float) :
  let b := defineShapeBoundary (N := F) vertices in
  let start :=
    ({| vx := infinity; vy := infinity; vz := infinity |},
     {| vx := neg_infinity; vy := neg_infinity; vz := neg_infinity |}) in
  let fold := fold_left grow
                (flat_map face_vertices (faces_of (N := F) vertices))
                start in
  faces b = faces_of (N := F) vertices
  /\ box_min (boundingBox b) = fst fold
  /\ box_max (boundingBox b) = snd fold
  /\ box_size (boundingBox b) = subVectors (snd fold) (fst fold)
  /\ hollowRadius b
     = nmul (nmax (nmax (vx (box_size (boundingBox b)))
                        (vy (box_size (boundingBox b))))
                  (vz (box_size (boundingBox b))))
            (dec 2 1).
Proof.
  intros b start fold. unfold b, defineShapeBoundary. fold start. fold fold.
  destruct fold as [lo hi]. repeat split.
Qed.

(** The vertices met by the fold lie between the bounds it returns. *)
Lemma mesh_within (vertices : list spec_float) :
  Forall (fun x => x <> S754_nan) vertices ->
  let I := IEEE.number_inf sin_impl cos_impl in
  let start :=
    ({| vx := infinity; vy := infinity; vz := infinity |},
     {| vx := neg_infinity; vy := neg_infinity; vz := neg_infinity |}) in
  let fold := fold_left grow
                (flat_map face_vertices (faces_of (N := F) vertices))
                start in
  forall v, In v (flat_map face_vertices (faces_of (N := F) vertices)) ->
    within (fst fold) (snd fold) v.
Proof.
  intros Hnum I start fold v Hv.
  apply grow_all; [repeat split; discriminate | repeat split; discriminate | |
                   exact Hv].
  apply Forall_forall. intros w Hw.
  apply in_flat_map in Hw. destruct Hw as (g & Hg & Hw).
  unfold faces_of in Hg. apply in_map_iff in Hg.
  destruct Hg as (k & <- & _).
  unfold face_at, face_vertices in Hw.
  destruct Hw as [<-|[<-|[<-|[]]]]; cbn [vx vy vz];
    repeat split; apply coord_numeric; exact Hnum.
Qed.

End BoxFacts.

(** X11.  On the IEEE instance, when no coordinate is NaN, every
    vertex of every face lies between the two corners of the bounding box,
    coordinate by coordinate, in the order that [<=] computes. *)
Theorem bounding_box_encloses (sin_impl cos_impl : spec_float -> spec_float)
        (vertices : list spec_float) :
  Forall (fun x => x <> S754_nan) vertices ->
  let b := defineShapeBoundary (N := IEEE.number sin_impl cos_impl)
             (I := IEEE.number_inf sin_impl cos_impl) vertices in
  let box := boundingBox b in
  forall f v, In f (faces b) -> In v (face_vertices f) ->
    (SFleb (vx (box_min box)) (vx v) = true
     /\ SFleb (vx v) (vx (box_max box)) = true)
    /\ (SFleb (vy (box_min box)) (vy v) = true
        /\ SFleb (vy v) (vy (box_max box)) = true)
    /\ (SFleb (vz (box_min box)) (vz v) = true
        /\ SFleb (vz v) (vz (box_max box)) = true).
Proof.
  intros Hnum b box f v Hf Hv.
  destruct (@box_is_fold sin_impl cos_impl
              (IEEE.number_inf sin_impl cos_impl) vertices)
    as (Hfaces & Hmin & Hmax & _).
  fold b in Hfaces, Hmin, Hmax. unfold box. rewrite Hmin, Hmax.
  rewrite Hfaces in Hf.
  apply (@mesh_within sin_impl cos_impl vertices Hnum).
  apply in_flat_map. exists f. split; assumption.
Qed.

Section CoordinateFacts.

Variable sin_impl cos_impl : spec_float -> spec_float.

Local Abbreviation F := (IEEE.number sin_impl cos_impl).
Local Abbreviation FI := (IEEE.number_inf sin_impl cos_impl).

(** One of the three coordinates, which [grow] treats alike. *)
Variable c : @Vector3 F -> spec_float.
Hypothesis c_min :
  forall lo hi v, c (fst (grow (lo, hi) v)) = IEEE.min (c lo) (c v).
Hypothesis c_max :
  forall lo hi v, c (snd (grow (lo, hi) v)) = IEEE.max (c hi) (c v).

Lemma min_picks (a b : spec_float) : IEEE.min a b = a \/ IEEE.min a b = b.
Proof.
  unfold IEEE.min. destruct (SFcompare a b) as [[| |]|] eqn:E.
  - destruct a as [[|]| | |]; auto.
  - auto.
  - auto.
  - destruct a, b; simpl in E; try discriminate; auto.
Qed.

Lemma max_picks (a b : spec_float) : IEEE.max a b = a \/ IEEE.max a b = b.
Proof.
  unfold IEEE.max. destruct (SFcompare a b) as [[| |]|] eqn:E.
  - destruct a as [[|]| | |]; auto.
  - auto.
  - auto.
  - destruct a, b; simpl in E; try discriminate; auto.
Qed.

Lemma min_nan (a b : spec_float) :
  a = S754_nan \/ b = S754_nan -> IEEE.min a b = S754_nan.
Proof. intros [->| ->]; [|destruct a]; reflexivity. Qed.

Lemma max_nan (a b : spec_float) :
  a = S754_nan \/ b = S754_nan -> IEEE.max a b = S754_nan.
Proof. intros [->| ->]; [|destruct a]; reflexivity. Qed.

(** Each bound is the start value or a coordinate of a point met. *)
Lemma fold_attained (vs : list (@Vector3 F)) (lo hi : @Vector3 F) :
  (c (fst (fold_left grow vs (lo, hi))) = c lo
   \/ exists v, In v vs /\ c (fst (fold_left grow vs (lo, hi))) = c v)
  /\ (c (snd (fold_left grow vs (lo, hi))) = c hi
      \/ exists v, In v vs /\ c (snd (fold_left grow vs (lo, hi))) = c v).
Proof.
  revert lo hi. induction vs as [|v vs IH]; intros lo hi.
  - split; left; reflexivity.
  - cbn [fold_left].
    pose proof (c_min lo hi v) as Hmin. pose proof (c_max lo hi v) as Hmax.
    destruct (grow (lo, hi) v) as [lo' hi']. cbn [fst snd] in Hmin, Hmax.
    destruct (IH lo' hi') as [Hlo Hhi]. split.
    + destruct Hlo as [Hlo|(w & Hw & Hlo)].
      * rewrite Hlo, Hmin.
        destruct (min_picks (c lo) (c v)) as [->| ->];
          [left; reflexivity | right; exists v; split; [left|]; reflexivity].
      * right. exists w. split; [right; exact Hw | exact Hlo].
    + destruct Hhi as [Hhi|(w & Hw & Hhi)].
      * rewrite Hhi, Hmax.
        destruct (max_picks (c hi) (c v)) as [->| ->];
          [left; reflexivity | right; exists v; split; [left|]; reflexivity].
      * right. exists w. split; [right; exact Hw | exact Hhi].
Qed.

(** A NaN coordinate, once met, stays in both bounds. *)
Lemma fold_nan (vs : list (@Vector3 F)) (lo hi : @Vector3 F) :
  (c lo = S754_nan /\ c hi = S754_nan)
  \/ (exists v, In v vs /\ c v = S754_nan) ->
  c (fst (fold_left grow vs (lo, hi))) = S754_nan
  /\ c (snd (fold_left grow vs (lo, hi))) = S754_nan.
Proof.
  revert lo hi. induction vs as [|v vs IH]; intros lo hi H.
  - destruct H as [H|(v & [] & _)]. exact H.
  - cbn [fold_left].
    pose proof (c_min lo hi v) as Hmin. pose proof (c_max lo hi v) as Hmax.
    destruct (grow (lo, hi) v) as [lo' hi']. cbn [fst snd] in Hmin, Hmax.
    apply IH. destruct H as [[Hlo Hhi]|(w & [<-|Hw] & Hnan)].
    + left. rewrite Hmin, Hmax.
      split; [apply min_nan | apply max_nan]; left; assumption.
    + left. rewrite Hmin, Hmax.
      split; [apply min_nan | apply max_nan]; right; assumption.
    + right. exists w. split; assumption.
Qed.

End CoordinateFacts.

Section BoxBounds.

Variable sin_impl cos_impl : spec_float -> spec_float.

Local Abbreviation F := (IEEE.number sin_impl cos_impl).
Local Abbreviation FI := (IEEE.number_inf sin_impl cos_impl).

Variable c : @Vector3 F -> spec_float.
Hypothesis c_min :
  forall lo hi v, c (fst (grow (lo, hi) v)) = IEEE.min (c lo) (c v).
Hypothesis c_max :
  forall lo hi v, c (snd (grow (lo, hi) v)) = IEEE.max (c hi) (c v).
Local Abbreviation top :=
  (@Build_Vector3 F (S754_infinity false) (S754_infinity false)
     (S754_infinity false)).
Local Abbreviation bottom :=
  (@Build_Vector3 F (S754_infinity true) (S754_infinity true)
     (S754_infinity true)).

Hypothesis c_start :
  c top = S754_infinity false /\ c bottom = S754_infinity true.

Variable vertices : list spec_float.

Local Abbreviation b := (defineShapeBoundary (N := F) (I := FI) vertices).

Hypothesis c_within :
  forall f v, In f (faces b) -> In v (face_vertices f) ->
    SFleb (c (box_min (boundingBox b))) (c v) = true
    /\ SFleb (c v) (c (box_max (boundingBox b))) = true.

Lemma bound_attained :
  vertices <> [] ->
  (exists f v, In f (faces b) /\ In v (face_vertices f)
               /\ c (box_min (boundingBox b)) = c v)
  /\ (exists f v, In f (faces b) /\ In v (face_vertices f)
                  /\ c (box_max (boundingBox b)) = c v).
Proof.
  intros Hne.
  destruct (@box_is_fold sin_impl cos_impl FI vertices)
    as (Hfaces & Hmin & Hmax & _).
  assert (Hsome : exists f0 v0, In f0 (faces b) /\ In v0 (face_vertices f0)).
  { rewrite Hfaces. unfold faces_of.
    assert (Hlen : @List.length (@num F) vertices <> O).
    { intros H0. apply length_zero_iff_nil in H0. contradiction. }
    exists (face_at (N := F) vertices (9 * 0)),
           (fst (fst (face_at (N := F) vertices (9 * 0)))).
    split.
    - apply in_map_iff. exists O. split; [reflexivity|].
      apply in_seq.
      match goal with
      | |- (_ <= _ < _ + ?m)%nat => assert (Hn : (1 <= m)%nat)
      end.
      { apply Nat.div_le_lower_bound; lia. }
      lia.
    - unfold face_at, face_vertices. cbn [fst]. apply in_eq. }
  destruct Hsome as (f0 & v0 & Hf0 & Hv0).
  destruct (c_within f0 v0 Hf0 Hv0) as [Hlo0 Hhi0].
  destruct (@fold_attained sin_impl cos_impl c c_min c_max
              (flat_map face_vertices (faces_of (N := F) vertices))
              top bottom) as [Hlo Hhi].
  destruct c_start as [Hstart_lo Hstart_hi].
  split.
  - destruct Hlo as [Hlo|(v & Hv & Hlo)].
    + exists f0, v0. split; [exact Hf0|]. split; [exact Hv0|].
      rewrite Hmin in *. unfold infinity, neg_infinity in *.
      cbn [IEEE.number_inf] in *.
      rewrite Hlo, Hstart_lo in *.
      destruct (c v0) as [s|[|]| |s m e]; simpl in Hlo0;
        try discriminate; reflexivity.
    + apply in_flat_map in Hv. destruct Hv as (f & Hf & Hv).
      exists f, v. rewrite Hfaces. split; [exact Hf|]. split; [exact Hv|].
      rewrite Hmin. exact Hlo.
  - destruct Hhi as [Hhi|(v & Hv & Hhi)].
    + exists f0, v0. split; [exact Hf0|]. split; [exact Hv0|].
      rewrite Hmax in *. unfold infinity, neg_infinity in *.
      cbn [IEEE.number_inf] in *.
      rewrite Hhi, Hstart_hi in *.
      destruct (c v0) as [s|[|]| |s m e]; simpl in Hhi0;
        try discriminate; reflexivity.
    + apply in_flat_map in Hv. destruct Hv as (f & Hf & Hv).
      exists f, v. rewrite Hfaces. split; [exact Hf|]. split; [exact Hv|].
      rewrite Hmax. exact Hhi.
Qed.

End BoxBounds.

(** X12.  On the IEEE instance, when no coordinate is NaN and the
    vertex array is not empty, each of the six bounds of the bounding box
    is the coordinate of a vertex: the box is the smallest one. *)
Theorem bounding_box_tight (sin_impl cos_impl : spec_float -> spec_float)
        (vertices : list spec_float) :
  Forall (fun x => x <> S754_nan) vertices ->
  vertices <> [] ->
  let F := IEEE.number sin_impl cos_impl in
  let b := defineShapeBoundary (N := F)
             (I := IEEE.number_inf sin_impl cos_impl) vertices in
  let box := boundingBox b in
  forall c, In c [@vx F; @vy F; @vz F] ->
    (exists f v, In f (faces b) /\ In v (face_vertices f)
                 /\ c (box_min box) = c v)
    /\ (exists f v, In f (faces b) /\ In v (face_vertices f)
                    /\ c (box_max box) = c v).
Proof.
  intros Hnum Hne F b box c Hc.
  destruct (@box_is_fold sin_impl cos_impl
              (IEEE.number_inf sin_impl cos_impl) vertices)
    as (Hfaces & Hmin & Hmax & _).
  pose proof (@mesh_within sin_impl cos_impl vertices Hnum) as Hmesh.
  cbv zeta in Hmesh. rewrite <- Hmin, <- Hmax in Hmesh.
  assert (Hwithin : forall f v, In f (faces b) -> In v (face_vertices f) ->
            (SFleb (vx (box_min box)) (vx v) = true
             /\ SFleb (vx v) (vx (box_max box)) = true)
            /\ (SFleb (vy (box_min box)) (vy v) = true
                /\ SFleb (vy v) (vy (box_max box)) = true)
            /\ (SFleb (vz (box_min box)) (vz v) = true
                /\ SFleb (vz v) (vz (box_max box)) = true)).
  { intros f v Hf Hv. apply Hmesh. apply in_flat_map. exists f.
    split; [|exact Hv]. exact (eq_ind _ (fun l => In f l) Hf _ Hfaces). }
  clear Hmesh Hfaces Hmin Hmax.
  destruct Hc as [<-|[<-|[<-|[]]]];
    apply bound_attained;
    try (intros; reflexivity); try (split; reflexivity); try exact Hne;
    intros f v Hf Hv; destruct (Hwithin f v Hf Hv) as (Hx & Hy & Hz);
    assumption.
Qed.

Section NaNFacts.

Variable sin_impl cos_impl : spec_float -> spec_float.

Local Abbreviation F := (IEEE.number sin_impl cos_impl).
Local Abbreviation FI := (IEEE.number_inf sin_impl cos_impl).
Local Existing Instance IEEE.number_inf.

Lemma nan_in_face (vertices : list spec_float) :
  In S754_nan vertices ->
  exists f v,
    In f (faces_of (N := F) vertices) /\ In v (face_vertices f)
    /\ (vx v = S754_nan \/ vy v = S754_nan \/ vz v = S754_nan).
Proof.
  intros Hin.
  pose proof (faces_of_flatten (N := F) vertices) as Hflat. cbv zeta in Hflat.
  assert (Hpad : In S754_nan
                    (flat_map face_coords (faces_of (N := F) vertices))).
  { rewrite Hflat. apply in_or_app. left. exact Hin. }
  apply in_flat_map in Hpad. destruct Hpad as (f & Hf & Hnan).
  unfold face_coords in Hnan. apply in_flat_map in Hnan.
  destruct Hnan as (v & Hv & Hc).
  exists f, v. split; [exact Hf|]. split; [exact Hv|].
  destruct Hc as [Hc|[Hc|[Hc|[]]]]; auto.
Qed.

Lemma radius_nan (sx sy sz : spec_float) :
  sx = S754_nan \/ sy = S754_nan \/ sz = S754_nan ->
  SFmul IEEE.prec IEEE.emax (IEEE.max (IEEE.max sx sy) sz) (IEEE.dec 2 1)
  = S754_nan.
Proof.
  intros [->|[->| ->]].
  - reflexivity.
  - rewrite (@max_nan sx S754_nan) by (right; reflexivity). reflexivity.
  - rewrite (@max_nan (IEEE.max sx sy) S754_nan) by (right; reflexivity).
    reflexivity.
Qed.

Lemma hollowRadius_nan (vertices : list spec_float) :
  In S754_nan vertices ->
  hollowRadius (defineShapeBoundary (N := F) (I := FI) vertices) = S754_nan.
Proof.
  intros Hin.
  destruct (nan_in_face vertices Hin) as (f & v & Hf & Hv & Hnan).
  destruct (@box_is_fold sin_impl cos_impl FI vertices)
    as (_ & _ & _ & Hsize & Hradius).
  assert (Hmet : exists w,
             In w (flat_map face_vertices (faces_of (N := F) vertices))
             /\ (vx w = S754_nan \/ vy w = S754_nan \/ vz w = S754_nan)).
  { exists v. split; [|exact Hnan]. apply in_flat_map. exists f. auto. }
  clear f v Hf Hv Hnan. destruct Hmet as (v & Hv & Hnan).
  rewrite Hradius, Hsize. unfold subVectors. cbn [vx vy vz].
  apply radius_nan.
  destruct Hnan as [Hnan|[Hnan|Hnan]]; [left | right; left | right; right].
  - destruct (@fold_nan sin_impl cos_impl (@vx F)
                (fun _ _ _ => eq_refl) (fun _ _ _ => eq_refl)
                (flat_map face_vertices (faces_of (N := F) vertices))
                {| vx := infinity; vy := infinity; vz := infinity |}
                {| vx := neg_infinity; vy := neg_infinity;
                   vz := neg_infinity |}) as [Hlo Hhi].
    { right. exists v. split; assumption. }
    rewrite Hlo, Hhi. reflexivity.
  - destruct (@fold_nan sin_impl cos_impl (@vy F)
                (fun _ _ _ => eq_refl) (fun _ _ _ => eq_refl)
                (flat_map face_vertices (faces_of (N := F) vertices))
                {| vx := infinity; vy := infinity; vz := infinity |}
                {| vx := neg_infinity; vy := neg_infinity;
                   vz := neg_infinity |}) as [Hlo Hhi].
    { right. exists v. split; assumption. }
    rewrite Hlo, Hhi. reflexivity.
  - destruct (@fold_nan sin_impl cos_impl (@vz F)
                (fun _ _ _ => eq_refl) (fun _ _ _ => eq_refl)
                (flat_map face_vertices (faces_of (N := F) vertices))
                {| vx := infinity; vy := infinity; vz := infinity |}
                {| vx := neg_infinity; vy := neg_infinity;
                   vz := neg_infinity |}) as [Hlo Hhi].
    { right. exists v. split; assumption. }
    rewrite Hlo, Hhi. reflexivity.
Qed.

End NaNFacts.

(** X13.  On the IEEE instance a NaN among the coordinates makes
    the hollow radius NaN, no point passes the test [distance > hollowRadius]
    and a run that ends returns an empty cloud. *)
Theorem nan_vertex_empties_cloud
        (sin_impl cos_impl : spec_float -> spec_float)
        (vertices : list spec_float) (targetPointCount : nat)
        (random : nat -> nat)
        (out : @PointCloud (IEEE.number sin_impl cos_impl)) :
  In S754_nan vertices ->
  createSparsePointCloud (I := IEEE.number_inf sin_impl cos_impl)
    vertices targetPointCount random = Some out ->
  out = {| out_points := []; out_colors := [] |}.
Proof.
  intros Hnan. unfold createSparsePointCloud, generatePointsInShape, selection.
  set (b := defineShapeBoundary (N := IEEE.number sin_impl cos_impl)
              (I := IEEE.number_inf sin_impl cos_impl) vertices).
  destruct (candidatePoints b targetPointCount) as [cands|]; [|discriminate].
  intros H. injection H as <-.
  set (st := select b targetPointCount (shuffle random cands) empty_selection).
  assert (Hnone : selectedPoints st = []).
  { pose proof (select_valid_region b targetPointCount (shuffle random cands))
      as Hvalid.
    fold st in Hvalid.
    destruct (selectedPoints st) as [|p ps]; [reflexivity|].
    inversion Hvalid as [|? ? Hp _]; subst.
    unfold isPointInValidRegion in Hp. unfold b in Hp.
    rewrite (hollowRadius_nan sin_impl cos_impl vertices Hnan) in Hp.
    discriminate. }
  destruct (select_counts b targetPointCount (shuffle random cands))
    as (Hpoints & _ & _).
  pose proof (select_colors b targetPointCount (shuffle random cands))
    as Hcolors.
  cbv zeta in Hcolors. fold st in Hpoints, Hcolors.
  rewrite Hpoints, Hcolors, Hnone. reflexivity.
Qed.

(** * The candidates and the acceptance loop *)

Section SelectionFacts.

Context {N : JSNumber}.
Variable shapeBoundary : ShapeBoundary.
Variable targetPointCount : nat.

Local Abbreviation capped :=
  (fun cands : list Candidate =>
     (List.length cands <= targetPointCount * 5)%nat).

Lemma grid_row_capped f idx spe i js cands :
  capped cands -> capped (grid_row targetPointCount f idx spe i js cands).
Proof.
  revert cands. induction js as [|j js IH]; intros cands Hc; cbn [grid_row].
  - exact Hc.
  - destruct (targetPointCount * 5 <=? List.length cands)%nat eqn:E;
      [exact Hc|].
    apply Nat.leb_gt in E. apply IH. unfold grid_node.
    destruct (nle _ _); [|lia].
    rewrite length_app. simpl. lia.
Qed.

Lemma grid_rows_capped f idx spe rows cands cands' :
  capped cands ->
  grid_rows targetPointCount f idx spe rows cands = Some cands' ->
  capped cands'.
Proof.
  revert cands. induction rows as [|i rows IH]; intros cands Hc;
    cbn [grid_rows].
  - intros H. injection H as <-. exact Hc.
  - destruct (loop_count _) as [nj|]; [|discriminate].
    apply IH. apply grid_row_capped. exact Hc.
Qed.

Lemma sample_faces_capped fs idx cands cands' :
  capped cands ->
  sample_faces shapeBoundary targetPointCount fs idx cands = Some cands' ->
  capped cands'.
Proof.
  revert idx cands. induction fs as [|[f area] fs IH]; intros idx cands Hc;
    cbn [sample_faces].
  - intros H. injection H as <-. exact Hc.
  - destruct (sample_face _ _ _ _ _ _) as [cands1|] eqn:E; [|discriminate].
    apply IH. unfold sample_face in E.
    destruct (loop_count _) as [ni|]; [|discriminate].
    eapply grid_rows_capped; [exact Hc | exact E].
Qed.

(** The points kept in the hash are selected points. *)
Local Abbreviation hash_selected :=
  (fun st : Selection =>
     forall key ps q,
       In (key, ps) (spatialHash st) -> In q ps -> In q (selectedPoints st)).

Lemma hash_get_In (key : HashKey) (h : SpatialHash) (ps : list Vector3) :
  hash_get key h = Some ps -> exists k, In (k, ps) h.
Proof.
  induction h as [|[k qs] h IH]; cbn [hash_get]; [discriminate|].
  destruct (key_eqb k key).
  - intros H. injection H as <-. exists k. left. reflexivity.
  - intros H. destruct (IH H) as [k' Hk']. exists k'. right. exact Hk'.
Qed.

Lemma hash_push_In (key k : HashKey) (p q : Vector3) (h : SpatialHash)
      (ps : list Vector3) :
  In (k, ps) (hash_push key p h) -> In q ps ->
  q = p \/ exists ps0, In (k, ps0) h /\ In q ps0.
Proof.
  induction h as [|[k0 qs] h IH]; cbn [hash_push].
  - intros [H|[]] Hq. injection H as <- <-.
    destruct Hq as [Hq|[]]. left. symmetry. exact Hq.
  - destruct (key_eqb k0 key).
    + intros [H|H] Hq.
      * injection H as <- <-. apply in_app_or in Hq.
        destruct Hq as [Hq|[Hq|[]]].
        -- right. exists qs. split; [left; reflexivity | exact Hq].
        -- left. symmetry. exact Hq.
      * right. exists ps. split; [right; exact H | exact Hq].
    + intros [H|H] Hq.
      * injection H as <- <-. right. exists qs.
        split; [left; reflexivity | exact Hq].
      * destruct (IH H Hq) as [Heq|(ps0 & Hin & Hq0)]; [left; exact Heq|].
        right. exists ps0. split; [right; exact Hin | exact Hq0].
Qed.

Lemma accept_hash_selected (p : Vector3) (st : Selection) :
  hash_selected st ->
  hash_selected (accept shapeBoundary targetPointCount p st).
Proof.
  intros Hst key ps q Hin Hq. cbn [accept selectedPoints spatialHash] in *.
  unfold addToSpatialHash in Hin.
  destruct (hash_push_In _ _ _ _ _ _ Hin Hq) as [->|(ps0 & Hin0 & Hq0)].
  - apply in_or_app. right. left. reflexivity.
  - apply in_or_app. left. exact (Hst _ _ _ Hin0 Hq0).
Qed.

Lemma forallb_false_In {A} (f : A -> bool) (l : list A) :
  forallb f l = false -> exists x, In x l /\ f x = false.
Proof.
  induction l as [|a l IH]; cbn [forallb]; [discriminate|].
  destruct (f a) eqn:E.
  - intros H. destruct (IH H) as (x & Hx & Hf).
    exists x. split; [right; exact Hx | exact Hf].
  - intros _. exists a. split; [left; reflexivity | exact E].
Qed.

(** A candidate fails the distance check only against a point kept in the
    hash that is nearer than the minimum distance. *)
Lemma isValidDistance_false (h : SpatialHash) (p : Vector3) :
  isValidDistance shapeBoundary targetPointCount h p = false ->
  exists key ps q,
    In (key, ps) h /\ In q ps
    /\ nlt (distanceTo p q) (minDistance shapeBoundary targetPointCount)
       = true.
Proof.
  unfold isValidDistance. intros H.
  apply forallb_false_In in H. destruct H as (dx & _ & H).
  apply forallb_false_In in H. destruct H as (dy & _ & H).
  apply forallb_false_In in H. destruct H as (dz & _ & H).
  destruct (hash_get _ h) as [ps|] eqn:E; [|discriminate].
  apply forallb_false_In in H. destruct H as (q & Hq & Hfar).
  destruct (hash_get_In _ _ E) as [k Hk].
  exists k, ps, q. split; [exact Hk|]. split; [exact Hq|].
  unfold far_enough in Hfar. apply negb_false_iff in Hfar. exact Hfar.
Qed.

Local Abbreviation reason :=
  (fun (st : Selection) (c : Candidate) =>
     In (point c) (selectedPoints st)
     \/ isPointInValidRegion shapeBoundary (point c) = false
     \/ exists q,
          In q (selectedPoints st)
          /\ nlt (distanceTo (point c) q)
                 (minDistance shapeBoundary targetPointCount) = true).

Lemma select_reasons (cands : list Candidate) (st : Selection) :
  hash_selected st ->
  let st' := select shapeBoundary targetPointCount cands st in
  (List.length (selectedPoints st') < targetPointCount)%nat ->
  forall c, In c cands -> reason st' c.
Proof.
  revert st. induction cands as [|c0 rest IH]; intros st Hst st' Hunder c Hc;
    [contradiction|].
  unfold st' in *. clear st'. cbn [select] in *.
  destruct (targetPointCount <=? List.length (selectedPoints st))%nat eqn:Hfull.
  { apply Nat.leb_le in Hfull. lia. }
  destruct (isPointInValidRegion shapeBoundary (point c0)) eqn:Hregion;
    cbn [andb] in *.
  - destruct (isValidDistance shapeBoundary targetPointCount (spatialHash st)
                (point c0)) eqn:Hdist.
    + destruct Hc as [<-|Hc].
      * left.
        destruct (select_extends shapeBoundary targetPointCount rest
                    (accept shapeBoundary targetPointCount (point c0) st))
          as [more Hmore].
        rewrite Hmore. cbn [accept selectedPoints].
        apply in_or_app. left. apply in_or_app. right. left. reflexivity.
      * apply (IH _ (accept_hash_selected (point c0) Hst) Hunder c Hc).
    + destruct Hc as [<-|Hc].
      * right. right.
        destruct (isValidDistance_false _ _ Hdist)
          as (k & ps & q & Hk & Hq & Hn).
        exists q. split; [|exact Hn].
        destruct (select_extends shapeBoundary targetPointCount rest st)
          as [more Hmore].
        rewrite Hmore. apply in_or_app. left. exact (Hst _ _ _ Hk Hq).
      * apply (IH _ Hst Hunder c Hc).
  - destruct Hc as [<-|Hc].
    + right. left. exact Hregion.
    + apply (IH _ Hst Hunder c Hc).
Qed.

End SelectionFacts.

(** X14.  The candidate list never grows past five times the
    target. *)
Theorem candidate_cap {N : JSNumber} (shapeBoundary : ShapeBoundary)
        (targetPointCount : nat) (cands : list Candidate) :
  candidatePoints shapeBoundary targetPointCount = Some cands ->
  (List.length cands <= 5 * targetPointCount)%nat.
Proof.
  intros H. rewrite Nat.mul_comm.
  apply (sample_faces_capped shapeBoundary _ _ _ (cands := [])) in H;
    [exact H | simpl; lia].
Qed.

(** X15.  The shuffle only reorders: for every source of random
    indices the shuffled list is a permutation of the list it was given,
    of the same length. *)
Theorem shuffle_reorders (A : Type) (random : nat -> nat) (l : list A) :
  Permutation (shuffle random l) l
  /\ List.length (shuffle random l) = List.length l.
Proof.
  pose proof (shuffle_permutation random l) as H.
  split; [exact H | apply Permutation_length; exact H].
Qed.

(** X16.  The selection is maximal.  When the loop ends below the
    target, every candidate has been accepted, or lies in the hollow
    region, or is nearer than the minimum distance to an accepted point:
    the distance check never rejects a candidate without such a point. *)
Theorem rejected_for_a_reason {N : JSNumber} (shapeBoundary : ShapeBoundary)
        (targetPointCount : nat) (random : nat -> nat)
        (cands : list Candidate) (st : Selection) :
  candidatePoints shapeBoundary targetPointCount = Some cands ->
  selection shapeBoundary targetPointCount random = Some st ->
  (List.length (selectedPoints st) < targetPointCount)%nat ->
  forall c, In c cands ->
    In (point c) (selectedPoints st)
    \/ isPointInValidRegion shapeBoundary (point c) = false
    \/ exists q,
         In q (selectedPoints st)
         /\ nlt (distanceTo (point c) q)
                (minDistance shapeBoundary targetPointCount) = true.
Proof.
  intros Hc Hsel Hunder c Hin. unfold selection in Hsel.
  rewrite Hc in Hsel. injection Hsel as <-.
  apply select_reasons.
  - intros key ps q [].
  - exact Hunder.
  - apply (Permutation_in c
             (Permutation_sym (shuffle_permutation random cands))).
    exact Hin.
Qed.

(** X17.  For a target of at least one point the cloud is empty
    exactly when every candidate lies in the hollow region. *)
Theorem empty_cloud_iff_hollow {N : JSNumber} (shapeBoundary : ShapeBoundary)
        (targetPointCount : nat) (random : nat -> nat)
        (cands : list Candidate) (out : PointCloud) :
  (1 <= targetPointCount)%nat ->
  candidatePoints shapeBoundary targetPointCount = Some cands ->
  generatePointsInShape shapeBoundary targetPointCount random = Some out ->
  out_points out = []
  <-> Forall (fun c => isPointInValidRegion shapeBoundary (point c) = false)
             cands.
Proof.
  intros Htarget Hc Hout. unfold generatePointsInShape, selection in Hout.
  rewrite Hc in Hout. injection Hout as <-. cbn [out_points].
  set (st := select shapeBoundary targetPointCount (shuffle random cands)
                    empty_selection).
  destruct (select_counts shapeBoundary targetPointCount (shuffle random cands))
    as (Hpoints & _ & _).
  fold st in Hpoints.
  assert (Hempty : map to_f32 (points st) = [] <-> selectedPoints st = []).
  { rewrite Hpoints. split.
    - intros H. apply map_eq_nil in H.
      destruct (selectedPoints st) as [|p ps]; [reflexivity | discriminate].
    - intros ->. reflexivity. }
  rewrite Hempty. clear Hempty Hpoints. split.
  - intros Hnone. apply Forall_forall. intros c Hin.
    destruct (isPointInValidRegion shapeBoundary (point c)) eqn:E;
      [|reflexivity].
    exfalso.
    apply (select_nonempty shapeBoundary (targetPointCount := targetPointCount)
             (cands := shuffle random cands) Htarget); [|exact Hnone].
    apply Exists_exists. exists c. split; [|exact E].
    apply (Permutation_in c
             (Permutation_sym (shuffle_permutation random cands))).
    exact Hin.
  - intros Hall.
    destruct (selectedPoints st) as [|p ps] eqn:E; [reflexivity|]. exfalso.
    assert (Hp : In p (selectedPoints st)) by (rewrite E; left; reflexivity).
    pose proof (select_valid_region shapeBoundary targetPointCount
                  (shuffle random cands)) as Hvalid.
    fold st in Hvalid. rewrite Forall_forall in Hvalid.
    pose proof (select_from_candidates shapeBoundary targetPointCount
                  (shuffle random cands) p Hp) as Hfrom.
    apply in_map_iff in Hfrom. destruct Hfrom as (c & <- & Hcin).
    apply (Permutation_in c (shuffle_permutation random cands)) in Hcin.
    rewrite Forall_forall in Hall.
    specialize (Hvalid (point c) Hp). rewrite (Hall c Hcin) in Hvalid.
    discriminate.
Qed.

(** X18.  Positions and colors are aligned: the output arrays are
    the coordinates and the colors of one and the same list of points, so
    the color at index [i] belongs to the point at index [i]. *)
Theorem colors_follow_points {N : JSNumber} (shapeBoundary : ShapeBoundary)
        (targetPointCount : nat) (random : nat -> nat) (out : PointCloud) :
  generatePointsInShape shapeBoundary targetPointCount random = Some out ->
  exists ps : list Vector3,
    out_points out = map to_f32 (flat_map coords ps)
    /\ out_colors out = map to_f32 (flat_map (color shapeBoundary) ps).
Proof.
  unfold generatePointsInShape, selection.
  destruct (candidatePoints shapeBoundary targetPointCount) as [cands|];
    [|discriminate].
  intros H. injection H as <-. cbn [out_points out_colors].
  exists (selectedPoints (select shapeBoundary targetPointCount
                                 (shuffle random cands) empty_selection)).
  destruct (select_counts shapeBoundary targetPointCount (shuffle random cands))
    as (Hpoints & _ & _).
  rewrite Hpoints.
  rewrite (select_colors shapeBoundary targetPointCount (shuffle random cands)).
  split; reflexivity.
Qed.

Section HashFacts.

Context {N : JSNumber}.
Variable shapeBoundary : ShapeBoundary.
Variable targetPointCount : nat.

Hypothesis same_string_refl : forall a : num, same_string a a = true.
Hypothesis same_string_sym :
  forall a b : num, same_string a b = true -> same_string b a = true.
Hypothesis same_string_trans :
  forall a b c : num,
    same_string a b = true -> same_string b c = true -> same_string a c = true.

Lemma key_eqb_same (key : HashKey) : key_eqb key key = true.
Proof.
  destruct key as [[x y] z]. unfold key_eqb.
  rewrite !same_string_refl. reflexivity.
Qed.

Lemma key_eqb_common (k key key' : HashKey) :
  key_eqb k key = true -> key_eqb k key' = true -> key_eqb key key' = true.
Proof.
  destruct k as [[x y] z], key as [[x1 y1] z1], key' as [[x2 y2] z2].
  unfold key_eqb. intros H1 H2.
  apply andb_true_iff in H1. destruct H1 as [H1 Hz1].
  apply andb_true_iff in H1. destruct H1 as [Hx1 Hy1].
  apply andb_true_iff in H2. destruct H2 as [H2 Hz2].
  apply andb_true_iff in H2. destruct H2 as [Hx2 Hy2].
  rewrite (same_string_trans _ _ _ (same_string_sym _ _ Hx1) Hx2).
  rewrite (same_string_trans _ _ _ (same_string_sym _ _ Hy1) Hy2).
  rewrite (same_string_trans _ _ _ (same_string_sym _ _ Hz1) Hz2).
  reflexivity.
Qed.

Lemma hash_push_same (key : HashKey) (p : Vector3) (h : SpatialHash) :
  hash_get key (hash_push key p h) = Some (bucket key h ++ [p]).
Proof.
  unfold bucket. induction h as [|[k ps] h IH]; cbn [hash_push hash_get].
  - rewrite key_eqb_same. reflexivity.
  - destruct (key_eqb k key) eqn:E; cbn [hash_get]; rewrite E;
      [reflexivity | exact IH].
Qed.

Lemma hash_push_other (key key' : HashKey) (p : Vector3) (h : SpatialHash) :
  key_eqb key key' = false ->
  hash_get key' (hash_push key p h) = hash_get key' h.
Proof.
  intros Hne. induction h as [|[k ps] h IH]; cbn [hash_push hash_get].
  - rewrite Hne. reflexivity.
  - destruct (key_eqb k key) eqn:E; cbn [hash_get].
    + destruct (key_eqb k key') eqn:E'; [|reflexivity].
      rewrite (key_eqb_common _ _ _ E E') in Hne. discriminate.
    + destruct (key_eqb k key'); [reflexivity | exact IH].
Qed.

End HashFacts.

(** X19.  Adding a point to the spatial hash appends it to the
    points filed under its own key (none when the key was missing) and
    leaves the lookup of every other key as it was.  The hypotheses state
    that [same_string] is an equivalence, as the equality of strings is. *)
Theorem hash_add_then_get {N : JSNumber} (shapeBoundary : ShapeBoundary)
        (targetPointCount : nat) (p : Vector3) (h : SpatialHash) :
  (forall a : num, same_string a a = true) ->
  (forall a b : num, same_string a b = true -> same_string b a = true) ->
  (forall a b c : num,
      same_string a b = true -> same_string b c = true ->
      same_string a c = true) ->
  let key := getHashKey shapeBoundary targetPointCount p in
  let h' := addToSpatialHash shapeBoundary targetPointCount p h in
  hash_get key h' = Some (bucket key h ++ [p])
  /\ forall key', key_eqb key key' = false ->
                  hash_get key' h' = hash_get key' h.
Proof.
  intros Hrefl Hsym Htrans key h'. split.
  - apply hash_push_same. exact Hrefl.
  - intros key' Hne. apply hash_push_other; assumption.
Qed.

Section ExactGradient.

Local Open Scope R_scope.
Local Existing Instance Exact.number.

Variable shapeBoundary : @ShapeBoundary Exact.number.

Lemma intensity_monotone (p q : Vector3) :
  0 < vy (box_size (boundingBox shapeBoundary)) ->
  vx p = vx q -> vz p = vz q -> vy p <= vy q ->
  intensity shapeBoundary p <= intensity shapeBoundary q.
Proof.
  intros Hsize Hx Hz Hy. unfold intensity, heightFactor.
  rewrite Hx, Hz.
  change (nmax (dec 3 1)) with (Rmax (3 / 10)).
  change (nmin (of_Z 1)) with (Rmin 1).
  set (variation := nmul _ (dec 1 1)).
  change (dec 6 1) with (6 / 10). change (dec 4 1) with (4 / 10).
  change nadd with Rplus. change nmul with Rmult. change ndiv with Rdiv.
  change nsub with Rminus.
  set (m := vy (box_min (boundingBox shapeBoundary))).
  set (s := vy (box_size (boundingBox shapeBoundary))) in *.
  assert (Hh : (vy p - m) / s <= (vy q - m) / s).
  { unfold Rdiv. apply Rmult_le_compat_r; [|lra].
    left. apply Rinv_0_lt_compat. exact Hsize. }
  unfold Rmax, Rmin.
  repeat destruct (Rle_dec _ _); lra.
Qed.

End ExactGradient.


(** * The random surface sampler *)

Section SurfaceFacts.

Context {N : JSNumber}.
Variable Math_random : nat -> num.
Variable samplesPerTriangle : nat.

Lemma sample_triangle_length (f : Face) (n k : nat) (points : list num) :
  List.length (fst (sample_triangle Math_random f n k points))
  = (List.length points + 3 * n)%nat
  /\ snd (sample_triangle Math_random f n k points) = (k + 2 * n)%nat.
Proof.
  revert k points. induction n as [|n IH]; intros k points;
    cbn [sample_triangle].
  - simpl. split; lia.
  - destruct (IH (S (S k))
                 (points ++ coords (random_point f (Math_random k)
                                                 (Math_random (S k)))))
      as [Hl Hk].
    rewrite Hl, Hk, length_app. simpl. split; lia.
Qed.

Lemma sample_triangles_length (fs : list Face) (k : nat) (points : list num) :
  List.length (sample_triangles Math_random samplesPerTriangle fs k points)
  = (List.length points + 3 * samplesPerTriangle * List.length fs)%nat.
Proof.
  revert k points. induction fs as [|f fs IH]; intros k points;
    cbn [sample_triangles].
  - simpl. lia.
  - destruct (sample_triangle_length f samplesPerTriangle k points) as [Hl _].
    destruct (sample_triangle Math_random f samplesPerTriangle k points)
      as [points' k'].
    cbn [fst] in Hl. rewrite IH, Hl. simpl. lia.
Qed.

End SurfaceFacts.

(** X21.  The random surface sampler returns three coordinates per
    sample and [samplesPerTriangle] samples per started run of nine
    numbers; in particular nothing for an empty vertex array. *)
Theorem surface_sample_count {N : JSNumber} (Math_random : nat -> num)
        (samplesPerTriangle : nat) (vertices : list num) :
  List.length (samplePointsOnSurface Math_random samplesPerTriangle vertices)
  = (3 * samplesPerTriangle * ((List.length vertices + 8) / 9))%nat.
Proof.
  unfold samplePointsOnSurface.
  rewrite length_map, sample_triangles_length.
  unfold faces_of. rewrite length_map, length_seq. reflexivity.
Qed.

(** X22.  Decoder and sampler compose: a binary buffer that declares
    [n] triangles and decodes gives, with the 12 samples per triangle that
    [loadSTL] asks for, [12 n] points, that is [36 n] numbers. *)
Theorem decoded_sample_count {N : JSNumber}
        (f32_of_bits : Z -> num) (Number : string -> num)
        (Math_random : nat -> num)
        (buffer : list byte) (triangles : Z) (vertices : list num) :
  isASCII buffer = false ->
  getUint32 buffer 80 = Ok triangles ->
  parseSTL f32_of_bits to_f32 Number buffer = Ok vertices ->
  List.length (samplePointsOnSurface Math_random 12 vertices)
  = (3 * (12 * Z.to_nat triangles))%nat.
Proof.
  intros Hbinary Hcount. unfold parseSTL, parseBinarySTL.
  rewrite Hbinary, Hcount. cbn [bind].
  destruct (read_records f32_of_bits buffer 84 (Z.to_nat triangles) [])
    as [vs|e] eqn:E; [|discriminate].
  cbn [bind]. intros H. injection H as <-.
  pose proof (read_records_length _ _ _ _ _ E) as Hlen.
  cbn [List.length Nat.add] in Hlen.
  set (n := Z.to_nat triangles) in *.
  unfold samplePointsOnSurface.
  rewrite length_map, sample_triangles_length. cbn [List.length Nat.add].
  unfold faces_of. rewrite !length_map, length_seq, Hlen.
  replace ((9 * n + 8) / 9)%nat with n
    by (apply (Nat.div_unique _ 9 n 8); lia).
  lia.
Qed.

Section ExactSurface.

Local Open Scope R_scope.
Local Existing Instance Exact.number.

Variable Math_random : nat -> @num Exact.number.
Hypothesis random_range : forall k, 0 <= Math_random k < 1.

Lemma random_point_on_face (f : @Face Exact.number) (r1 r2 : R) :
  0 <= r1 < 1 -> 0 <= r2 < 1 -> on_face f (random_point f r1 r2).
Proof.
  intros Hr1 Hr2. destruct f as [[v1 v2] v3]. unfold on_face.
  assert (Hs0 : 0 <= sqrt r1) by apply sqrt_pos.
  assert (Hs1 : sqrt r1 <= 1).
  { rewrite <- sqrt_1. apply sqrt_le_1_alt. lra. }
  exists (1 - sqrt r1), (r2 * sqrt r1), (1 - (1 - sqrt r1) - r2 * sqrt r1).
  repeat split.
  - lra.
  - apply Rmult_le_pos; lra.
  - replace (1 - (1 - sqrt r1) - r2 * sqrt r1) with (sqrt r1 * (1 - r2))
      by ring.
    apply Rmult_le_pos; lra.
  - ring.
  - simpl. ring.
  - simpl. ring.
  - simpl. ring.
Qed.

Lemma sample_triangle_on_face (f : @Face Exact.number) (n k : nat)
      (points : list R) :
  exists ps : list Vector3,
    fst (sample_triangle Math_random f n k points)
    = points ++ flat_map coords ps
    /\ Forall (on_face f) ps.
Proof.
  revert k points. induction n as [|n IH]; intros k points;
    cbn [sample_triangle].
  - exists []. simpl. rewrite app_nil_r. split; [reflexivity | constructor].
  - cbv zeta. set (p := random_point f (Math_random k) (Math_random (S k))).
    destruct (IH (S (S k)) (points ++ coords p)) as (ps & Hps & Hall).
    exists (p :: ps). split.
    + etransitivity; [exact Hps|].
      cbn [flat_map]. rewrite <- app_assoc. reflexivity.
    + constructor; [|exact Hall].
      apply random_point_on_face; apply random_range.
Qed.

Lemma sample_triangles_on_faces (fs all : list (@Face Exact.number))
      (samplesPerTriangle k : nat) (points : list R) :
  incl fs all ->
  exists ps : list Vector3,
    sample_triangles Math_random samplesPerTriangle fs k points
    = points ++ flat_map coords ps
    /\ Forall (fun p => exists f, In f all /\ on_face f p) ps.
Proof.
  revert k points. induction fs as [|f fs IH]; intros k points Hincl;
    cbn [sample_triangles].
  - exists []. simpl. rewrite app_nil_r. split; [reflexivity | constructor].
  - destruct (sample_triangle_on_face f samplesPerTriangle k points)
      as (ps1 & Hps1 & Hall1).
    destruct (sample_triangle Math_random f samplesPerTriangle k points)
      as [points' k'].
    cbn [fst] in Hps1. subst points'.
    destruct (IH k' (points ++ flat_map coords ps1)) as (ps2 & Hps2 & Hall2).
    { intros x Hx. apply Hincl. right. exact Hx. }
    exists (ps1 ++ ps2). split.
    + etransitivity; [exact Hps2|].
      rewrite flat_map_app, app_assoc. reflexivity.
    + apply Forall_app. split; [|exact Hall2].
      eapply Forall_impl; [|exact Hall1].
      intros p Hp. exists f. split; [apply Hincl; left; reflexivity | exact Hp].
Qed.

End ExactSurface.


(** * Further examples, run *)

Lemma trailing_bytes_ignored_witness :
  isASCII short_record_buffer = false
  /\ parseSTL (fun w : Z => w) (fun w : Z => w) (fun _ => 0%Z)
       short_record_buffer = Ok (repeat 0%Z 9)
  /\ parseSTL (fun w : Z => w) (fun w : Z => w) (fun _ => 0%Z)
       (short_record_buffer ++ [x01; x02]) = Ok (repeat 0%Z 9).
Proof.
  assert (Hbinary : isASCII short_record_buffer = false) by reflexivity.
  assert (Hrun : parseSTL (fun w : Z => w) (fun w : Z => w) (fun _ => 0%Z)
                   short_record_buffer = Ok (repeat 0%Z 9)) by reflexivity.
  split; [exact Hbinary|]. split; [exact Hrun|].
  exact (trailing_bytes_ignored (fun w : Z => w) (fun w : Z => w)
           (fun _ => 0%Z) short_record_buffer [x01; x02] Hbinary Hrun).
Defined.

Lemma count_field_missing_witness :
  (80 <= List.length zero_header < 84)%nat
  /\ String.eqb (decode_text (firstn 5 zero_header)) "solid" = false
  /\ parseSTL IEEE.f32_of_bits IEEE.to_f32 IEEE.Number zero_header
     = Throw RangeError.
Proof.
  assert (Hlen : (80 <= List.length zero_header < 84)%nat) by (simpl; lia).
  assert (Hsolid : String.eqb (decode_text (firstn 5 zero_header)) "solid"
                   = false) by reflexivity.
  split; [exact Hlen|]. split; [exact Hsolid|].
  exact (count_field_missing IEEE.f32_of_bits IEEE.to_f32 IEEE.Number
           zero_header Hlen Hsolid).
Defined.

Lemma vertex_words_decoded_witness :
  List.length zero_header = 80%nat
  /\ String.eqb (decode_text (firstn 5 zero_header)) "solid" = false
  /\ (Z.of_nat (List.length [word_sample]) < 2 ^ 32)%Z
  /\ Forall word_record [word_sample]
  /\ parseSTL IEEE.f32_of_bits IEEE.to_f32 IEEE.Number
       (words_buffer zero_header [word_sample] ++ [x01])
     = Ok (map (fun w => IEEE.to_f32 (IEEE.f32_of_bits w))
               (flat_map (@corners Z) [word_sample])).
Proof.
  assert (Hheader : List.length zero_header = 80%nat) by reflexivity.
  assert (Hsolid : String.eqb (decode_text (firstn 5 zero_header)) "solid"
                   = false) by reflexivity.
  assert (Hcount : (Z.of_nat (List.length [word_sample]) < 2 ^ 32)%Z)
    by reflexivity.
  assert (Hwf : Forall word_record [word_sample]).
  { constructor; [|constructor].
    split; [reflexivity|]. split; [reflexivity|]. split; [reflexivity|].
    simpl. repeat constructor; lia. }
  split; [exact Hheader|]. split; [exact Hsolid|].
  split; [exact Hcount|]. split; [exact Hwf|].
  exact (vertex_words_decoded IEEE.f32_of_bits IEEE.to_f32 IEEE.Number
           zero_header [x01] Hheader Hsolid Hcount Hwf).
Defined.

Lemma vertex_line_padding_witness :
  string_forallb is_blank "  " = true
  /\ string_forallb is_blank carriage_return = true
  /\ well_separated three_tokens
  /\ parseASCIISTL IEEE.to_f32 IEEE.Number
       ("  " ++ vertex_text three_tokens ++ carriage_return)
     = map (fun st => IEEE.to_f32 (IEEE.Number (snd st))) three_tokens.
Proof.
  assert (Hpre : string_forallb is_blank "  " = true) by reflexivity.
  assert (Hpost : string_forallb is_blank carriage_return = true)
    by reflexivity.
  assert (Hsep : well_separated three_tokens).
  { repeat constructor; simpl; discriminate. }
  split; [exact Hpre|]. split; [exact Hpost|]. split; [exact Hsep|].
  exact (vertex_line_padding IEEE.to_f32 IEEE.Number "  " carriage_return
           Hpre Hpost Hsep).
Defined.

Lemma candidate_cap_witness :
  candidatePoints hollow_boundary 1 = Some hollow_candidates
  /\ (List.length hollow_candidates <= 5 * 1)%nat.
Proof.
  assert (Hrun : candidatePoints hollow_boundary 1 = Some hollow_candidates)
    by reflexivity.
  split; [exact Hrun | exact (candidate_cap hollow_boundary 1 Hrun)].
Defined.

Lemma rejected_for_a_reason_witness :
  candidatePoints hollow_boundary 1 = Some hollow_candidates
  /\ selection hollow_boundary 1 keep_order = Some empty_selection
  /\ (List.length (selectedPoints (@empty_selection ieee)) < 1)%nat
  /\ forall c, In c hollow_candidates ->
       In (point c) (selectedPoints (@empty_selection ieee))
       \/ isPointInValidRegion hollow_boundary (point c) = false
       \/ exists q,
            In q (selectedPoints (@empty_selection ieee))
            /\ nlt (distanceTo (point c) q) (minDistance hollow_boundary 1)
               = true.
Proof.
  assert (Hcands : candidatePoints hollow_boundary 1 = Some hollow_candidates)
    by reflexivity.
  assert (Hrun : selection hollow_boundary 1 keep_order = Some empty_selection)
    by reflexivity.
  assert (Hunder : (List.length (selectedPoints (@empty_selection ieee))
                    < 1)%nat)
    by (simpl; lia).
  split; [exact Hcands|]. split; [exact Hrun|]. split; [exact Hunder|].
  exact (@rejected_for_a_reason ieee hollow_boundary 1 keep_order
           hollow_candidates empty_selection Hcands Hrun Hunder).
Defined.

Lemma empty_cloud_iff_hollow_witness :
  (1 <= 1)%nat
  /\ candidatePoints hollow_boundary 1 = Some hollow_candidates
  /\ generatePointsInShape hollow_boundary 1 keep_order
     = Some {| out_points := []; out_colors := [] |}
  /\ (@out_points ieee {| out_points := []; out_colors := [] |} = []
      <-> Forall (fun c => isPointInValidRegion hollow_boundary (point c)
                           = false) hollow_candidates).
Proof.
  assert (Htarget : (1 <= 1)%nat) by lia.
  assert (Hcands : candidatePoints hollow_boundary 1 = Some hollow_candidates)
    by reflexivity.
  assert (Hrun : generatePointsInShape hollow_boundary 1 keep_order
                 = Some {| out_points := []; out_colors := [] |})
    by reflexivity.
  split; [exact Htarget|]. split; [exact Hcands|]. split; [exact Hrun|].
  exact (@empty_cloud_iff_hollow ieee hollow_boundary 1 keep_order
           hollow_candidates _ Htarget Hcands Hrun).
Defined.

Lemma colors_follow_points_witness :
  generatePointsInShape
    (defineShapeBoundary (N := ieee) (I := ieee_inf) peak_triangle)
    1 keep_order
  = Some (peak_cloud first_order_sin first_order_cos)
  /\ exists ps : list (@Vector3 ieee),
      out_points (peak_cloud first_order_sin first_order_cos)
      = map to_f32 (flat_map coords ps)
      /\ out_colors (peak_cloud first_order_sin first_order_cos)
         = map to_f32
             (flat_map
                (color (defineShapeBoundary (N := ieee) (I := ieee_inf)
                          peak_triangle)) ps).
Proof.
  assert (Hrun : generatePointsInShape
                   (defineShapeBoundary (N := ieee) (I := ieee_inf)
                      peak_triangle)
                   1 keep_order
                 = Some (peak_cloud first_order_sin first_order_cos))
    by apply peak_cloud_eq.
  split; [exact Hrun|].
  exact (@colors_follow_points ieee _ 1 keep_order _ Hrun).
Defined.

Lemma ieee_same_string_refl (a : spec_float) : IEEE.same_string a a = true.
Proof.
  destruct a as [s|s| |s m e]; simpl; [reflexivity | | reflexivity |].
  - apply Bool.eqb_reflx.
  - rewrite Bool.eqb_reflx, Pos.eqb_refl, Z.eqb_refl. reflexivity.
Qed.

Lemma ieee_same_string_eq (a b : spec_float) :
  IEEE.same_string a b = true ->
  a = b \/ exists s s', a = S754_zero s /\ b = S754_zero s'.
Proof.
  destruct a as [s|s| |s m e], b as [s'|s'| |s' m' e']; simpl;
    try discriminate; intros H.
  - right. exists s, s'. split; reflexivity.
  - left. apply Bool.eqb_prop in H. rewrite H. reflexivity.
  - left. reflexivity.
  - left. apply andb_true_iff in H. destruct H as [H He].
    apply andb_true_iff in H. destruct H as [Hs Hm].
    apply Bool.eqb_prop in Hs. apply Pos.eqb_eq in Hm. apply Z.eqb_eq in He.
    subst. reflexivity.
Qed.

Lemma ieee_same_string_sym (a b : spec_float) :
  IEEE.same_string a b = true -> IEEE.same_string b a = true.
Proof.
  intros H. destruct (ieee_same_string_eq _ _ H) as [->|(s & s' & -> & ->)];
    [apply ieee_same_string_refl | reflexivity].
Qed.

Lemma ieee_same_string_trans (a b c : spec_float) :
  IEEE.same_string a b = true -> IEEE.same_string b c = true ->
  IEEE.same_string a c = true.
Proof.
  intros H1 H2.
  destruct (ieee_same_string_eq _ _ H1) as [->|(s & s' & -> & ->)];
    [exact H2|].
  destruct c; simpl in *; try discriminate; reflexivity.
Qed.

Lemma hash_add_then_get_witness :
  let p := ieee_vec 1 0 0 in
  let key := getHashKey hollow_boundary 1 p in
  let h' := addToSpatialHash hollow_boundary 1 p [] in
  hash_get key h' = Some (bucket key [] ++ [p])
  /\ forall key', key_eqb key key' = false ->
                  hash_get key' h' = hash_get key' [].
Proof.
  exact (hash_add_then_get hollow_boundary 1 (ieee_vec 1 0 0) []
           ieee_same_string_refl ieee_same_string_sym ieee_same_string_trans).
Defined.



Lemma bounding_box_encloses_witness :
  Forall (fun x => x <> S754_nan) peak_triangle
  /\ let b := defineShapeBoundary (N := ieee) (I := ieee_inf) peak_triangle in
     let box := boundingBox b in
     forall f v, In f (faces b) -> In v (face_vertices f) ->
       (SFleb (vx (box_min box)) (vx v) = true
        /\ SFleb (vx v) (vx (box_max box)) = true)
       /\ (SFleb (vy (box_min box)) (vy v) = true
           /\ SFleb (vy v) (vy (box_max box)) = true)
       /\ (SFleb (vz (box_min box)) (vz v) = true
           /\ SFleb (vz v) (vz (box_max box)) = true).
Proof.
  assert (Hnum : Forall (fun x => x <> S754_nan) peak_triangle)
    by (repeat constructor; discriminate).
  split; [exact Hnum|].
  exact (@bounding_box_encloses first_order_sin first_order_cos
           peak_triangle Hnum).
Defined.

Lemma bounding_box_tight_witness :
  Forall (fun x => x <> S754_nan) peak_triangle
  /\ peak_triangle <> []
  /\ let b := defineShapeBoundary (N := ieee) (I := ieee_inf) peak_triangle in
     let box := boundingBox b in
     forall c, In c [@vx ieee; @vy ieee; @vz ieee] ->
       (exists f v, In f (faces b) /\ In v (face_vertices f)
                    /\ c (box_min box) = c v)
       /\ (exists f v, In f (faces b) /\ In v (face_vertices f)
                       /\ c (box_max box) = c v).
Proof.
  assert (Hnum : Forall (fun x => x <> S754_nan) peak_triangle)
    by (repeat constructor; discriminate).
  assert (Hne : peak_triangle <> []) by discriminate.
  split; [exact Hnum|]. split; [exact Hne|].
  exact (@bounding_box_tight first_order_sin first_order_cos
           peak_triangle Hnum Hne).
Defined.


Lemma nan_vertex_empties_cloud_witness :
  In S754_nan nan_triangle
  /\ createSparsePointCloud (N := ieee) (I := ieee_inf) nan_triangle 1
       keep_order
     = Some {| out_points := []; out_colors := [] |}
  /\ @Build_PointCloud ieee [] [] = {| out_points := []; out_colors := [] |}.
Proof.
  assert (Hnan : In S754_nan nan_triangle) by (left; reflexivity).
  assert (Hrun : createSparsePointCloud (N := ieee) (I := ieee_inf)
                   nan_triangle 1 keep_order
                 = Some {| out_points := []; out_colors := [] |})
    by reflexivity.
  split; [exact Hnan|]. split; [exact Hrun|].
  exact (@nan_vertex_empties_cloud first_order_sin first_order_cos
           nan_triangle 1 keep_order _ Hnan Hrun).
Defined.


Lemma decoded_triangles_are_faces_witness :
  isASCII short_record_buffer = false
  /\ getUint32 short_record_buffer 80 = Ok 1%Z
  /\ parseSTL (num := @num ieee) IEEE.f32_of_bits to_f32 IEEE.Number
       short_record_buffer
     = Ok (repeat (S754_zero false) 9)
  /\ List.length
       (faces (defineShapeBoundary (N := ieee) (I := ieee_inf)
                 (repeat (S754_zero false) 9)))
     = Z.to_nat 1
  /\ flat_map face_coords
       (faces (defineShapeBoundary (N := ieee) (I := ieee_inf)
                 (repeat (S754_zero false) 9)))
     = repeat (S754_zero false) 9.
Proof.
  assert (Hbinary : isASCII short_record_buffer = false) by reflexivity.
  assert (Hcount : getUint32 short_record_buffer 80 = Ok 1%Z) by reflexivity.
  assert (Hrun : parseSTL (num := @num ieee) IEEE.f32_of_bits to_f32
                   IEEE.Number short_record_buffer
                 = Ok (repeat (S754_zero false) 9)) by reflexivity.
  split; [exact Hbinary|]. split; [exact Hcount|]. split; [exact Hrun|].
  exact (@decoded_triangles_are_faces ieee ieee_inf IEEE.f32_of_bits
           IEEE.Number short_record_buffer 1%Z _ Hbinary Hcount Hrun).
Defined.

Lemma decoded_sample_count_witness :
  isASCII short_record_buffer = false
  /\ getUint32 short_record_buffer 80 = Ok 1%Z
  /\ parseSTL (num := @num ieee) IEEE.f32_of_bits to_f32 IEEE.Number
       short_record_buffer
     = Ok (repeat (S754_zero false) 9)
  /\ List.length
       (samplePointsOnSurface (N := ieee) (fun _ => IEEE.dec 5 1) 12
          (repeat (S754_zero false) 9))
     = (3 * (12 * Z.to_nat 1))%nat.
Proof.
  assert (Hbinary : isASCII short_record_buffer = false) by reflexivity.
  assert (Hcount : getUint32 short_record_buffer 80 = Ok 1%Z) by reflexivity.
  assert (Hrun : parseSTL (num := @num ieee) IEEE.f32_of_bits to_f32
                   IEEE.Number short_record_buffer
                 = Ok (repeat (S754_zero false) 9)) by reflexivity.
  split; [exact Hbinary|]. split; [exact Hcount|]. split; [exact Hrun|].
  exact (@decoded_sample_count ieee IEEE.f32_of_bits IEEE.Number
           (fun _ => IEEE.dec 5 1) short_record_buffer 1%Z _
           Hbinary Hcount Hrun).
Defined.
